(** * Score decoding in the quality-evaluator frontend

    A shallow embedding of the decode-and-normalize core of
    [src/frontend/static/app.js]: [normalizeScoreValue], [extractScore],
    [parseResponseJSON], [renderEvaluationView] with
    [renderMetricExtras] (the values they compute and every conversion in
    them that can throw; not the text of the markup), [formatLabel],
    [getScoreClass], [getScoreStyle], [formatScore] and the score cells of
    [renderScoreSummary] and [handleDownloadCsv]; then of what surrounds
    it: [renderDimensionResults], [escapeHtml], [formatFlagType],
    [apiFetch], the reviewer-email functions and the synchronous part of
    [handleEvaluate], and, from [src/frontend/static/admin.js],
    [escapeHtml], [apiFetch], [renderGroupedByReviewer] and [formatDate]
    (the groups, and whether their markup can be built).

    The JavaScript built-ins these functions call ([JSON.parse],
    [parseFloat], [String.prototype.match] / [replace] / [includes] /
    [toLowerCase] / [trim] / [endsWith], [Number.prototype.toFixed],
    [Math.min] / [Math.max], [Object.entries], object spread,
    [Array.prototype.sort], [typeof], [Array.isArray], and the
    conversions [String(v)] and [new Date(v)] as far as they throw) are
    modelled after ECMA-262, and the serialization of a text node after
    the HTML standard, over
    - strings as lists of UTF-16 code units,
    - numbers as IEEE-754 binary64 values ([spec_float] at precision 53),
    - JSON-shaped values as a tagged tree whose objects keep their
      properties in creation order,
    - exceptions as an explicit [outcome] type. *)

From Stdlib Require Import ZArith NArith List String Ascii Bool Lia PeanoNat.
From Stdlib Require Import SpecFloat DecimalPos Permutation Sorted.
Import ListNotations.

(* ================================================================= *)
(** * Strings *)

Module JsString.

(** A JavaScript string is a sequence of 16-bit code units. *)
Abbreviation code_unit := N (only parsing).
Abbreviation jsstring := (list N) (only parsing).

(** [str "abc"] is the JavaScript string with the same (ASCII) characters. *)
Definition str (s : string) : jsstring :=
  map N_of_ascii (list_ascii_of_string s).

(** The double quote, written by its code so that literals stay readable. *)
Definition dq : code_unit := 34%N.
Definition quoted (s : jsstring) : jsstring := dq :: s ++ [dq].

Fixpoint eqb (a b : jsstring) : bool :=
  match a, b with
  | [], [] => true
  | x :: a', y :: b' => N.eqb x y && eqb a' b'
  | _, _ => false
  end.

Fixpoint starts_with (p s : jsstring) : bool :=
  match p, s with
  | [], _ => true
  | x :: p', y :: s' => N.eqb x y && starts_with p' s'
  | _ :: _, [] => false
  end.

(** [String.prototype.includes]: [p] occurs in [s] as a substring. *)
Fixpoint includes (s p : jsstring) : bool :=
  starts_with p s ||
  match s with
  | [] => false
  | _ :: s' => includes s' p
  end.

Definition is_upper (c : code_unit) : bool := (65 <=? c)%N && (c <=? 90)%N.
Definition is_lower (c : code_unit) : bool := (97 <=? c)%N && (c <=? 122)%N.
Definition is_digit (c : code_unit) : bool := (48 <=? c)%N && (c <=? 57)%N.

(** Case mapping of one code unit.  The letters A-Z and a-z are mapped;
    every other code unit is left as it is (the Unicode case mappings of
    non-ASCII letters are outside this model; none of them maps to an
    ASCII letter other than to "k" and to "i" followed by U+0307, and the
    program compares lower-cased text only against the ASCII words below). *)
Definition lower_cu (c : code_unit) : code_unit :=
  if is_upper c then (c + 32)%N else c.
Definition upper_cu (c : code_unit) : code_unit :=
  if is_lower c then (c - 32)%N else c.

Definition toLowerCase (s : jsstring) : jsstring := map lower_cu s.
Definition toUpperCase (s : jsstring) : jsstring := map upper_cu s.

(** White space and line terminators of ECMA-262 (the set matched by the
    regular-expression escape [\s] and trimmed by [parseFloat]). *)
Definition is_space (c : code_unit) : bool :=
  ((9 <=? c) && (c <=? 13) || (c =? 32) || (c =? 160) || (c =? 5760)
   || (8192 <=? c) && (c <=? 8202) || (c =? 8232) || (c =? 8233)
   || (c =? 8239) || (c =? 8287) || (c =? 12288) || (c =? 65279))%N.

(** [\w] without the unicode flag: ASCII letters, digits and underscore. *)
Definition is_word (c : code_unit) : bool :=
  is_upper c || is_lower c || is_digit c || (c =? 95)%N.

Fixpoint trim_start (s : jsstring) : jsstring :=
  match s with
  | c :: s' => if is_space c then trim_start s' else s
  | [] => []
  end.

(** Longest run of decimal digits at the head of [s], and what follows. *)
Fixpoint span_digits (s : jsstring) : jsstring * jsstring :=
  match s with
  | c :: s' =>
      if is_digit c then let (d, r) := span_digits s' in (c :: d, r)
      else ([], s)
  | [] => ([], [])
  end.

(** Value of a digit string read in base ten. *)
Definition digits_value (ds : jsstring) : Z :=
  fold_left (fun acc d => (10 * acc + (Z.of_N d - 48))%Z) ds 0%Z.

(** Decimal digits of a natural number. *)
Fixpoint uint_units (u : Decimal.uint) : jsstring :=
  match u with
  | Decimal.Nil => []
  | Decimal.D0 u' => 48%N :: uint_units u'
  | Decimal.D1 u' => 49%N :: uint_units u'
  | Decimal.D2 u' => 50%N :: uint_units u'
  | Decimal.D3 u' => 51%N :: uint_units u'
  | Decimal.D4 u' => 52%N :: uint_units u'
  | Decimal.D5 u' => 53%N :: uint_units u'
  | Decimal.D6 u' => 54%N :: uint_units u'
  | Decimal.D7 u' => 55%N :: uint_units u'
  | Decimal.D8 u' => 56%N :: uint_units u'
  | Decimal.D9 u' => 57%N :: uint_units u'
  end.

Definition decimal_digits (n : Z) : jsstring :=
  match n with
  | Zpos p => uint_units (Pos.to_uint p)
  | _ => [48%N]
  end.

End JsString.
Import JsString.

(* ================================================================= *)
(** * Numbers *)

Module JsNumber.

Open Scope Z_scope.

(** The Number type: IEEE-754 binary64. *)
Definition number := spec_float.
Definition prec : Z := 53.
Definition emax : Z := 1024.

Definition NaN : number := S754_nan.
Definition Infinity : number := S754_infinity false.

Definition isNaN (x : number) : bool :=
  match x with S754_nan => true | _ => false end.

Definition of_Z (z : Z) : number := binary_normalize prec emax z 0 false.

Definition mul : number -> number -> number := SFmul prec emax.
Definition div : number -> number -> number := SFdiv prec emax.
Definition ltb : number -> number -> bool := SFltb.

(** The Number value of the decimal numeral [m * 10^e10] ([0 <= m]), with
    sign [neg]: the nearest binary64, ties to even.  (ECMA-262 lets an
    engine round a numeral of more than twenty significant digits less
    exactly; the engines in use round correctly, as here.) *)
Definition of_decimal (neg : bool) (m e10 : Z) : number :=
  if m =? 0 then S754_zero neg
  else if 0 <=? e10 then
    binary_normalize prec emax (cond_Zopp neg (m * 10 ^ e10)) 0 false
  else
    let '(q, e, l) := SFdiv_core_binary prec emax m 0 (10 ^ (- e10)) 0 in
    binary_round_aux prec emax neg q e l.

(** [Math.min] and [Math.max] on two arguments: NaN is contagious and
    [-0] is smaller than [+0]. *)
Definition is_neg_zero (x : number) : bool :=
  match x with S754_zero true => true | _ => false end.
Definition is_zero (x : number) : bool :=
  match x with S754_zero _ => true | _ => false end.

Definition Math_min (a b : number) : number :=
  if isNaN a || isNaN b then NaN
  else if is_zero a && is_zero b then
    (if is_neg_zero a then a else b)
  else if ltb b a then b else a.

Definition Math_max (a b : number) : number :=
  if isNaN a || isNaN b then NaN
  else if is_zero a && is_zero b then
    (if is_neg_zero a then b else a)
  else if ltb a b then b else a.

(** ** [parseFloat] *)

(** An optional exponent part [e|E [+|-] digits]; when the digits are
    missing the exponent is not part of the numeral. *)
Definition exponent_part (s : jsstring) : Z * jsstring :=
  match s with
  | c :: s1 =>
      if (c =? 101)%N || (c =? 69)%N then
        let '(neg, s2) :=
          match s1 with
          | sg :: s2 =>
              if (sg =? 45)%N then (true, s2)
              else if (sg =? 43)%N then (false, s2)
              else (false, s1)
          | [] => (false, s1)
          end in
        let (ds, rest) := span_digits s2 in
        match ds with
        | [] => (0, s)
        | _ => (cond_Zopp neg (digits_value ds), rest)
        end
      else (0, s)
  | [] => (0, s)
  end.

(** The longest prefix of [s] that is a StrUnsignedDecimalLiteral other
    than [Infinity], as mantissa, decimal exponent and remaining text;
    [None] when no prefix is one. *)
Definition unsigned_decimal_prefix (s : jsstring) : option (Z * Z * jsstring) :=
  let (ip, s1) := span_digits s in
  match s1 with
  | c :: s2 =>
      if (c =? 46)%N then
        let (fp, s3) := span_digits s2 in
        match ip, fp with
        | [], [] => None
        | _, _ =>
            let (ex, rest) := exponent_part s3 in
            Some (digits_value (ip ++ fp), ex - Z.of_nat (List.length fp), rest)
        end
      else
        match ip with
        | [] => None
        | _ => let (ex, rest) := exponent_part s1 in
               Some (digits_value ip, ex, rest)
        end
  | [] =>
      match ip with
      | [] => None
      | _ => Some (digits_value ip, 0, [])
      end
  end.

Definition unsigned_prefix_value (neg : bool) (s : jsstring) : number :=
  if starts_with (str "Infinity") s then S754_infinity neg
  else
    match unsigned_decimal_prefix s with
    | Some (m, e, _) => of_decimal neg m e
    | None => NaN
    end.

(** [parseFloat(s)] for a string argument: leading white space is
    dropped, the longest prefix that is a StrDecimalLiteral is converted,
    the rest of the text is ignored; NaN when there is no such prefix. *)
Definition parseFloat (s : jsstring) : number :=
  match trim_start s with
  | c :: s' =>
      if (c =? 45)%N then unsigned_prefix_value true s'
      else if (c =? 43)%N then unsigned_prefix_value false s'
      else unsigned_prefix_value false (c :: s')
  | [] => NaN
  end.

(** ** [Number.prototype.toFixed] and [Number::toString] *)

(** Is the finite positive value [m * 2^e] at least [10^21]? *)
Definition ge_1e21 (m : positive) (e : Z) : bool :=
  if 0 <=? e then 10 ^ 21 <=? Zpos m * 2 ^ e
  else 10 ^ 21 * 2 ^ (- e) <=? Zpos m.

(** The integer [n] for which [n / 10 - m * 2^e] is closest to zero, the
    larger one when two are equally close. *)
Definition round_tenths (m : positive) (e : Z) : Z :=
  if 0 <=? e then 10 * Zpos m * 2 ^ e
  else (20 * Zpos m + 2 ^ (- e)) / 2 ^ (1 - e).

(** Steps 11.b-11.c of toFixed for one fraction digit: the digits of [n]
    with a point before the last one, padded to at least [0.d]. *)
Definition with_one_decimal (n : Z) : jsstring :=
  let m := if n =? 0 then [48%N] else decimal_digits n in
  let m := match m with [d] => [48%N; d] | _ => m end in
  let k := List.length m in
  firstn (k - 1) m ++ [46%N] ++ skipn (k - 1) m.

(** Number of decimal digits of a positive integer. *)
Definition digit_count (x : Z) : nat := List.length (decimal_digits x).

(** Shortest digit string for an integer value [x >= 10^21] that is the
    binary64 [v]: the least [k] such that some [k]-digit [s] has
    [s * 10^(n-k)] rounding to [v], taking the [s] nearest to [x] (the even
    one on a tie).  Returns [s] and [n]. *)
Fixpoint shortest_digits (fuel : nat) (k : nat) (v : number) (x : Z) (d : nat)
  : Z * nat :=
  let p := 10 ^ Z.of_nat (d - k) in
  let lo := x / p in
  let hi := lo + 1 in
  let oklo := match v, of_Z (lo * p) with
              | S754_finite _ m1 e1, S754_finite _ m2 e2 =>
                  Pos.eqb m1 m2 && (e1 =? e2)
              | _, _ => false
              end in
  let okhi := match v, of_Z (hi * p) with
              | S754_finite _ m1 e1, S754_finite _ m2 e2 =>
                  Pos.eqb m1 m2 && (e1 =? e2)
              | _, _ => false
              end in
  let pick_hi := if hi =? 10 ^ Z.of_nat k then (1, S d) else (hi, d) in
  match fuel with
  | O => (lo, d)
  | S fuel' =>
      if oklo && okhi then
        match (x - lo * p) ?= (hi * p - x) with
        | Lt => (lo, d)
        | Gt => pick_hi
        | Eq => if Z.even lo then (lo, d) else pick_hi
        end
      else if oklo then (lo, d)
      else if okhi then pick_hi
      else shortest_digits fuel' (S k) v x d
  end.

(** [Number::toString] of a finite value [m * 2^e >= 10^21] (radix 10):
    exponential notation [d.ddd e+N]. *)
Definition toString_large (m : positive) (e : Z) : jsstring :=
  let x := Zpos m * 2 ^ e in
  let '(s, n) := shortest_digits 17 1 (S754_finite false m e) x (digit_count x) in
  let ds := decimal_digits s in
  let mant := match ds with
              | [d1] => [d1]
              | d1 :: rest => d1 :: 46%N :: rest
              | [] => []
              end in
  mant ++ str "e+" ++ decimal_digits (Z.of_nat n - 1).

(** [x.toFixed(1)]. *)
Definition toFixed1 (x : number) : jsstring :=
  match x with
  | S754_nan => str "NaN"
  | S754_infinity false => str "Infinity"
  | S754_infinity true => str "-Infinity"
  | S754_zero _ => str "0.0"
  | S754_finite neg m e =>
      (if neg then str "-" else []) ++
      (if ge_1e21 m e then toString_large m e
       else with_one_decimal (round_tenths m e))
  end.

End JsNumber.
Import JsNumber.

(* ================================================================= *)
(** * Values and exceptions *)

(** The values the program handles are the ones JSON can carry, plus
    [undefined].  An object lists its own properties in the order they
    were created; keys are unique. *)
#[local] Set Warnings "-register-all".
Inductive value : Type :=
| VUndefined
| VNull
| VBool (b : bool)
| VNumber (x : number)
| VString (s : jsstring)
| VArray (elems : list value)
| VObject (props : list (jsstring * value)).

Inductive error : Type := TypeError | SyntaxError.

(** Result of running a piece of JavaScript: a value, or an exception. *)
Inductive outcome (A : Type) : Type :=
| Ret (a : A)
| Throw (e : error).
Arguments Ret {A} a.
Arguments Throw {A} e.

Definition bind {A B} (m : outcome A) (f : A -> outcome B) : outcome B :=
  match m with
  | Ret a => f a
  | Throw e => Throw e
  end.

Notation "x <- m ;; k" := (bind m (fun x => k))
  (at level 61, m at next level, right associativity).

(** [try { body } catch (e) { }] where falling out of the block, by the
    end of the body or by the handler, yields [None]. *)
Definition try_or_continue {A} (body : outcome (option A)) : option A :=
  match body with
  | Ret r => r
  | Throw _ => None
  end.

Module Js.

(** ToBoolean. *)
Definition truthy (v : value) : bool :=
  match v with
  | VUndefined | VNull => false
  | VBool b => b
  | VNumber x => negb (is_zero x || isNaN x)
  | VString s => match s with [] => false | _ => true end
  | VArray _ | VObject _ => true
  end.

Inductive type_name := Tundefined | Tobject | Tboolean | Tnumber | Tstring.

Definition typeof (v : value) : type_name :=
  match v with
  | VUndefined => Tundefined
  | VNull | VArray _ | VObject _ => Tobject
  | VBool _ => Tboolean
  | VNumber _ => Tnumber
  | VString _ => Tstring
  end.

Definition type_name_eqb (a b : type_name) : bool :=
  match a, b with
  | Tundefined, Tundefined | Tobject, Tobject | Tboolean, Tboolean
  | Tnumber, Tnumber | Tstring, Tstring => true
  | _, _ => false
  end.

Definition Array_isArray (v : value) : bool :=
  match v with VArray _ => true | _ => false end.

Definition is_undefined (v : value) : bool :=
  match v with VUndefined => true | _ => false end.

Definition is_null (v : value) : bool :=
  match v with VNull => true | _ => false end.

(** [v === s] for a string constant [s]. *)
Definition is_string (s : jsstring) (v : value) : bool :=
  match v with VString t => JsString.eqb t s | _ => false end.

(** [a || b]. *)
Definition or_else (a b : value) : value := if truthy a then a else b.

(** ** Own properties *)

Fixpoint lookup (k : jsstring) (props : list (jsstring * value)) : option value :=
  match props with
  | [] => None
  | (k', v) :: rest => if JsString.eqb k' k then Some v else lookup k rest
  end.

(** CreateDataProperty: an existing key keeps its place and takes the new
    value, a new key goes last. *)
Fixpoint set_prop (k : jsstring) (v : value) (props : list (jsstring * value))
  : list (jsstring * value) :=
  match props with
  | [] => [(k, v)]
  | (k', v') :: rest =>
      if JsString.eqb k' k then (k', v) :: rest
      else (k', v') :: set_prop k v rest
  end.

(** An array index is a canonical numeric string below [2^32 - 1]. *)
Definition array_index (k : jsstring) : option N :=
  match k with
  | [] => None
  | c :: rest =>
      if forallb is_digit k
         && (negb (N.eqb c 48) || match rest with [] => true | _ => false end)
         && (digits_value k <? 4294967295)%Z
      then Some (Z.to_N (digits_value k))
      else None
  end.

(** Property read [v.k] / [v[k]] for a data property name [k].  Reading a
    property of [null] or [undefined] throws.  Strings and arrays have
    their indices and [length]; the methods that the prototypes supply
    are not values of this model, and no property the program reads by
    name is one of them. *)
Definition get (v : value) (k : jsstring) : outcome value :=
  match v with
  | VUndefined | VNull => Throw TypeError
  | VBool _ | VNumber _ => Ret VUndefined
  | VString s =>
      if JsString.eqb k (str "length") then
        Ret (VNumber (of_Z (Z.of_nat (List.length s))))
      else
        match array_index k with
        | Some i => match nth_error s (N.to_nat i) with
                    | Some c => Ret (VString [c])
                    | None => Ret VUndefined
                    end
        | None => Ret VUndefined
        end
  | VArray l =>
      if JsString.eqb k (str "length") then
        Ret (VNumber (of_Z (Z.of_nat (List.length l))))
      else
        match array_index k with
        | Some i => match nth_error l (N.to_nat i) with
                    | Some x => Ret x
                    | None => Ret VUndefined
                    end
        | None => Ret VUndefined
        end
  | VObject props =>
      match lookup k props with
      | Some x => Ret x
      | None => Ret VUndefined
      end
  end.

(** [v?.k]. *)
Definition get_opt (v : value) (k : jsstring) : value :=
  match get v k with
  | Ret x => x
  | Throw _ => VUndefined
  end.

(** ** [Object.entries] *)

(** Insertion of an index key into the ascending run of index keys. *)
Fixpoint insert_index (i : N) (e : jsstring * value)
  (l : list (N * (jsstring * value))) : list (N * (jsstring * value)) :=
  match l with
  | [] => [(i, e)]
  | (j, e') :: rest =>
      if (i <? j)%N then (i, e) :: l else (j, e') :: insert_index i e rest
  end.

Fixpoint index_entries (props : list (jsstring * value))
  : list (N * (jsstring * value)) :=
  match props with
  | [] => []
  | (k, v) :: rest =>
      match array_index k with
      | Some i => insert_index i (k, v) (index_entries rest)
      | None => index_entries rest
      end
  end.

Definition is_index_key (e : jsstring * value) : bool :=
  match array_index (fst e) with Some _ => true | None => false end.

(** OrdinaryOwnPropertyKeys: array-index keys in ascending numeric order,
    then the other keys in order of creation. *)
Definition own_entries (props : list (jsstring * value)) : list (jsstring * value) :=
  map snd (index_entries props) ++ filter (fun e => negb (is_index_key e)) props.

Fixpoint indexed {A} (f : A -> value) (i : Z) (l : list A) : list (jsstring * value) :=
  match l with
  | [] => []
  | x :: rest => (decimal_digits i, f x) :: indexed f (i + 1) rest
  end.

(** [Object.entries(v)]: the own enumerable string-keyed properties.  For
    an array and for a string these are the indices; numbers and booleans
    have none; [null] and [undefined] throw. *)
Definition Object_entries (v : value) : outcome (list (jsstring * value)) :=
  match v with
  | VUndefined | VNull => Throw TypeError
  | VBool _ | VNumber _ => Ret []
  | VString s => Ret (indexed (fun c => VString [c]) 0 s)
  | VArray l => Ret (indexed (fun x => x) 0 l)
  | VObject props => Ret (own_entries props)
  end.

(** ** Conversion to a primitive value and to a string *)

(** [a ?? b]. *)
Definition nullish_or (a b : value) : value :=
  if is_null a || is_undefined a then b else a.

(** The values that OrdinaryToPrimitive cannot convert.  An object of
    this model inherits [toString] and [valueOf] from [Object.prototype]:
    [valueOf] gives back the object and [toString] gives ["[object
    Object]"], unless an own property [toString] hides it; an own
    property is never a function, so that then neither method yields a
    primitive value, in either order of trial.  An array is converted by
    [Array.prototype.join], which converts each element other than
    [null] and [undefined] in turn. *)
Fixpoint no_primitive (v : value) : bool :=
  match v with
  | VArray l => existsb no_primitive l
  | VObject props =>
      match lookup (str "toString") props with
      | Some _ => true
      | None => false
      end
  | _ => false
  end.

(** ToPrimitive and ToString of ECMA-262 ([String(v)], [new Date(v)]) as
    far as their completion goes: a TypeError on the values above and a
    normal completion on all others.  The text that [String(v)] returns
    is no part of what is modelled of the pages. *)
Definition ToPrimitive (v : value) : outcome unit :=
  if no_primitive v then Throw TypeError else Ret tt.

Definition ToString (v : value) : outcome unit := ToPrimitive v.

End Js.
Import Js.

(* ================================================================= *)
(** * Regular expressions *)

(** The fragment of the ECMAScript pattern language that the program's
    literals use, with the backtracking semantics of ECMA-262: patterns
    are tried at each start position from the left, greedy quantifiers
    try the longest repetition first and lazy ones the shortest. *)
Module RegExp.

Inductive char_class : Type :=
| ClsSpace                         (* \s *)
| ClsDigit                         (* \d *)
| ClsWord                          (* \w *)
| ClsNot (c : char_class)          (* \S is ClsNot ClsSpace *)
| ClsOr (a b : char_class).        (* [ab] *)

Fixpoint in_class (cls : char_class) (c : code_unit) : bool :=
  match cls with
  | ClsSpace => is_space c
  | ClsDigit => is_digit c
  | ClsWord => is_word c
  | ClsNot a => negb (in_class a c)
  | ClsOr a b => in_class a c || in_class b c
  end.

Inductive regex : Type :=
| REmpty                                     (* the empty pattern *)
| RChar (c : code_unit)                      (* a pattern character *)
| RClass (cls : char_class)                  (* a class atom *)
| RCat (r1 r2 : regex)                       (* r1 r2 *)
| RStar (greedy : bool) (cls : char_class)   (* cls* and cls*? *)
| ROpt (r : regex)                           (* r? *)
| RGroup (n : nat) (r : regex)               (* n-th capturing group *)
| RWordBoundary.                             (* \b *)

(** A sequence of patterns, and the characters of a word in sequence. *)
Fixpoint RSeq (rs : list regex) : regex :=
  match rs with
  | [] => REmpty
  | r :: rs' => RCat r (RSeq rs')
  end.

Definition RWord (w : jsstring) : regex := RSeq (map RChar w).

(** [cls+] *)
Definition RPlus (cls : char_class) : regex := RCat (RClass cls) (RStar true cls).

(** Matcher state: the position, the code unit before it, the text from
    it on, and the captures made so far as [(group, (start, end))]. *)
Record mstate : Type := MState {
  ms_pos : nat;
  ms_prev : option code_unit;
  ms_rest : jsstring;
  ms_caps : list (nat * (nat * nat))
}.

(** Canonicalize of ECMA-262 for a pattern without the unicode flag, as
    far as ASCII pattern characters can tell: under [ignoreCase] a-z are
    compared as A-Z; a code unit above 127 never becomes an ASCII one. *)
Definition canonicalize (ignoreCase : bool) (c : code_unit) : code_unit :=
  if ignoreCase then upper_cu c else c.

Definition word_at (o : option code_unit) : bool :=
  match o with Some c => is_word c | None => false end.

Section Matcher.

Variable ignoreCase : bool.

(** [cls*] from state [(pos, prev, s)]: longest first when greedy,
    shortest first when lazy; [k] is what must still match. *)
Fixpoint star (greedy : bool) (cls : char_class) (pos : nat)
  (prev : option code_unit) (s : jsstring) (caps : list (nat * (nat * nat)))
  (k : mstate -> option mstate) : option mstate :=
  let stop := k (MState pos prev s caps) in
  match s with
  | c :: s' =>
      if in_class cls c then
        if greedy then
          match star greedy cls (S pos) (Some c) s' caps k with
          | Some r => Some r
          | None => stop
          end
        else
          match stop with
          | Some r => Some r
          | None => star greedy cls (S pos) (Some c) s' caps k
          end
      else stop
  | [] => stop
  end.

Fixpoint run (r : regex) (st : mstate) (k : mstate -> option mstate)
  : option mstate :=
  match r with
  | REmpty => k st
  | RChar c =>
      match ms_rest st with
      | x :: s' =>
          if N.eqb (canonicalize ignoreCase x) (canonicalize ignoreCase c)
          then k (MState (S (ms_pos st)) (Some x) s' (ms_caps st))
          else None
      | [] => None
      end
  | RClass cls =>
      match ms_rest st with
      | x :: s' =>
          if in_class cls x
          then k (MState (S (ms_pos st)) (Some x) s' (ms_caps st))
          else None
      | [] => None
      end
  | RCat r1 r2 => run r1 st (fun st' => run r2 st' k)
  | RStar greedy cls =>
      star greedy cls (ms_pos st) (ms_prev st) (ms_rest st) (ms_caps st) k
  | ROpt r' =>
      match run r' st k with
      | Some res => Some res
      | None => k st
      end
  | RGroup n r' =>
      run r' st (fun st' =>
        k (MState (ms_pos st') (ms_prev st') (ms_rest st')
             ((n, (ms_pos st, ms_pos st')) :: ms_caps st')))
  | RWordBoundary =>
      if xorb (word_at (ms_prev st)) (word_at (hd_error (ms_rest st)))
      then k st else None
  end.

(** First match at or after the current position: start index and final
    matcher state. *)
Fixpoint search (r : regex) (pos : nat) (prev : option code_unit) (s : jsstring)
  : option (nat * mstate) :=
  match run r (MState pos prev s []) (fun st => Some st) with
  | Some st => Some (pos, st)
  | None =>
      match s with
      | [] => None
      | c :: s' => search r (S pos) (Some c) s'
      end
  end.

End Matcher.

(** A regular-expression literal: pattern and the [i] flag. *)
Record RegExp : Type := Re { re_pattern : regex; re_ignoreCase : bool }.

(** The array a successful match returns: its [index], the matched text
    (element [0]) and the text of each group that took part. *)
Record match_array : Type := Match {
  m_index : nat;
  m_text : jsstring;
  m_groups : list (nat * jsstring)
}.

Definition substring (s : jsstring) (a b : nat) : jsstring :=
  firstn (b - a) (skipn a s).

(** [s.match(re)] for a pattern without the [g] flag. *)
Definition String_match (s : jsstring) (re : RegExp) : option match_array :=
  match search (re_ignoreCase re) (re_pattern re) 0 None s with
  | Some (i, st) =>
      Some (Match i (substring s i (ms_pos st))
              (map (fun c => (fst c, substring s (fst (snd c)) (snd (snd c))))
                 (ms_caps st)))
  | None => None
  end.

(** [m[n]] converted to a string: the group's text, or ["undefined"]. *)
Fixpoint group_text (n : nat) (gs : list (nat * jsstring)) : jsstring :=
  match gs with
  | [] => str "undefined"
  | (i, t) :: rest => if Nat.eqb i n then t else group_text n rest
  end.

Definition group (m : match_array) (n : nat) : jsstring :=
  group_text n (m_groups m).

(** [s.replace(re, f)] for a pattern with the [g] flag and a replacer [f]
    called on each matched text: matches are found left to right, each
    search starting where the previous match ended (one further on after
    an empty match).  [fuel] bounds the number of matches. *)
Fixpoint replace_from (fuel : nat) (re : RegExp) (f : jsstring -> jsstring)
  (pos : nat) (prev : option code_unit) (s : jsstring) : jsstring :=
  match fuel with
  | O => s
  | S fuel' =>
      match search (re_ignoreCase re) (re_pattern re) pos prev s with
      | None => s
      | Some (i, st) =>
          let before := firstn (i - pos) s in
          let matched := firstn (ms_pos st - i) (skipn (i - pos) s) in
          let after := ms_rest st in
          before ++ f matched ++
          (if Nat.eqb (ms_pos st) i then
             match after with
             | [] => []
             | c :: after' =>
                 c :: replace_from fuel' re f (S (ms_pos st)) (Some c) after'
             end
           else replace_from fuel' re f (ms_pos st) (ms_prev st) after)
      end
  end.

Definition String_replace_all (s : jsstring) (re : RegExp)
  (f : jsstring -> jsstring) : jsstring :=
  replace_from (S (List.length s)) re f 0 None s.

(** ** Patterns that match one code unit *)

(** For a pattern that matches exactly one code unit [c], under a
    condition [P prev c] on it and on the code unit before it, a global
    [replace] visits the text once: [find_first] locates the next match,
    [replaced] is the resulting text. *)
Fixpoint find_first (P : option N -> N -> bool) (prev : option N) (s : jsstring)
  : option (nat * N * jsstring) :=
  match s with
  | [] => None
  | c :: s' =>
      if P prev c then Some (O, c, s')
      else match find_first P (Some c) s' with
           | Some (k, c', after) => Some (S k, c', after)
           | None => None
           end
  end.

Fixpoint replaced (P : option N -> N -> bool) (f : jsstring -> jsstring)
  (prev : option N) (s : jsstring) : jsstring :=
  match s with
  | [] => []
  | c :: s' => (if P prev c then f [c] else [c]) ++ replaced P f (Some c) s'
  end.

End RegExp.
Import RegExp.

(* ================================================================= *)
(** * [JSON.parse] *)

Module JSON.

Open Scope N_scope.

(** JSON white space: tab, line feed, carriage return, space. *)
Definition is_ws (c : code_unit) : bool :=
  (c =? 9) || (c =? 10) || (c =? 13) || (c =? 32).

Fixpoint skip_ws (s : jsstring) : jsstring :=
  match s with
  | c :: s' => if is_ws c then skip_ws s' else s
  | [] => []
  end.

Definition hex_value (c : code_unit) : option N :=
  if is_digit c then Some (c - 48)
  else if (97 <=? c) && (c <=? 102) then Some (c - 87)
  else if (65 <=? c) && (c <=? 70) then Some (c - 55)
  else None.

(** The characters of a string literal after its opening quote, up to
    and including the closing quote; the decoded text and what follows. *)
Fixpoint string_body (s : jsstring) (acc : jsstring) : option (jsstring * jsstring) :=
  match s with
  | [] => None
  | c :: s1 =>
      if c =? 34 then Some (rev acc, s1)
      else if c <? 32 then None
      else if c =? 92 then
        match s1 with
        | [] => None
        | e :: s2 =>
            if e =? 34 then string_body s2 (34 :: acc)
            else if e =? 92 then string_body s2 (92 :: acc)
            else if e =? 47 then string_body s2 (47 :: acc)
            else if e =? 98 then string_body s2 (8 :: acc)
            else if e =? 102 then string_body s2 (12 :: acc)
            else if e =? 110 then string_body s2 (10 :: acc)
            else if e =? 114 then string_body s2 (13 :: acc)
            else if e =? 116 then string_body s2 (9 :: acc)
            else if e =? 117 then
              match s2 with
              | h1 :: h2 :: h3 :: h4 :: s3 =>
                  match hex_value h1, hex_value h2, hex_value h3, hex_value h4 with
                  | Some a, Some b, Some c', Some d =>
                      string_body s3 (((a * 16 + b) * 16 + c') * 16 + d :: acc)
                  | _, _, _, _ => None
                  end
              | _ => None
              end
            else None
        end
      else string_body s1 (c :: acc)
  end.

(** A number literal [-? int frac? exp?] at the head of [s]. *)
Definition number_literal (s : jsstring) : option (number * jsstring) :=
  let '(neg, s0) :=
    match s with
    | c :: s' => if c =? 45 then (true, s') else (false, s)
    | [] => (false, s)
    end in
  let '(ip, s1) :=
    match s0 with
    | c :: s' => if c =? 48 then ([48], s') else span_digits s0
    | [] => ([], s0)
    end in
  match ip with
  | [] => None
  | _ =>
      let frac :=
        match s1 with
        | c :: s2 =>
            if c =? 46 then
              let (fp, s3) := span_digits s2 in
              match fp with
              | [] => None
              | _ => Some (fp, s3)
              end
            else Some ([], s1)
        | [] => Some ([], s1)
        end in
      match frac with
      | None => None
      | Some (fp, s3) =>
          let ex :=
            match s3 with
            | c :: s4 =>
                if (c =? 101) || (c =? 69) then
                  let '(eneg, s5) :=
                    match s4 with
                    | sg :: s5 =>
                        if sg =? 45 then (true, s5)
                        else if sg =? 43 then (false, s5)
                        else (false, s4)
                    | [] => (false, s4)
                    end in
                  let (ds, s6) := span_digits s5 in
                  match ds with
                  | [] => None
                  | _ => Some (cond_Zopp eneg (digits_value ds), s6)
                  end
                else Some (0%Z, s3)
            | [] => Some (0%Z, s3)
            end in
          match ex with
          | None => None
          | Some (e, rest) =>
              Some (of_decimal neg (digits_value (ip ++ fp))
                      (e - Z.of_nat (List.length fp)), rest)
          end
      end
  end.

(** Recursive descent over the JSON grammar.  Each call reads one value
    (respectively the rest of an array or of an object) from the head of
    the text and returns it with the text that follows; [None] is a
    syntax error.  [fuel] bounds the number of nested calls. *)
Fixpoint parse_value (fuel : nat) (s : jsstring) : option (value * jsstring) :=
  match fuel with
  | O => None
  | S fuel' =>
      match skip_ws s with
      | [] => None
      | c :: s1 =>
          if c =? 34 then
            match string_body s1 [] with
            | Some (t, rest) => Some (VString t, rest)
            | None => None
            end
          else if c =? 91 then
            match skip_ws s1 with
            | c2 :: s2 =>
                if c2 =? 93 then Some (VArray [], s2)
                else parse_elements fuel' s1 []
            | [] => None
            end
          else if c =? 123 then
            match skip_ws s1 with
            | c2 :: s2 =>
                if c2 =? 125 then Some (VObject [], s2)
                else parse_members fuel' s1 []
            | [] => None
            end
          else if starts_with (str "null") (c :: s1) then
            Some (VNull, skipn 4 (c :: s1))
          else if starts_with (str "true") (c :: s1) then
            Some (VBool true, skipn 4 (c :: s1))
          else if starts_with (str "false") (c :: s1) then
            Some (VBool false, skipn 5 (c :: s1))
          else
            match number_literal (c :: s1) with
            | Some (x, rest) => Some (VNumber x, rest)
            | None => None
            end
      end
  end

with parse_elements (fuel : nat) (s : jsstring) (acc : list value)
  : option (value * jsstring) :=
  match fuel with
  | O => None
  | S fuel' =>
      match parse_value fuel' s with
      | None => None
      | Some (v, rest) =>
          match skip_ws rest with
          | c :: s1 =>
              if c =? 44 then parse_elements fuel' s1 (v :: acc)
              else if c =? 93 then Some (VArray (rev (v :: acc)), s1)
              else None
          | [] => None
          end
      end
  end

with parse_members (fuel : nat) (s : jsstring) (acc : list (jsstring * value))
  : option (value * jsstring) :=
  match fuel with
  | O => None
  | S fuel' =>
      match skip_ws s with
      | c :: s1 =>
          if c =? 34 then
            match string_body s1 [] with
            | None => None
            | Some (key, s2) =>
                match skip_ws s2 with
                | c3 :: s3 =>
                    if c3 =? 58 then
                      match parse_value fuel' s3 with
                      | None => None
                      | Some (v, rest) =>
                          match skip_ws rest with
                          | c4 :: s4 =>
                              if c4 =? 44 then
                                parse_members fuel' s4 (set_prop key v acc)
                              else if c4 =? 125 then
                                Some (VObject (set_prop key v acc), s4)
                              else None
                          | [] => None
                          end
                      end
                    else None
                | [] => None
                end
            end
          else None
      | [] => None
      end
  end.

(** Calls nest at most twice per character read, so this much fuel is
    never used up (see [parse_value_fuel]). *)
Definition fuel_for (s : jsstring) : nat := 2 * List.length s + 2.

(** [JSON.parse(text)] without a reviver: the text must be one JSON value
    between optional white space, else a SyntaxError is thrown. *)
Definition parse (text : jsstring) : outcome value :=
  match parse_value (fuel_for text) text with
  | Some (v, rest) =>
      match skip_ws rest with
      | [] => Ret v
      | _ :: _ => Throw SyntaxError
      end
  | None => Throw SyntaxError
  end.

End JSON.

(* ================================================================= *)
(** * The program: [src/frontend/static/app.js] *)

(** ** Constants *)

(** [DIMENSION_ORDER]. *)
Definition DIMENSION_ORDER : list jsstring :=
  [ str "Prompt Quality";
    str "Manual Tool Execution (Happy Path)";
    str "SQL Verifier Quality";
    str "Model Benchmarking Analysis" ].

(** The score values the program passes around: [null], the strings
    ['PASS'] and ['FAIL'], and numbers. *)
Definition PASS : value := VString (str "PASS").
Definition FAIL : value := VString (str "FAIL").

(** The pattern [/```json\s*([\s\S]*?)\s*```/] of [extractScore] and
    [parseResponseJSON]. *)
Definition fence_re : RegExp :=
  Re (RSeq [ RWord (str "```json");
             RStar true ClsSpace;
             RGroup 1 (RStar false (ClsOr ClsSpace (ClsNot ClsSpace)));
             RStar true ClsSpace;
             RWord (str "```") ])
     false.

(** The two patterns of [extractScore]'s last strategy:
    [/"score"\s*:\s*"?(\d+(?:\.\d+)?)"?/] and
    [/score:\s*(\d+(?:\.\d+)?)/i]. *)
Definition number_group : regex :=
  RGroup 1 (RCat (RPlus ClsDigit) (ROpt (RCat (RChar 46%N) (RPlus ClsDigit)))).

Definition quoted_score_re : RegExp :=
  Re (RSeq [ RWord (quoted (str "score"));
             RStar true ClsSpace;
             RChar 58%N;
             RStar true ClsSpace;
             ROpt (RChar dq);
             number_group;
             ROpt (RChar dq) ])
     false.

Definition loose_score_re : RegExp :=
  Re (RSeq [ RWord (str "score:");
             RStar true ClsSpace;
             number_group ])
     true.

(** ** [normalizeScoreValue] *)

Definition normalizeScoreValue (v : value) : value :=
  if is_null v || is_undefined v then VNull
  else
    match v with
    | VNumber _ => v
    | VString s =>
        let lower := toLowerCase s in
        if JsString.eqb lower (str "pass") then PASS
        else if JsString.eqb lower (str "fail") then FAIL
        else
          let parsed := parseFloat s in
          if negb (isNaN parsed) then VNumber parsed else VNull
    | _ => VNull
    end.

(** ** [extractScore] *)

(** The body of each of the two [try] blocks of [extractScore], run on
    the text handed to [JSON.parse]: [Some v] when the block returns [v],
    [None] when control leaves the block without a [return]. *)
Definition score_of_json (text : jsstring) : option value :=
  try_or_continue
    (parsed <- JSON.parse text ;;
     overall_score <- get parsed (str "overall_score") ;;
     if negb (is_undefined overall_score) then
       Ret (Some (normalizeScoreValue overall_score))
     else
       score <- get parsed (str "score") ;;
       if negb (is_undefined score) then
         Ret (Some (normalizeScoreValue score))
       else Ret None).

(** The literals ["overall_score": "<word>"] and ["overall_score":"<word>"]
    searched for in the lower-cased text. *)
Definition verdict_literal (spaced : bool) (word : jsstring) : jsstring :=
  quoted (str "overall_score") ++ str (if spaced then ": " else ":") ++ quoted word.

(** The [for] loop over the two numeric patterns. *)
Fixpoint first_numeric_match (response : jsstring) (patterns : list RegExp)
  : option value :=
  match patterns with
  | [] => None
  | pattern :: rest =>
      match String_match response pattern with
      | Some m => Some (VNumber (parseFloat (group m 1)))
      | None => first_numeric_match response rest
      end
  end.

(** The part of [extractScore] below the [response.match] call, where
    [response] is known to be a string. *)
Definition extractScore_string (response : jsstring) : value :=
  let jsonMatch := String_match response fence_re in
  let fenced :=
    match jsonMatch with
    | Some m => score_of_json (group m 1)
    | None => None
    end in
  match fenced with
  | Some v => v
  | None =>
      match score_of_json response with
      | Some v => v
      | None =>
          let lower := toLowerCase response in
          if includes lower (verdict_literal true (str "pass"))
             || includes lower (verdict_literal false (str "pass"))
          then PASS
          else if includes lower (verdict_literal true (str "fail"))
                  || includes lower (verdict_literal false (str "fail"))
          then FAIL
          else
            match first_numeric_match response [quoted_score_re; loose_score_re] with
            | Some v => v
            | None => VNull
            end
      end
  end.

(** [extractScore(response)].  A falsy argument yields [null]; calling
    [.match] on anything that is not a string throws a TypeError (no
    JSON-shaped value other than a string has a callable [match]). *)
Definition extractScore (response : value) : outcome value :=
  if negb (truthy response) then Ret VNull
  else
    match response with
    | VString s => Ret (extractScore_string s)
    | _ => Throw TypeError
    end.

(** ** [parseResponseJSON] *)

Definition parseResponseJSON (response : value) : value :=
  if negb (truthy response) then VNull
  else if type_name_eqb (typeof response) Tobject then response
  else
    match response with
    | VString s =>
        let jsonMatch := String_match s fence_re in
        let raw := match jsonMatch with
                   | Some m => group m 1
                   | None => s
                   end in
        match JSON.parse raw with
        | Ret v => v
        | Throw _ => VNull
        end
    | _ => VNull
    end.

(** ** [formatLabel] *)

(** [/_/g] and [/\b\w/g]. *)
Definition underscore_re : RegExp := Re (RChar 95%N) false.
Definition word_start_re : RegExp := Re (RCat RWordBoundary (RClass ClsWord)) false.

Definition formatLabel (key : jsstring) : jsstring :=
  String_replace_all
    (String_replace_all key underscore_re (fun _ => str " "))
    word_start_re (fun char => toUpperCase char).

(** ** [getScoreClass], [getScoreStyle], [formatScore] *)

Definition getScoreClass (score : value) : jsstring :=
  if is_null score then str "score-na"
  else if is_string (str "PASS") score then str "score-pass"
  else if is_string (str "FAIL") score then str "score-fail"
  else if type_name_eqb (typeof score) Tnumber then str "score-gradient"
  else str "score-na".

(** [getScoreStyle] returns either the empty string or the attribute
    [style="--score-color: hsl(<hue>, 70%, 50%)"]; the model returns
    [None] for the former and the number [hue] for the latter. *)
Definition getScoreStyle (score : value) : option number :=
  match score with
  | VNumber x =>
      if isNaN x then None
      else
        let clamped := Math_max (of_Z 0) (Math_min (of_Z 5) x) in
        let hue := mul (div clamped (of_Z 5)) (of_Z 120) in
        Some hue
  | _ => None
  end.

(** U+2713 CHECK MARK and U+2717 BALLOT X. *)
Definition check_mark : code_unit := 10003%N.
Definition ballot_x : code_unit := 10007%N.

Definition formatScore (score : value) : value :=
  if is_null score then VString (str "N/A")
  else if is_string (str "PASS") score then VString (check_mark :: str " PASS")
  else if is_string (str "FAIL") score then VString (ballot_x :: str " FAIL")
  else
    match score with
    | VNumber x => VString (toFixed1 x)
    | _ => score
    end.

(** ** [renderEvaluationView] *)

(** The values that [renderEvaluationView] computes from [data] and
    interpolates into its HTML template.  The template text, the escaped
    [summary] and [reasoning] and the markup of the metric extras are not
    modelled; the conversions made for them are, as far as they can
    throw. *)
Record metric_row : Type := MetricRow {
  row_key : jsstring;
  row_label : jsstring;
  row_score : value;
  row_scoreClass : jsstring;
  row_scoreStyle : option number;
  row_text : value
}.

Record evaluation_view : Type := EvaluationView {
  overallScore : value;
  overallPass : value;
  flags : value;
  metricRows : list metric_row
}.

Definition reserved_keys : list jsstring :=
  [ str "overall_score"; str "overall_pass"; str "summary"; str "flags" ].

Definition not_reserved (e : jsstring * value) : bool :=
  negb (existsb (JsString.eqb (fst e)) reserved_keys).

(** [v.score] where [v] has passed the tests before it in the [&&] chain,
    so that the read cannot throw. *)
Definition has_score (v : value) : bool :=
  match get v (str "score") with
  | Ret x => negb (is_undefined x)
  | Throw _ => false
  end.

Definition is_metric (e : jsstring * value) : bool :=
  truthy (snd e)
  && type_name_eqb (typeof (snd e)) Tobject
  && negb (Array_isArray (snd e))
  && has_score (snd e).

Definition metric_row_of (e : jsstring * value) : metric_row :=
  let score := normalizeScoreValue (get_opt (snd e) (str "score")) in
  MetricRow (fst e) (formatLabel (fst e)) score
    (getScoreClass score) (getScoreStyle score) (formatScore score).

(** [Array.prototype.map] with a callback that may throw. *)
Fixpoint map_outcome {A B} (f : A -> outcome B) (l : list A) : outcome (list B) :=
  match l with
  | [] => Ret []
  | x :: rest =>
      y <- f x ;;
      ys <- map_outcome f rest ;;
      Ret (y :: ys)
  end.

(** The callback of [value.misclassified_runs.map] in
    [renderMetricExtras]: four fields of [run] are read and converted. *)
Definition misclassified_run (run : value) : outcome unit :=
  run_id <- get run (str "run_id") ;;
  _ <- ToString (nullish_or run_id (VString [])) ;;
  claimed <- get run (str "claimed") ;;
  _ <- ToString (nullish_or claimed (VString [])) ;;
  actual <- get run (str "actual") ;;
  _ <- ToString (nullish_or actual (VString [])) ;;
  reasoning <- get run (str "reasoning") ;;
  ToString (nullish_or reasoning (VString [])).

(** [renderMetricExtras(value)], as far as its completion goes: each of
    the two lists is gone through when it is a non-empty array. *)
Definition renderMetricExtras (v : value) : outcome unit :=
  misclassified_runs <- get v (str "misclassified_runs") ;;
  _ <- (match misclassified_runs with
        | VArray (run :: runs) => map_outcome misclassified_run (run :: runs)
        | _ => Ret []
        end) ;;
  fake_passes_detected <- get v (str "fake_passes_detected") ;;
  _ <- (match fake_passes_detected with
        | VArray (item :: items) => map_outcome ToString (item :: items)
        | _ => Ret []
        end) ;;
  Ret tt.

(** The callback of [.map] over the metric entries: the conversion of
    [value.reasoning] and [renderMetricExtras] may throw; the values that
    go into the card are those of [metric_row_of]. *)
Definition metric_card_of (e : jsstring * value) : outcome metric_row :=
  reasoning <- get (snd e) (str "reasoning") ;;
  _ <- (if truthy reasoning then ToString reasoning else Ret tt) ;;
  _ <- renderMetricExtras (snd e) ;;
  Ret (metric_row_of e).

Definition renderEvaluationView (data rawResponse : value) : outcome evaluation_view :=
  overall_score <- get data (str "overall_score") ;;
  overall_pass <- get data (str "overall_pass") ;;
  summary <- get data (str "summary") ;;
  _ <- (if truthy summary then ToString summary else Ret tt) ;;
  flags_field <- get data (str "flags") ;;
  let flags := if Array_isArray flags_field then flags_field else VArray [] in
  entries <- Object_entries data ;;
  rows <- map_outcome metric_card_of (filter is_metric (filter not_reserved entries)) ;;
  _ <- (match flags with
        | VArray (flag :: rest) => map_outcome ToString (flag :: rest)
        | _ => Ret []
        end) ;;
  _ <- (if truthy rawResponse then ToString rawResponse else Ret tt) ;;
  Ret (EvaluationView
         (normalizeScoreValue overall_score)
         (if type_name_eqb (typeof overall_pass) Tboolean then overall_pass else VNull)
         flags
         rows).

(** ** Score cells of [renderScoreSummary] and [handleDownloadCsv] *)

Record score_card : Type := ScoreCard {
  card_class : jsstring;
  card_style : option number;
  card_text : value
}.

(** The callback of [DIMENSION_ORDER.map] in [renderScoreSummary]. *)
Definition score_card_of (results : value) (name : jsstring) : outcome score_card :=
  result <- get results name ;;
  response <- (if truthy result then
                 r <- get result (str "response") ;; Ret (or_else r result)
               else Ret VNull) ;;
  score <- extractScore response ;;
  Ret (ScoreCard (getScoreClass score) (getScoreStyle score) (formatScore score)).

Definition renderScoreSummary (results : value) : outcome (list score_card) :=
  map_outcome (score_card_of results) DIMENSION_ORDER.

(** [displayResults(data)] as far as the score summary goes. *)
Definition displayResults (data : value) : outcome (list score_card) :=
  evaluation_results <- get data (str "evaluation_results") ;;
  renderScoreSummary (or_else evaluation_results (VObject [])).

(** The callback of [DIMENSION_ORDER.map] in [handleDownloadCsv]. *)
Definition csv_score_cell (currentResults : value) (dim : jsstring) : outcome value :=
  evaluation_results <- get currentResults (str "evaluation_results") ;;
  let result := get_opt evaluation_results dim in
  score <- extractScore
             (or_else (or_else (get_opt result (str "response")) result)
                (VString [])) ;;
  Ret (formatScore score).

(** The dimension cells of the CSV row built by [handleDownloadCsv], or
    [None] when it returns at once because [currentResults] is unset. *)
Definition handleDownloadCsv (currentResults : value) : outcome (option (list value)) :=
  if negb (truthy currentResults) then Ret None
  else
    cells <- map_outcome (csv_score_cell currentResults) DIMENSION_ORDER ;;
    Ret (Some cells).

(** ** Dimension cards of [renderDimensionResults] *)

(** What [renderDimensionResults] computes for one dimension: the score
    shown in the card header, and the structured view of the response
    ([None] when [parseResponseJSON] yields nothing and the raw text is
    shown instead). *)
Record dimension_card : Type := DimensionCard {
  dim_header : score_card;
  dim_view : option evaluation_view
}.

(* ================================================================= *)
(** * Vocabulary of the specification *)

(** CanonicalScore of the specification, and the JavaScript value that
    the program uses for each case. *)
Inductive CanonicalScore : Type :=
| Unknown
| Verdict (pass : bool)
| Numeric (v : number).

Definition score_value (c : CanonicalScore) : value :=
  match c with
  | Unknown => VNull
  | Verdict true => PASS
  | Verdict false => FAIL
  | Numeric v => VNumber v
  end.

(** "The entire string parses as a floating-point number": an optional
    sign and a decimal literal (or [Infinity]) with no text left over. *)
Definition whole_number (s : jsstring) : bool :=
  let body := match s with
              | c :: s' => if (c =? 45)%N || (c =? 43)%N then s' else s
              | [] => s
              end in
  JsString.eqb body (str "Infinity")
  || match unsigned_decimal_prefix body with
     | Some (_, _, []) => true
     | _ => false
     end.

(** The text begins with a numeral: after leading white space and an
    optional sign comes a digit, a point followed by a digit, or the word
    [Infinity]. *)
Definition starts_numeral (s : jsstring) : bool :=
  let body := match trim_start s with
              | c :: s' => if (c =? 45)%N || (c =? 43)%N then s' else c :: s'
              | [] => []
              end in
  starts_with (str "Infinity") body
  || match body with
     | c :: rest =>
         is_digit c
         || (c =? 46)%N && match rest with d :: _ => is_digit d | [] => false end
     | [] => false
     end.

(** A numeral with exactly one decimal place: an optional minus sign, one
    or more digits, a point, one digit. *)
Definition one_decimal_form (s : jsstring) : bool :=
  let body := match s with
              | c :: s' => if (c =? 45)%N then s' else s
              | [] => s
              end in
  let (ip, rest) := span_digits body in
  match ip, rest with
  | _ :: _, [p; d] => (p =? 46)%N && is_digit d
  | _, _ => false
  end.

(** [n / 10] is the multiple of a tenth nearest to [m * 2^e], the larger
    one when two are equally near:
    [n/10 - 1/20 <= m * 2^e < n/10 + 1/20]. *)
Definition nearest_tenth (m : positive) (e n : Z) : Prop :=
  ((2 * n - 1) * 2 ^ Z.max 0 (- e) <= 20 * Zpos m * 2 ^ Z.max 0 e
   < (2 * n + 1) * 2 ^ Z.max 0 (- e))%Z.

(** The digits of a label read as one number: for a numeral with one
    decimal place, its value in tenths. *)
Definition tenths_of (label : jsstring) : Z := digits_value (filter is_digit label).

(** [clamp(v, 0, 5)]: [0] up to zero, [5] from five on, [v] in between. *)
Definition clamp_0_5 (v : number) : number :=
  if SFleb v (of_Z 0) then of_Z 0
  else if SFleb (of_Z 5) v then of_Z 5
  else v.

(** Underscores replaced by spaces. *)
Definition spaced (key : jsstring) : jsstring :=
  map (fun c => if (c =? 95)%N then 32%N else c) key.

(** Each word capitalised: a letter that does not follow a letter, digit
    or underscore is put in upper case. *)
Fixpoint capitalized (after_word : bool) (s : jsstring) : jsstring :=
  match s with
  | [] => []
  | c :: s' =>
      (if is_word c && negb after_word then upper_cu c else c)
        :: capitalized (is_word c) s'
  end.

Definition title_case (s : jsstring) : jsstring := capitalized false s.



(* ================================================================= *)
(** * Sample inputs *)

Definition nl : jsstring := [10%N].

(** The fenced example of the specification: a block tagged [json] holding
    [{"overall_score": 4.2, "summary": "Good work", "flags": ["minor_issue"]}]. *)
Definition sample_fenced : jsstring :=
  str "```json" ++ nl ++ str "{" ++ quoted (str "overall_score") ++ str ": 4.2, "
    ++ quoted (str "summary") ++ str ": " ++ quoted (str "Good work") ++ str ", "
    ++ quoted (str "flags") ++ str ": [" ++ quoted (str "minor_issue") ++ str "]}"
    ++ nl ++ str "```".

Definition sample_fenced_decoded : value :=
  VObject [ (str "overall_score", VNumber (of_decimal false 42 (-1)));
            (str "summary", VString (str "Good work"));
            (str "flags", VArray [VString (str "minor_issue")]) ].

(** ["overall_score": "PaSs"] inside prose. *)
Definition sample_verdict_text : jsstring :=
  str "Verdict - " ++ quoted (str "Overall_Score") ++ str ": " ++ quoted (str "PaSs")
    ++ str " (see notes)".

(** [{"overall_score": 4}] as an already-decoded object. *)
Definition sample_object : value :=
  VObject [(str "overall_score", VNumber (of_Z 4))].

(** The text [{"summary": "```json oops ```", "overall_score": 4}]: valid
    JSON as a whole, with a fenced block whose contents are not JSON. *)
Definition sample_fence_in_json : jsstring :=
  str "{" ++ quoted (str "summary") ++ str ": "
    ++ quoted (str "```json oops ```") ++ str ", "
    ++ quoted (str "overall_score") ++ str ": 4}".

(** The broken fence of the specification: a fenced block holding
    [{"overall_score": }]. *)
Definition sample_broken_fence : jsstring :=
  str "```json" ++ nl ++ str "{" ++ quoted (str "overall_score") ++ str ": }"
    ++ nl ++ str "```".

(** [{"overall_score": 1e400}]: a JSON number beyond the binary64 range. *)
Definition sample_overflow : jsstring :=
  str "{" ++ quoted (str "overall_score") ++ str ": 1e400}".



(** An evaluation payload whose first dimension is an object without a
    [response] field, so that [result.response || result] is the object. *)
Definition sample_results_object : value :=
  VObject [ (str "evaluation_results",
             VObject [ (str "Prompt Quality", sample_object) ]) ].

(** An evaluation payload with one dimension answered in prose. *)
Definition sample_results : value :=
  VObject [ (str "task_id", VString (str "T-1"));
            (str "evaluation_results",
             VObject [ (str "Prompt Quality",
                        VObject [(str "response", VString (str "Score: 3.5 out of 5"))]) ]) ].

(** [{"overall_pass": true, "summary": {"toString": 1}, "flags": ["x"]}]:
    a summary that has no conversion to a string. *)
Definition sample_summary_object_text : jsstring :=
  str "{" ++ quoted (str "overall_pass") ++ str ": true, "
    ++ quoted (str "summary") ++ str ": {" ++ quoted (str "toString") ++ str ": 1}, "
    ++ quoted (str "flags") ++ str ": [" ++ quoted (str "x") ++ str "]}".

Definition sample_summary_object : value :=
  VObject [ (str "overall_pass", VBool true);
            (str "summary", VObject [(str "toString", VNumber (of_Z 1))]);
            (str "flags", VArray [VString (str "x")]) ].

(** [{"overall_score": 4, "tool_use": {"score": 3, "misclassified_runs":
    [null]}}]: a metric whose list of runs holds [null]. *)
Definition sample_null_run_text : jsstring :=
  str "{" ++ quoted (str "overall_score") ++ str ": 4, "
    ++ quoted (str "tool_use") ++ str ": {" ++ quoted (str "score") ++ str ": 3, "
    ++ quoted (str "misclassified_runs") ++ str ": [null]}}".



(* ================================================================= *)
(** * More of [app.js] and [admin.js] *)

(** ** Further string built-ins *)

(** [String.prototype.trim]: white space and line terminators removed
    from both ends. *)
Definition trim_end (s : jsstring) : jsstring := rev (trim_start (rev s)).
Definition trim (s : jsstring) : jsstring := trim_end (trim_start s).

(** [s.endsWith(d)]: [d] is no longer than [s] and the last [length d]
    code units of [s] are those of [d]. *)
Definition ends_with (s d : jsstring) : bool :=
  (List.length d <=? List.length s)%nat
  && JsString.eqb (skipn (List.length s - List.length d) s) d.

(** ** [escapeHtml] *)

(** The text-node escaping of the HTML fragment serialization algorithm,
    which [div.textContent = text; div.innerHTML] applies to [text]:
    ampersand, no-break space, less-than and greater-than become
    character references, every other code unit stays. *)
Definition escape_unit (c : code_unit) : jsstring :=
  if (c =? 38)%N then str "&amp;"
  else if (c =? 160)%N then str "&nbsp;"
  else if (c =? 60)%N then str "&lt;"
  else if (c =? 62)%N then str "&gt;"
  else [c].

Definition serialize_text (text : jsstring) : jsstring :=
  flat_map escape_unit text.

(** [/\n/g]. *)
Definition newline_re : RegExp := Re (RChar 10%N) false.

(** [escapeHtml] of [app.js]. *)
Definition escapeHtml (text : jsstring) : jsstring :=
  String_replace_all (serialize_text text) newline_re (fun _ => str "<br>").

(** ** [formatFlagType] *)

Definition formatFlagType (type : jsstring) : jsstring :=
  String_replace_all
    (String_replace_all type underscore_re (fun _ => str " "))
    word_start_re (fun c => toUpperCase c).

(** ** Reviewer email *)

(** [REVIEWER_EMAIL_DOMAIN]. *)
Definition REVIEWER_EMAIL_DOMAIN : jsstring := str "@turing.com".

Definition isValidReviewerEmail (value : jsstring) : bool :=
  if negb (truthy (VString value)) then false
  else ends_with (toLowerCase value) REVIEWER_EMAIL_DOMAIN.

(** The entry of [localStorage] under [REVIEWER_EMAIL_KEY]: [None] when
    there is none ([getItem] returns [null]).  Writes are taken to
    succeed. *)
Definition email_store : Type := option jsstring.

Definition loadReviewerEmail (store : email_store) : option jsstring :=
  match store with
  | Some saved => if truthy (VString saved) then Some (trim saved) else None
  | None => None
  end.

(** [getReviewerEmail], given the text of the [reviewer-email] input
    ([None] when the page has no such element); [None] stands for [null]. *)
Definition getReviewerEmail (input : option jsstring) (store : email_store)
  : option jsstring :=
  let inputValue := match input with Some v => trim v | None => [] end in
  if truthy (VString inputValue) then Some inputValue
  else loadReviewerEmail store.

(** What [persistReviewerEmail] leaves in [localStorage] (the input field
    and the buttons it then updates are not modelled). *)
Definition persistReviewerEmail (value : jsstring) (store : email_store)
  : email_store :=
  let normalized := trim value in
  Some normalized.

(** [handleSaveEmailClick] and [handleModalSaveEmail], given the text of
    the input they read: the store afterwards, and whether the error
    message was shown instead. *)
Definition handleSaveEmailClick (input : jsstring) (store : email_store)
  : email_store * bool :=
  let value := trim input in
  if negb (isValidReviewerEmail value) then (store, true)
  else (persistReviewerEmail value store, false).

(** ** [apiFetch] *)

(** The own enumerable properties that an object spread [...v] copies. *)
Definition spread (v : value) : list (jsstring * value) :=
  match v with
  | VObject props => own_entries props
  | VArray l => indexed (fun x => x) 0 l
  | VString s => indexed (fun c => VString [c]) 0 s
  | _ => []
  end.

(** The object built by defining the given properties in order. *)
Definition object_of (entries : list (jsstring * value)) : list (jsstring * value) :=
  fold_left (fun acc e => set_prop (fst e) (snd e) acc) entries [].

Definition ngrok_header : jsstring := str "ngrok-skip-browser-warning".

(** [apiFetch(url, options)]: the arguments it hands to [fetch]. *)
Definition apiFetch (url : value) (options : value) : outcome (value * value) :=
  let options := if is_undefined options then VObject [] else options in
  h <- get options (str "headers") ;;
  let headers :=
    set_prop ngrok_header (VString (str "1"))
      (object_of (spread (or_else h (VObject [])))) in
  Ret (url, VObject (set_prop (str "headers") (VObject headers)
                       (object_of (spread options)))).

(** ** [admin.js] *)

Module Admin.

(** [escapeHtml] of [admin.js]: the serialization alone. *)
Definition escapeHtml (text : jsstring) : jsstring := serialize_text text.

(** The property names that every object inherits from
    [Object.prototype]; reading one of them from a plain object yields a
    function (or, for [__proto__], the prototype), never [undefined]. *)
Definition object_prototype_names : list jsstring :=
  [ str "constructor"; str "__proto__"; str "hasOwnProperty";
    str "isPrototypeOf"; str "propertyIsEnumerable"; str "toLocaleString";
    str "toString"; str "valueOf"; str "__defineGetter__";
    str "__defineSetter__"; str "__lookupGetter__"; str "__lookupSetter__" ].

Definition inherited (k : jsstring) : bool :=
  existsb (JsString.eqb k) object_prototype_names.

(** [(item.reviewer_email || 'Unknown').trim() || 'Unknown'].  A truthy
    [reviewer_email] that is not a string has no [trim] to call. *)
Definition reviewer_of (item : value) : outcome jsstring :=
  email <- get item (str "reviewer_email") ;;
  match or_else email (VString (str "Unknown")) with
  | VString s =>
      let t := trim s in
      Ret (if truthy (VString t) then t else str "Unknown")
  | _ => Throw TypeError
  end.

(** The callback of [results.reduce] in [renderGroupedByReviewer]; [acc]
    holds the own properties of the accumulator object, each an array.
    A reviewer name that [Object.prototype] defines is found truthy on the
    fresh object and has no [push]. *)
Definition group_step (acc : list (jsstring * value)) (item : value)
  : outcome (list (jsstring * value)) :=
  reviewer <- reviewer_of item ;;
  match lookup reviewer acc with
  | Some (VArray items) => Ret (set_prop reviewer (VArray (items ++ [item])) acc)
  | Some _ => Throw TypeError
  | None =>
      if inherited reviewer then Throw TypeError
      else Ret (set_prop reviewer (VArray [item]) acc)
  end.

Fixpoint reduce_groups (acc : list (jsstring * value)) (results : list value)
  : outcome (list (jsstring * value)) :=
  match results with
  | [] => Ret acc
  | item :: rest =>
      acc' <- group_step acc item ;;
      reduce_groups acc' rest
  end.

(** [entry[1].length] for an entry whose value is an array. *)
Definition count_of (e : jsstring * value) : nat :=
  match snd e with VArray items => List.length items | _ => O end.

(** [Array.prototype.sort] with the comparator
    [(a, b) => b[1].length - a[1].length]: descending by count, entries of
    equal count in their previous order (the sort is stable). *)
Fixpoint insert_group (e : jsstring * value) (sorted : list (jsstring * value))
  : list (jsstring * value) :=
  match sorted with
  | [] => [e]
  | e' :: rest =>
      if (count_of e' <=? count_of e)%nat then e :: sorted
      else e' :: insert_group e rest
  end.

Fixpoint sort_groups (l : list (jsstring * value)) : list (jsstring * value) :=
  match l with
  | [] => []
  | e :: rest => insert_group e (sort_groups rest)
  end.

(** [formatDate(value)], as far as its completion goes: [new Date(value)]
    converts a truthy [value] to a primitive value, and nothing that is
    then done with the [Date] object throws. *)
Definition formatDate (v : value) : outcome unit :=
  if negb (truthy v) then Ret tt else ToPrimitive v.

(** The callback of [items.map]: the list item of one evaluation. *)
Definition task_item (item : value) : outcome unit :=
  task_id <- get item (str "task_id") ;;
  _ <- ToString (or_else task_id (VString (str "Unknown"))) ;;
  reviewed_at <- get item (str "reviewed_at") ;;
  formatDate reviewed_at.

(** The callback of [.map] over the sorted entries: the markup of one
    group is built from its items. *)
Definition group_markup (e : jsstring * value) : outcome unit :=
  match snd e with
  | VArray items => _ <- map_outcome task_item items ;; Ret tt
  | _ => Throw TypeError
  end.

(** The groups that [renderGroupedByReviewer] renders, in order: reviewer
    name and the array of that reviewer's evaluations.  The HTML built
    from them is not modelled (it needs [Date]); the conversions made for
    it are, as far as they can throw. *)
Definition renderGroupedByReviewer (results : list value)
  : outcome (list (jsstring * value)) :=
  grouped <- reduce_groups [] results ;;
  let groups := sort_groups (own_entries grouped) in
  _ <- map_outcome group_markup groups ;;
  Ret groups.

End Admin.

(** ** Reading escaped text back *)

(** The inverse of [escapeHtml]: the four character references and the
    [<br>] tag are read back as the code unit they stand for.  [fuel]
    bounds the number of code units produced. *)
Fixpoint unescape (fuel : nat) (s : jsstring) : jsstring :=
  match fuel with
  | O => []
  | S fuel' =>
      match s with
      | [] => []
      | c :: s' =>
          if starts_with (str "&amp;") s then 38%N :: unescape fuel' (skipn 5 s)
          else if starts_with (str "&nbsp;") s then 160%N :: unescape fuel' (skipn 6 s)
          else if starts_with (str "&lt;") s then 60%N :: unescape fuel' (skipn 4 s)
          else if starts_with (str "&gt;") s then 62%N :: unescape fuel' (skipn 4 s)
          else if starts_with (str "<br>") s then 10%N :: unescape fuel' (skipn 4 s)
          else c :: unescape fuel' s'
      end
  end.

Definition unescapeHtml (s : jsstring) : jsstring := unescape (List.length s) s.

(** Number of occurrences of a code unit. *)
Definition occurrences (c : code_unit) (s : jsstring) : nat :=
  List.length (filter (N.eqb c) s).

(** A code unit that [escapeHtml] leaves alone. *)
Definition plain_unit (c : code_unit) : bool :=
  negb ((c =? 38) || (c =? 160) || (c =? 60) || (c =? 62) || (c =? 10))%N.

(** What [escapeHtml] of [app.js] puts in place of one code unit. *)
Definition escape_app (c : code_unit) : jsstring :=
  if (c =? 10)%N then str "<br>" else escape_unit c.


(** ** Vocabulary for the reviewer groups *)

(** The evaluations listed under a group. *)
Definition group_items (e : jsstring * value) : list value :=
  match snd e with VArray items => items | _ => [] end.

(** [item] is an evaluation of reviewer [k]. *)
Definition reviewed_by (k : jsstring) (item : value) : bool :=
  match Admin.reviewer_of item with
  | Ret k' => JsString.eqb k' k
  | Throw _ => false
  end.

(** An evaluation that the grouping accepts: its reviewer name can be
    computed and is not a property name of [Object.prototype]. *)
Definition groupable (item : value) : bool :=
  match Admin.reviewer_of item with
  | Ret k => negb (Admin.inherited k)
  | Throw _ => false
  end.

(** An evaluation whose list item can be built: [task_id] (or the text
    put in its place) converts to a string and [reviewed_at], when
    truthy, to a primitive value. *)
Definition listable (item : value) : bool :=
  negb (no_primitive (or_else (get_opt item (str "task_id")) (VString (str "Unknown"))))
  && negb (truthy (get_opt item (str "reviewed_at"))
           && no_primitive (get_opt item (str "reviewed_at"))).

(** What the accumulator holds once [processed] has been reduced. *)
Definition grouped_as (processed : list value) (acc : list (jsstring * value)) : Prop :=
  NoDup (map fst acc)
  /\ (forall k v, In (k, v) acc ->
        v = VArray (filter (reviewed_by k) processed)
        /\ filter (reviewed_by k) processed <> []
        /\ Admin.inherited k = false /\ k <> [] /\ trim k = k)
  /\ Permutation (flat_map group_items acc) processed.


(** ** Vocabulary for the CSV row *)

(** A text that can stand between the double quotes of a CSV field as it
    is: it has no double quote. *)
Definition quote_free (s : jsstring) : bool :=
  forallb (fun c => negb (c =? 34)%N) s.


(** ** What a match of a pattern is *)

(** [matches ic r st st']: from matcher state [st] the pattern [r] can
    match a stretch of the text and leave the matcher in state [st'].
    This is the declarative reading of the pattern, against which the
    backtracking matcher [run] is checked. *)
Fixpoint matches (ic : bool) (r : regex) (st st' : mstate) : Prop :=
  match r with
  | REmpty => st' = st
  | RChar c =>
      exists x s',
        ms_rest st = x :: s'
        /\ N.eqb (canonicalize ic x) (canonicalize ic c) = true
        /\ st' = MState (S (ms_pos st)) (Some x) s' (ms_caps st)
  | RClass cls =>
      exists x s',
        ms_rest st = x :: s'
        /\ in_class cls x = true
        /\ st' = MState (S (ms_pos st)) (Some x) s' (ms_caps st)
  | RCat r1 r2 => exists mid, matches ic r1 st mid /\ matches ic r2 mid st'
  | RStar _ cls =>
      exists l s' prev',
        ms_rest st = l ++ s'
        /\ forallb (in_class cls) l = true
        /\ st' = MState (ms_pos st + List.length l) prev' s' (ms_caps st)
  | ROpt r' => matches ic r' st st' \/ st' = st
  | RGroup n r' =>
      exists st1,
        matches ic r' st st1
        /\ st' = MState (ms_pos st1) (ms_prev st1) (ms_rest st1)
                   ((n, (ms_pos st, ms_pos st1)) :: ms_caps st1)
  | RWordBoundary =>
      st' = st
      /\ xorb (word_at (ms_prev st)) (word_at (hd_error (ms_rest st))) = true
  end.

(** A pattern without capturing groups. *)
Fixpoint no_groups (r : regex) : bool :=
  match r with
  | RCat r1 r2 => no_groups r1 && no_groups r2
  | ROpt r' => no_groups r'
  | RGroup _ _ => false
  | _ => true
  end.

(** A value that is not the number NaN. *)
Definition not_nan_value (v : value) : bool :=
  match v with VNumber x => negb (isNaN x) | _ => true end.


(** ** [handleEvaluate], up to the request *)

(** What [handleEvaluate] does before it awaits the server. *)
Inductive evaluate_action : Type :=
| ShowTaskIdError
| OpenEmailModal
| SubmitTask (task_id reviewer_email : jsstring).

(** The synchronous part of [handleEvaluate], given the texts of the
    task-id and reviewer-email inputs: the content of [localStorage]
    afterwards and what happens next.  [SubmitTask] carries the [task_id]
    and [reviewer_email] of the request body. *)
Definition handleEvaluate (taskIdInput : jsstring) (emailInput : option jsstring)
  (store : email_store) : email_store * evaluate_action :=
  let taskId := trim taskIdInput in
  let reviewerEmail := getReviewerEmail emailInput store in
  if negb (truthy (VString taskId)) then (store, ShowTaskIdError)
  else
    match reviewerEmail with
    | None => (store, OpenEmailModal)
    | Some email =>
        if negb (truthy (VString email)) then (store, OpenEmailModal)
        else (persistReviewerEmail email store, SubmitTask taskId email)
    end.


(** ** [renderDimensionResults] *)

(** [Array.prototype.filter] with a callback that may throw. *)
Fixpoint filter_outcome {A} (p : A -> outcome bool) (l : list A) : outcome (list A) :=
  match l with
  | [] => Ret []
  | x :: rest =>
      b <- p x ;;
      ys <- filter_outcome p rest ;;
      Ret (if b then x :: ys else ys)
  end.

(** The callback of [.map] in [renderDimensionResults]: the dimension
    name and what is computed for its card. *)
Definition dimension_card_body (results : value) (name : jsstring)
  : outcome (jsstring * dimension_card) :=
  result <- get results name ;;
  r <- get result (str "response") ;;
  let response := or_else r result in
  score <- extractScore response ;;
  let parsed := parseResponseJSON response in
  content <- (if truthy parsed then
                view <- renderEvaluationView parsed response ;; Ret (Some view)
              else
                _ <- ToString (or_else response (VString [])) ;; Ret None) ;;
  Ret (name,
       DimensionCard
         (ScoreCard (getScoreClass score) (getScoreStyle score) (formatScore score))
         content).

(** [renderDimensionResults(results)]: the cards, in order, of the
    dimensions of [DIMENSION_ORDER] that [results] has. *)
Definition renderDimensionResults (results : value)
  : outcome (list (jsstring * dimension_card)) :=
  names <- filter_outcome (fun name => result <- get results name ;; Ret (truthy result))
             DIMENSION_ORDER ;;
  map_outcome (dimension_card_body results) names.

(** The summary card of a dimension without a result. *)
Definition not_applicable_card : score_card :=
  ScoreCard (str "score-na") None (VString (str "N/A")).

(* ================================================================= *)
(** * Properties *)

(** ** Values and property reads *)

Lemma get_truthy (v : value) (k : jsstring) :
  truthy v = true -> get v k = Ret (get_opt v k).
Proof.
  unfold get_opt; destruct v; simpl; try discriminate; intros _;
    repeat match goal with
           | |- context [if ?b then _ else _] => destruct b
           | |- context [match ?o with Some _ => _ | None => _ end] => destruct o
           end; reflexivity.
Qed.

Lemma get_opt_falsy (v : value) (k : jsstring) :
  truthy v = false -> truthy (get_opt v k) = false.
Proof.
  unfold get_opt; destruct v as [| | b | x | s | l | props]; simpl;
    try reflexivity; try discriminate.
  - destruct s as [|c s]; [|discriminate]. intros _.
    destruct (JsString.eqb k (str "length")); [reflexivity|].
    destruct (array_index k) as [i|]; [|reflexivity].
    destruct (N.to_nat i); reflexivity.
Qed.

Lemma or_else_truthy (a b : value) :
  truthy b = true -> truthy (or_else a b) = true.
Proof. unfold or_else; intros H; destruct (truthy a) eqn:E; assumption. Qed.

Lemma get_not_nullish (v : value) (k : list N) :
  is_null v || is_undefined v = false -> get v k = Ret (get_opt v k).
Proof.
  unfold get_opt. destruct v; cbn [is_null is_undefined orb get]; try discriminate;
    intros _;
    repeat match goal with
           | |- context [if ?b then _ else _] => destruct b
           | |- context [match ?o with Some _ => _ | None => _ end] => destruct o
           end; reflexivity.
Qed.

(** ** [normalizeScoreValue] *)

Lemma normalizeScoreValue_canonical (v : value) :
  exists c, normalizeScoreValue v = score_value c.
Proof.
  destruct v as [| | b | x | s | l | props]; simpl;
    try (exists Unknown; reflexivity).
  - exists (Numeric x); reflexivity.
  - unfold normalizeScoreValue; simpl.
    destruct (JsString.eqb _ (str "pass")); [exists (Verdict true); reflexivity|].
    destruct (JsString.eqb _ (str "fail")); [exists (Verdict false); reflexivity|].
    destruct (isNaN (parseFloat s)); simpl;
      [exists Unknown | exists (Numeric (parseFloat s))]; reflexivity.
Qed.

(** C10.  A value that is neither a number nor a string -- a boolean, an
    array, an object, and also null or undefined -- is normalized to
    Unknown, so that [normalizeScoreValue] answers with a canonical score
    on every JSON value. *)
Theorem normalizeScoreValue_other_types (v : value) :
  typeof v <> Tnumber -> typeof v <> Tstring ->
  normalizeScoreValue v = score_value Unknown
  /\ (forall b, normalizeScoreValue (VBool b) = score_value Unknown)
  /\ (forall elems, normalizeScoreValue (VArray elems) = score_value Unknown)
  /\ (forall props, normalizeScoreValue (VObject props) = score_value Unknown)
  /\ (forall w, exists c, normalizeScoreValue w = score_value c).
Proof.
  intros Hn Hs. split; [|repeat split; try reflexivity].
  - destruct v; simpl in *; try reflexivity; congruence.
  - apply normalizeScoreValue_canonical.
Qed.

Lemma normalizeScoreValue_other_types_witness :
  typeof (VBool true) <> Tnumber
  /\ typeof (VBool true) <> Tstring
  /\ normalizeScoreValue (VBool true) = score_value Unknown.
Proof.
  split; [discriminate|]. split; [discriminate|].
  apply (normalizeScoreValue_other_types (VBool true)); discriminate.
Defined.

(** ** [extractScore] *)

Lemma score_of_json_canonical (text : jsstring) (v : value) :
  score_of_json text = Some v -> exists c, v = score_value c.
Proof.
  unfold score_of_json, try_or_continue, bind.
  destruct (JSON.parse text) as [parsed|]; [|discriminate].
  destruct (get parsed (str "overall_score")) as [o|]; [|discriminate].
  destruct (is_undefined o); simpl.
  - destruct (get parsed (str "score")) as [sc|]; [|discriminate].
    destruct (is_undefined sc); simpl; [discriminate|].
    intros [= <-]. apply normalizeScoreValue_canonical.
  - intros [= <-]. apply normalizeScoreValue_canonical.
Qed.

(** On a string, and on a falsy argument such as [null], [extractScore]
    returns, and what it returns is a canonical score. *)
Lemma extractScore_string_canonical (s : jsstring) :
  exists c, extractScore_string s = score_value c.
Proof.
  unfold extractScore_string.
  destruct (match String_match s fence_re with
            | Some m => score_of_json (group m 1)
            | None => None
            end) as [v|] eqn:Ef.
  - destruct (String_match s fence_re); [|discriminate].
    eapply score_of_json_canonical; eassumption.
  - destruct (score_of_json s) as [v|] eqn:Ew.
    + eapply score_of_json_canonical; eassumption.
    + destruct (_ || _); [exists (Verdict true); reflexivity|].
      destruct (_ || _); [exists (Verdict false); reflexivity|].
      simpl.
      destruct (String_match s quoted_score_re);
        [eexists (Numeric _); reflexivity|].
      destruct (String_match s loose_score_re);
        [eexists (Numeric _); reflexivity|].
      exists Unknown; reflexivity.
Qed.

Lemma extractScore_total_on_text (s : jsstring) :
  exists c, extractScore (VString s) = Ret (score_value c).
Proof.
  unfold extractScore. destruct (truthy (VString s)); simpl.
  - destruct (extractScore_string_canonical s) as [c ->]. exists c; reflexivity.
  - exists Unknown; reflexivity.
Qed.

(** C1.  [extractScore] is not total on the inputs the specification
    allows: on every already-structured object it throws a TypeError at
    [response.match], where [parseResponseJSON] passes the same object
    through; [renderScoreSummary] hands it such an object when a result
    has no [response] field, and fails with it.  (On [null] and on every
    string it does return a canonical score, see
    [extractScore_total_on_text].) *)
Theorem extractScore_throws_on_object :
  (forall props, extractScore (VObject props) = Throw TypeError)
  /\ extractScore sample_object = Throw TypeError
  /\ parseResponseJSON sample_object = sample_object
  /\ displayResults sample_results_object = Throw TypeError
  /\ extractScore VNull = Ret (score_value Unknown).
Proof. repeat split. Qed.

(** C4.  A text with no parseable JSON, fenced or whole, none of the four
    pass/fail literals and no match of either numeric pattern is scored
    Unknown. *)
Theorem extractScore_exhausted (s : jsstring) :
  (forall m, String_match s fence_re = Some m ->
             JSON.parse (group m 1) = Throw SyntaxError) ->
  JSON.parse s = Throw SyntaxError ->
  includes (toLowerCase s) (verdict_literal true (str "pass")) = false ->
  includes (toLowerCase s) (verdict_literal false (str "pass")) = false ->
  includes (toLowerCase s) (verdict_literal true (str "fail")) = false ->
  includes (toLowerCase s) (verdict_literal false (str "fail")) = false ->
  String_match s quoted_score_re = None ->
  String_match s loose_score_re = None ->
  extractScore (VString s) = Ret (score_value Unknown).
Proof.
  intros Hfence Hwhole Hp1 Hp2 Hf1 Hf2 Hq Hl.
  unfold extractScore. destruct (truthy (VString s)); [|reflexivity]. simpl.
  unfold extractScore_string.
  assert (Hfenced : match String_match s fence_re with
                    | Some m => score_of_json (group m 1)
                    | None => None
                    end = None).
  { destruct (String_match s fence_re) as [m|] eqn:Em; [|reflexivity].
    unfold score_of_json. rewrite (Hfence m eq_refl). reflexivity. }
  rewrite Hfenced.
  unfold score_of_json at 1. rewrite Hwhole. simpl.
  rewrite Hp1, Hp2, Hf1, Hf2. simpl.
  rewrite Hq, Hl. reflexivity.
Qed.

Lemma extractScore_exhausted_witness :
  extractScore (VString sample_broken_fence) = Ret (score_value Unknown).
Proof.
  apply (extractScore_exhausted sample_broken_fence).
  - intros m Hm. vm_compute in Hm. injection Hm as <-. vm_compute. reflexivity.
  - vm_compute. reflexivity.
  - vm_compute. reflexivity.
  - vm_compute. reflexivity.
  - vm_compute. reflexivity.
  - vm_compute. reflexivity.
  - vm_compute. reflexivity.
  - vm_compute. reflexivity.
Defined.

(** ** [parseResponseJSON] *)

(** C3.  When a fenced block is found, [parseResponseJSON] parses only
    its contents: a failure there yields [null] without a second attempt
    on the whole string.  On a text that is valid JSON as a whole and has
    a fenced block with invalid contents the result is [null], although
    the whole text decodes and [extractScore] does fall back to it. *)
Theorem parseResponseJSON_no_fallback :
  (exists m, String_match sample_fence_in_json fence_re = Some m
             /\ group m 1 = str "oops"
             /\ JSON.parse (group m 1) = Throw SyntaxError)
  /\ JSON.parse sample_fence_in_json
     = Ret (VObject [ (str "summary", VString (str "```json oops ```"));
                      (str "overall_score", VNumber (of_Z 4)) ])
  /\ parseResponseJSON (VString sample_fence_in_json) = VNull
  /\ extractScore (VString sample_fence_in_json) = Ret (VNumber (of_Z 4)).
Proof.
  split; [eexists; split; [vm_compute; reflexivity|split; vm_compute; reflexivity]|].
  repeat split; vm_compute; reflexivity.
Qed.

(** What [parseResponseJSON] does on a string: the fenced contents when
    there is a fence, the whole text otherwise, and [null] when that one
    parse fails. *)
Lemma parseResponseJSON_string (s : jsstring) :
  s <> [] ->
  parseResponseJSON (VString s)
  = match JSON.parse (match String_match s fence_re with
                      | Some m => group m 1
                      | None => s
                      end) with
    | Ret v => v
    | Throw _ => VNull
    end.
Proof. destruct s; [congruence|reflexivity]. Qed.

(** ** Exceptions are TypeErrors *)

Lemma get_throws (v : value) (k : jsstring) (e : error) :
  get v k = Throw e -> e = TypeError.
Proof.
  destruct v; cbn [get]; try discriminate; try (intros [= <-]; reflexivity);
    repeat match goal with
           | |- context [if ?b then _ else _] => destruct b
           | |- context [match ?o with Some _ => _ | None => _ end] => destruct o
           end; discriminate.
Qed.

Lemma get_returns (v : value) (k : jsstring) (x : value) :
  get v k = Ret x -> x = get_opt v k.
Proof. unfold get_opt. intros ->. reflexivity. Qed.

Lemma ToString_throws (v : value) (e : error) : ToString v = Throw e -> e = TypeError.
Proof.
  unfold ToString, ToPrimitive. destruct (no_primitive v); [|discriminate].
  intros [= <-]. reflexivity.
Qed.

Lemma map_outcome_throws {A B} (f : A -> outcome B) (l : list A) (e : error) :
  (forall x e', f x = Throw e' -> e' = TypeError) ->
  map_outcome f l = Throw e -> e = TypeError.
Proof.
  intros Hf. induction l as [|x l IH]; cbn [map_outcome]; [discriminate|].
  destruct (f x) as [y|e'] eqn:Ex; cbn [bind].
  - destruct (map_outcome f l) as [ys|e']; cbn [bind]; [discriminate|].
    intros [= <-]. apply IH. reflexivity.
  - intros [= <-]. exact (Hf x e' Ex).
Qed.

Lemma map_outcome_returns {A B} (f : A -> outcome B) (g : A -> B) (l : list A)
  (ys : list B) :
  (forall x y, f x = Ret y -> y = g x) ->
  map_outcome f l = Ret ys -> ys = map g l.
Proof.
  intros Hf. revert ys. induction l as [|x l IH]; intros ys; cbn [map_outcome map].
  - intros [= <-]. reflexivity.
  - destruct (f x) as [y|e] eqn:Ex; cbn [bind]; [|discriminate].
    destruct (map_outcome f l) as [ys'|e]; cbn [bind]; [|discriminate].
    intros [= <-]. rewrite (Hf x y Ex), (IH ys' eq_refl). reflexivity.
Qed.

Lemma guarded_ToString_throws (b : bool) (v : value) (e : error) :
  (if b then ToString v else Ret tt) = Throw e -> e = TypeError.
Proof. destruct b; [apply ToString_throws|discriminate]. Qed.

Lemma Object_entries_throws (v : value) (e : error) :
  Object_entries v = Throw e -> e = TypeError.
Proof. destruct v; cbn [Object_entries]; try discriminate; intros [= <-]; reflexivity. Qed.

Lemma array_map_throws {B} (f : value -> outcome B) (v : value) (e : error) :
  (forall x e', f x = Throw e' -> e' = TypeError) ->
  match v with
  | VArray (x :: l) => map_outcome f (x :: l)
  | _ => Ret []
  end = Throw e ->
  e = TypeError.
Proof.
  intros Hf. destruct v as [| | | | |[|x l]|]; try discriminate.
  apply map_outcome_throws, Hf.
Qed.

Create HintDb throws.
#[local] Hint Resolve get_throws ToString_throws guarded_ToString_throws
  Object_entries_throws : throws.

(** Each step of a sequence either returns or throws a TypeError. *)
Ltac throws_only H :=
  repeat match type of H with
         | bind ?m _ = Throw _ =>
             let E := fresh "E" in
             destruct m eqn:E; cbn [bind] in H;
             [|injection H as <-; solve [eauto 3 with throws]]
         end;
  first [discriminate H | solve [eauto 3 with throws]].

Lemma misclassified_run_throws (run : value) (e : error) :
  misclassified_run run = Throw e -> e = TypeError.
Proof. unfold misclassified_run. intros H. throws_only H. Qed.

Lemma misclassified_runs_throw (v : value) (e : error) :
  match v with
  | VArray (run :: runs) => map_outcome misclassified_run (run :: runs)
  | _ => Ret []
  end = Throw e ->
  e = TypeError.
Proof. apply array_map_throws, misclassified_run_throws. Qed.

Lemma ToString_each_throws (v : value) (e : error) :
  match v with
  | VArray (item :: items) => map_outcome ToString (item :: items)
  | _ => Ret []
  end = Throw e ->
  e = TypeError.
Proof. apply array_map_throws, ToString_throws. Qed.

#[local] Hint Resolve misclassified_runs_throw ToString_each_throws : throws.

Lemma renderMetricExtras_throws (v : value) (e : error) :
  renderMetricExtras v = Throw e -> e = TypeError.
Proof. unfold renderMetricExtras. intros H. throws_only H. Qed.

#[local] Hint Resolve renderMetricExtras_throws : throws.

Lemma metric_card_of_throws (entry : jsstring * value) (e : error) :
  metric_card_of entry = Throw e -> e = TypeError.
Proof. unfold metric_card_of. intros H. throws_only H. Qed.

Lemma metric_cards_throw (l : list (jsstring * value)) (e : error) :
  map_outcome metric_card_of l = Throw e -> e = TypeError.
Proof. apply map_outcome_throws, metric_card_of_throws. Qed.

#[local] Hint Resolve metric_cards_throw : throws.

Lemma metric_card_of_returns (entry : jsstring * value) (row : metric_row) :
  metric_card_of entry = Ret row -> row = metric_row_of entry.
Proof.
  unfold metric_card_of.
  destruct (get (snd entry) (str "reasoning")) as [v|e]; cbn [bind]; [|discriminate].
  destruct (if truthy v then ToString v else Ret tt); cbn [bind]; [|discriminate].
  destruct (renderMetricExtras (snd entry)); cbn [bind]; [|discriminate].
  intros [= <-]. reflexivity.
Qed.

(** ** [renderEvaluationView]: what a view holds *)

(** Whenever [renderEvaluationView] builds a view, its fields are read
    off [data] as follows. *)
Lemma renderEvaluationView_view (data rawResponse : value) (view : evaluation_view) :
  renderEvaluationView data rawResponse = Ret view ->
  exists entries,
    Object_entries data = Ret entries
    /\ view
       = EvaluationView
           (normalizeScoreValue (get_opt data (str "overall_score")))
           (if type_name_eqb (typeof (get_opt data (str "overall_pass"))) Tboolean
            then get_opt data (str "overall_pass") else VNull)
           (if Array_isArray (get_opt data (str "flags"))
            then get_opt data (str "flags") else VArray [])
           (map metric_row_of (filter is_metric (filter not_reserved entries))).
Proof.
  unfold renderEvaluationView.
  destruct (get data (str "overall_score")) as [o|e] eqn:Eo; cbn [bind]; [|discriminate].
  destruct (get data (str "overall_pass")) as [p|e] eqn:Ep; cbn [bind]; [|discriminate].
  destruct (get data (str "summary")) as [sm|e]; cbn [bind]; [|discriminate].
  destruct (if truthy sm then ToString sm else Ret tt); cbn [bind]; [|discriminate].
  destruct (get data (str "flags")) as [f|e] eqn:Ef; cbn [bind]; [|discriminate].
  destruct (Object_entries data) as [entries|e]; cbn [bind]; [|discriminate].
  destruct (map_outcome metric_card_of _) as [rows|e] eqn:Er; cbn [bind]; [|discriminate].
  destruct (match (if Array_isArray f then f else VArray []) with
            | VArray (flag :: rest) => map_outcome ToString (flag :: rest)
            | _ => Ret []
            end); cbn [bind]; [|discriminate].
  destruct (if truthy rawResponse then ToString rawResponse else Ret tt);
    cbn [bind]; [|discriminate].
  intros [= <-]. exists entries. split; [reflexivity|].
  rewrite (get_returns _ _ _ Eo), (get_returns _ _ _ Ep), (get_returns _ _ _ Ef).
  rewrite (map_outcome_returns _ metric_row_of _ _ metric_card_of_returns Er).
  reflexivity.
Qed.

Lemma renderEvaluationView_throws (data rawResponse : value) (e : error) :
  renderEvaluationView data rawResponse = Throw e -> e = TypeError.
Proof. unfold renderEvaluationView. intros H. throws_only H. Qed.

(** ** [renderEvaluationView]: top-level fields *)

(** C6.  Whenever the view of a decoded object is built, [overall_pass]
    is kept exactly when it is a boolean and is [null] otherwise, and
    [flags] is kept exactly when it is an array and is the empty array
    otherwise. *)
Theorem renderEvaluationView_pass_and_flags (data rawResponse : value)
  (view : evaluation_view) :
  renderEvaluationView data rawResponse = Ret view ->
  overallPass view
  = match get_opt data (str "overall_pass") with
    | VBool b => VBool b
    | _ => VNull
    end
  /\ flags view
     = match get_opt data (str "flags") with
       | VArray elems => VArray elems
       | _ => VArray []
       end.
Proof.
  intros H. destruct (renderEvaluationView_view _ _ _ H) as (entries & _ & ->).
  cbn [overallPass flags]. split.
  - destruct (get_opt data (str "overall_pass")); reflexivity.
  - destruct (get_opt data (str "flags")); reflexivity.
Qed.

Lemma renderEvaluationView_pass_and_flags_witness :
  (exists view,
     renderEvaluationView
       (VObject [(str "overall_pass", VBool false);
                 (str "summary", VString (str "two runs fail"));
                 (str "flags", VArray [VString (str "flaky")])])
       VNull
     = Ret view
     /\ overallPass view = VBool false
     /\ flags view = VArray [VString (str "flaky")])
  /\ (exists view,
        renderEvaluationView
          (VObject [(str "overall_pass", VString (str "true")); (str "flags", VNull)])
          VNull
        = Ret view
        /\ overallPass view = VNull
        /\ flags view = VArray []).
Proof.
  split.
  - eexists. split; [reflexivity|].
    exact (renderEvaluationView_pass_and_flags
             (VObject [(str "overall_pass", VBool false);
                       (str "summary", VString (str "two runs fail"));
                       (str "flags", VArray [VString (str "flaky")])])
             VNull _ eq_refl).
  - eexists. split; [reflexivity|].
    exact (renderEvaluationView_pass_and_flags
             (VObject [(str "overall_pass", VString (str "true")); (str "flags", VNull)])
             VNull _ eq_refl).
Defined.

(** C6, as stated, fails on the decoded object
    [{"overall_pass": true, "summary": {"toString": 1}, "flags": ["x"]}]:
    [String(data.summary)] throws, and neither field is kept. *)
Lemma renderEvaluationView_throws_on_summary :
  parseResponseJSON (VString sample_summary_object_text) = sample_summary_object
  /\ get_opt sample_summary_object (str "overall_pass") = VBool true
  /\ get_opt sample_summary_object (str "flags") = VArray [VString (str "x")]
  /\ renderEvaluationView sample_summary_object (VString sample_summary_object_text)
     = Throw TypeError.
Proof. repeat split; vm_compute; reflexivity. Qed.

(** ** CSV export against the summary cards *)

(** The response that [renderScoreSummary] and [handleDownloadCsv] hand to
    [extractScore] may differ ([null] against the empty string) only
    where [extractScore] answers [null] for both. *)
Lemma score_responses_agree (result_card result_csv : value) :
  result_card = result_csv
  \/ (truthy result_card = false /\ truthy result_csv = false) ->
  (response <- (if truthy result_card then
                  r <- get result_card (str "response") ;; Ret (or_else r result_card)
                else Ret VNull) ;;
   extractScore response)
  = extractScore
      (or_else (or_else (get_opt result_csv (str "response")) result_csv)
         (VString [])).
Proof.
  intros [<- | [Hc Hv]].
  - destruct (truthy result_card) eqn:Ht.
    + rewrite (get_truthy _ _ Ht). simpl.
      set (x := or_else (get_opt result_card (str "response")) result_card).
      assert (Hx : truthy x = true) by (apply or_else_truthy; assumption).
      unfold or_else. rewrite Hx. reflexivity.
    + simpl. unfold or_else.
      rewrite (get_opt_falsy _ (str "response") Ht), Ht. reflexivity.
  - rewrite Hc. simpl. unfold or_else.
    rewrite (get_opt_falsy _ (str "response") Hv), Hv. reflexivity.
Qed.

Lemma csv_cell_is_card_text (data : value) (dim : jsstring) :
  truthy data = true ->
  csv_score_cell data dim
  = (evaluation_results <- get data (str "evaluation_results") ;;
     card <- score_card_of (or_else evaluation_results (VObject [])) dim ;;
     Ret (card_text card)).
Proof.
  intros Ht. unfold csv_score_cell, score_card_of.
  rewrite (get_truthy _ _ Ht). simpl.
  set (er := get_opt data (str "evaluation_results")).
  assert (Hres : exists result_card,
             get (or_else er (VObject [])) dim = Ret result_card
             /\ (result_card = get_opt er dim
                 \/ (truthy result_card = false /\ truthy (get_opt er dim) = false))).
  { unfold or_else. destruct (truthy er) eqn:He.
    - exists (get_opt er dim). split; [apply get_truthy; assumption|left; reflexivity].
    - exists VUndefined. split; [reflexivity|].
      right. split; [reflexivity|apply get_opt_falsy; assumption]. }
  destruct Hres as [result_card [-> Hrel]]. simpl.
  rewrite <- (score_responses_agree _ _ Hrel).
  destruct (truthy result_card); simpl.
  - destruct (get result_card (str "response")); simpl; [|reflexivity].
    destruct (extractScore _); reflexivity.
  - reflexivity.
Qed.

Lemma map_outcome_ext {A B} (f g : A -> outcome B) (l : list A) :
  (forall x, f x = g x) -> map_outcome f l = map_outcome g l.
Proof. intros H. induction l as [|x l IH]; simpl; [reflexivity|]. rewrite H, IH. reflexivity. Qed.

Lemma map_outcome_map {A B C} (f : A -> outcome B) (g : B -> C) (l : list A) :
  map_outcome (fun x => y <- f x ;; Ret (g y)) l
  = (ys <- map_outcome f l ;; Ret (map g ys)).
Proof.
  induction l as [|x l IH]; simpl; [reflexivity|].
  destruct (f x); simpl; [|reflexivity].
  rewrite IH. destruct (map_outcome f l); reflexivity.
Qed.

(** C9.  For every evaluation payload and dimension, the score cell of
    the CSV row is the text of that dimension's summary card: both are
    [formatScore (extractScore response)] on responses that
    [extractScore] does not tell apart.  When one of the two throws, so
    does the other. *)
Theorem csv_scores_match_summary_cards (data : value) :
  truthy data = true ->
  (forall dim,
     csv_score_cell data dim
     = (evaluation_results <- get data (str "evaluation_results") ;;
        card <- score_card_of (or_else evaluation_results (VObject [])) dim ;;
        Ret (card_text card)))
  /\ handleDownloadCsv data
     = (cards <- displayResults data ;; Ret (Some (map card_text cards))).
Proof.
  intros Ht. split; [intros dim; apply csv_cell_is_card_text; assumption|].
  unfold handleDownloadCsv, displayResults, renderScoreSummary.
  rewrite Ht. cbn [negb]. generalize DIMENSION_ORDER as dims. intros dims.
  rewrite (map_outcome_ext _ _ dims
             (fun dim => csv_cell_is_card_text data dim Ht)).
  rewrite (get_truthy _ _ Ht). cbn [bind].
  rewrite map_outcome_map.
  destruct (map_outcome _ dims); reflexivity.
Qed.

Lemma csv_scores_match_summary_cards_witness :
  truthy sample_results = true
  /\ handleDownloadCsv sample_results
     = (cards <- displayResults sample_results ;; Ret (Some (map card_text cards))).
Proof.
  split; [reflexivity|].
  apply (csv_scores_match_summary_cards sample_results). reflexivity.
Defined.

(** ** Numbers: conversions never produce NaN *)

Lemma shr_1_nonneg (mrs : shr_record) :
  (0 <= shr_m mrs)%Z -> (0 <= shr_m (shr_1 mrs))%Z.
Proof.
  destruct mrs as [m r s]; simpl.
  destruct m as [|p|p]; simpl; try lia; destruct p; simpl; lia.
Qed.

Lemma iter_shr_1_nonneg (p : positive) (mrs : shr_record) :
  (0 <= shr_m mrs)%Z -> (0 <= shr_m (iter_pos shr_1 p mrs))%Z.
Proof.
  revert mrs; induction p as [p IH|p IH|]; intros mrs H; simpl.
  - apply IH, IH, shr_1_nonneg, H.
  - apply IH, IH, H.
  - apply shr_1_nonneg, H.
Qed.

Lemma shr_fexp_nonneg (m e : Z) (l : location) :
  (0 <= m)%Z -> (0 <= shr_m (fst (shr_fexp prec emax m e l)))%Z.
Proof.
  intros H. unfold shr_fexp, shr.
  assert (H0 : (0 <= shr_m (shr_record_of_loc m l))%Z).
  { destruct l as [|[ | | ]]; simpl; assumption. }
  destruct (_ - e)%Z; simpl; try assumption.
  apply iter_shr_1_nonneg; assumption.
Qed.

Lemma binary_round_aux_not_nan (sx : bool) (mx ex : Z) (lx : location) :
  (0 <= mx)%Z -> isNaN (binary_round_aux prec emax sx mx ex lx) = false.
Proof.
  intros H. unfold binary_round_aux.
  pose proof (shr_fexp_nonneg mx ex lx H) as H1.
  destruct (shr_fexp prec emax mx ex lx) as [mrs' e']. simpl in H1.
  assert (H2 : (0 <= round_nearest_even (shr_m mrs') (loc_of_shr_record mrs'))%Z).
  { unfold round_nearest_even.
    destruct (loc_of_shr_record mrs') as [|[ | | ]]; try lia.
    destruct (Z.even (shr_m mrs')); lia. }
  pose proof (shr_fexp_nonneg _ e' loc_Exact H2) as H3.
  destruct (shr_fexp prec emax _ e' loc_Exact) as [mrs'' e'']. simpl in H3.
  destruct (shr_m mrs''); try lia; [reflexivity|].
  destruct (e'' <=? _)%Z; reflexivity.
Qed.

Lemma binary_normalize_not_nan (m e : Z) (sz : bool) :
  isNaN (binary_normalize prec emax m e sz) = false.
Proof.
  destruct m as [|p|p]; simpl; [reflexivity| |];
    unfold binary_round; destruct (shl_align _ _ _);
    apply binary_round_aux_not_nan; lia.
Qed.

Lemma of_decimal_not_nan (neg : bool) (m e10 : Z) :
  (0 <= m)%Z -> isNaN (of_decimal neg m e10) = false.
Proof.
  intros H. unfold of_decimal.
  destruct (m =? 0)%Z; [reflexivity|].
  destruct (0 <=? e10)%Z eqn:Ee; [apply binary_normalize_not_nan|].
  apply Z.leb_gt in Ee.
  unfold SFdiv_core_binary.
  set (s := (_ - _ - _)%Z).
  set (m' := match s with Z0 => m | Zpos _ => Z.shiftl m s | Zneg _ => 0%Z end).
  assert (Hm' : (0 <= m')%Z).
  { subst m'. destruct s; try lia. apply Z.shiftl_nonneg; assumption. }
  assert (Hpow : (0 < 10 ^ (- e10))%Z) by (apply Z.pow_pos_nonneg; lia).
  pose proof (Z.div_pos m' (10 ^ (- e10)) Hm' Hpow) as Hq.
  unfold Z.div in Hq.
  destruct (Z.div_eucl m' (10 ^ (- e10))) as [q r]. simpl in Hq.
  apply binary_round_aux_not_nan; assumption.
Qed.

(** ** Digit strings *)

Lemma span_digits_spec (s : jsstring) :
  forallb is_digit (fst (span_digits s)) = true
  /\ s = fst (span_digits s) ++ snd (span_digits s)
  /\ match snd (span_digits s) with c :: _ => is_digit c = false | [] => True end.
Proof.
  induction s as [|c s IH]; simpl; [auto|].
  destruct (is_digit c) eqn:Ec.
  - destruct (span_digits s) as [d r]; simpl in *.
    destruct IH as [H1 [H2 H3]]. rewrite Ec, H1. repeat split; [congruence|exact H3].
  - simpl. auto.
Qed.

Lemma digits_fold_nonneg (ds : jsstring) (acc : Z) :
  forallb is_digit ds = true -> (0 <= acc)%Z ->
  (0 <= fold_left (fun a d => (10 * a + (Z.of_N d - 48))%Z) ds acc)%Z.
Proof.
  revert acc; induction ds as [|d ds IH]; intros acc Hd Ha; cbn [fold_left];
    [assumption|].
  simpl in Hd. apply andb_prop in Hd as [Hd1 Hd2].
  apply IH; [assumption|].
  unfold is_digit in Hd1. apply andb_prop in Hd1 as [Hlo _].
  apply N.leb_le in Hlo. lia.
Qed.

Lemma digits_value_nonneg (ds : jsstring) :
  forallb is_digit ds = true -> (0 <= digits_value ds)%Z.
Proof. intros H. apply digits_fold_nonneg; [assumption|lia]. Qed.

Lemma span_digits_head (c : code_unit) (s : jsstring) :
  (is_digit c = true -> exists d r, span_digits (c :: s) = (c :: d, r))
  /\ (is_digit c = false -> span_digits (c :: s) = ([], c :: s)).
Proof.
  simpl. destruct (is_digit c); split; intros H; try discriminate.
  - destruct (span_digits s) as [d r]. eauto.
  - reflexivity.
Qed.

(** ** [parseFloat] *)

Lemma unsigned_decimal_prefix_nonneg (s : jsstring) (m e : Z) (rest : jsstring) :
  unsigned_decimal_prefix s = Some (m, e, rest) -> (0 <= m)%Z.
Proof.
  unfold unsigned_decimal_prefix.
  pose proof (span_digits_spec s) as [Hip _].
  destruct (span_digits s) as [ip s1]. simpl in Hip.
  destruct s1 as [|c s2].
  - destruct ip; [discriminate|]. intros [= <- _ _].
    apply digits_value_nonneg; assumption.
  - destruct (c =? 46)%N.
    + pose proof (span_digits_spec s2) as [Hfp _].
      destruct (span_digits s2) as [fp s3]. simpl in Hfp.
      assert (Hall : forallb is_digit (ip ++ fp) = true)
        by (rewrite forallb_app, Hip, Hfp; reflexivity).
      destruct ip, fp; try discriminate;
        destruct (exponent_part s3); intros [= <- _ _];
        apply digits_value_nonneg; assumption.
    + destruct ip; [discriminate|].
      destruct (exponent_part (c :: s2)). intros [= <- _ _].
      apply digits_value_nonneg; assumption.
Qed.

Lemma unsigned_decimal_prefix_none (s : jsstring) :
  unsigned_decimal_prefix s = None
  <-> match s with
      | c :: rest =>
          is_digit c
          || (c =? 46)%N && match rest with d :: _ => is_digit d | [] => false end
      | [] => false
      end = false.
Proof.
  destruct s as [|c rest]; [simpl; tauto|].
  unfold unsigned_decimal_prefix.
  destruct (span_digits_head c rest) as [Hd Hn].
  destruct (is_digit c) eqn:Ec.
  - destruct (Hd eq_refl) as [d [r ->]]. simpl.
    split; [|discriminate].
    destruct r as [|c' r']; [discriminate|].
    destruct (c' =? 46)%N.
    + destruct (span_digits r'). destruct (exponent_part _). discriminate.
    + destruct (exponent_part _). discriminate.
  - rewrite (Hn eq_refl). simpl.
    destruct (c =? 46)%N; simpl; [|tauto].
    destruct rest as [|d rest']; [simpl; tauto|].
    destruct (span_digits_head d rest') as [Hd' Hn'].
    destruct (is_digit d) eqn:Ed.
    + destruct (Hd' eq_refl) as [fp [r ->]].
      destruct (exponent_part r). split; discriminate.
    + rewrite (Hn' eq_refl). tauto.
Qed.

Lemma unsigned_prefix_value_nan (neg : bool) (body : jsstring) :
  isNaN (unsigned_prefix_value neg body)
  = negb (starts_with (str "Infinity") body
          || match body with
             | c :: rest =>
                 is_digit c
                 || (c =? 46)%N && match rest with d :: _ => is_digit d | [] => false end
             | [] => false
             end).
Proof.
  unfold unsigned_prefix_value.
  destruct (starts_with (str "Infinity") body); [reflexivity|].
  rewrite orb_false_l.
  destruct (unsigned_decimal_prefix body) as [[[m e] rest]|] eqn:E.
  - rewrite (of_decimal_not_nan neg m e (unsigned_decimal_prefix_nonneg _ _ _ _ E)).
    destruct (match body with [] => false | _ => _ end) eqn:Eb; [reflexivity|].
    apply unsigned_decimal_prefix_none in Eb. congruence.
  - apply unsigned_decimal_prefix_none in E. rewrite E. reflexivity.
Qed.

(** [parseFloat] answers NaN exactly on the texts that do not begin with
    a numeral. *)
Lemma parseFloat_nan (s : jsstring) :
  isNaN (parseFloat s) = negb (starts_numeral s).
Proof.
  unfold parseFloat, starts_numeral.
  destruct (trim_start s) as [|c s']; [reflexivity|].
  destruct (c =? 45)%N; simpl; [apply unsigned_prefix_value_nan|].
  destruct (c =? 43)%N; simpl; apply unsigned_prefix_value_nan.
Qed.

(** C2.  For a string that is not "pass" or "fail" in any letter case,
    the result is Numeric exactly when the text begins with a numeral
    (after leading white space and an optional sign: a digit, a point
    followed by a digit, or [Infinity]); the value is that of the longest
    numeric prefix, as [parseFloat] reads it, and whatever follows the
    numeral is ignored.  A text that does not begin with a numeral yields
    Unknown. *)
Theorem normalizeScoreValue_string (s : jsstring) :
  JsString.eqb (toLowerCase s) (str "pass") = false ->
  JsString.eqb (toLowerCase s) (str "fail") = false ->
  (starts_numeral s = true ->
     normalizeScoreValue (VString s) = score_value (Numeric (parseFloat s))
     /\ isNaN (parseFloat s) = false)
  /\ (starts_numeral s = false ->
        normalizeScoreValue (VString s) = score_value Unknown)
  /\ ((exists v, normalizeScoreValue (VString s) = score_value (Numeric v))
      <-> starts_numeral s = true).
Proof.
  intros Hp Hf.
  assert (E : normalizeScoreValue (VString s)
              = if starts_numeral s then VNumber (parseFloat s) else VNull).
  { unfold normalizeScoreValue. simpl. rewrite Hp, Hf, parseFloat_nan.
    destruct (starts_numeral s); reflexivity. }
  rewrite E. split; [|split; [|split]].
  - intros Hs. rewrite parseFloat_nan, Hs. split; reflexivity.
  - intros ->. reflexivity.
  - intros [v Hv]. destruct (starts_numeral s); [reflexivity|discriminate].
  - intros ->. eexists; reflexivity.
Qed.

Lemma normalizeScoreValue_string_witness :
  JsString.eqb (toLowerCase (str "4.5 out of 5")) (str "pass") = false
  /\ JsString.eqb (toLowerCase (str "4.5 out of 5")) (str "fail") = false
  /\ ((exists v, normalizeScoreValue (VString (str "4.5 out of 5"))
                 = score_value (Numeric v))
      <-> starts_numeral (str "4.5 out of 5") = true).
Proof.
  split; [reflexivity|]. split; [reflexivity|].
  apply (normalizeScoreValue_string (str "4.5 out of 5")); reflexivity.
Defined.

(** C2, as stated, fails on ["4.5 out of 5"]: the text is not wholly a
    number, and the result is Numeric(4.5), not Unknown. *)
Lemma normalizeScoreValue_trailing_text :
  JsString.eqb (toLowerCase (str "4.5 out of 5")) (str "pass") = false
  /\ JsString.eqb (toLowerCase (str "4.5 out of 5")) (str "fail") = false
  /\ whole_number (str "4.5 out of 5") = false
  /\ normalizeScoreValue (VString (str "4.5 out of 5"))
     = score_value (Numeric (of_decimal false 45 (-1)))
  /\ normalizeScoreValue (VString (str "4.5 out of 5")) <> score_value Unknown.
Proof. repeat split; try (vm_compute; reflexivity). vm_compute. discriminate. Qed.

(** ** Presentation of numeric scores *)

Lemma SFcompare_antisym (a b : number) :
  SFcompare b a = option_map CompOpp (SFcompare a b).
Proof.
  destruct a as [sa|sa| |sa ma ea], b as [sb|sb| |sb mb eb];
    try reflexivity;
    try (destruct sa; reflexivity); try (destruct sb; reflexivity);
    try (destruct sa, sb; reflexivity).
  cbn [SFcompare option_map].
  destruct sa, sb; cbn [CompOpp]; try reflexivity;
    rewrite (Z.compare_antisym ea eb); destruct (ea ?= eb)%Z; cbn [CompOpp]; try reflexivity;
    rewrite (Pos.compare_cont_antisym ma mb Eq); cbn [CompOpp];
    try rewrite CompOpp_involutive; reflexivity.
Qed.

Lemma of_Z_0 : of_Z 0 = S754_zero false.
Proof. reflexivity. Qed.

Lemma of_Z_5 : of_Z 5 = S754_finite false 5629499534213120 (-50).
Proof. vm_compute. reflexivity. Qed.

Lemma clamp_spec (x : number) :
  isNaN x = false ->
  Math_max (of_Z 0) (Math_min (of_Z 5) x) = clamp_0_5 x.
Proof.
  intros Hx. unfold clamp_0_5. rewrite of_Z_0, of_Z_5.
  destruct x as [s|s| |s m e]; try discriminate.
  - destruct s; vm_compute; reflexivity.
  - destruct s; vm_compute; reflexivity.
  - unfold Math_min, Math_max, ltb, SFltb, SFleb.
    cbn [isNaN is_zero orb andb].
    rewrite (SFcompare_antisym (S754_finite s m e) (S754_finite false 5629499534213120 (-50))).
    destruct s.
    + reflexivity.
    + destruct (SFcompare (S754_finite false m e) _) as [[| |]|] eqn:E; try reflexivity.
      cbn [SFcompare] in E. destruct (e ?= -50)%Z; discriminate.
Qed.

Lemma round_tenths_nearest (m : positive) (e : Z) :
  nearest_tenth m e (round_tenths m e) /\ (0 <= round_tenths m e)%Z.
Proof.
  unfold nearest_tenth, round_tenths.
  destruct (0 <=? e)%Z eqn:Ee.
  - apply Z.leb_le in Ee.
    rewrite (Z.max_l 0 (- e)), (Z.max_r 0 e) by lia.
    assert (Hp : (0 < 2 ^ e)%Z) by (apply Z.pow_pos_nonneg; lia).
    change (2 ^ 0)%Z with 1%Z. nia.
  - apply Z.leb_gt in Ee.
    rewrite (Z.max_r 0 (- e)), (Z.max_l 0 e) by lia.
    change (2 ^ 0)%Z with 1%Z.
    replace (1 - e)%Z with (Z.succ (- e)) by lia.
    rewrite Z.pow_succ_r by lia.
    set (K := (2 ^ (- e))%Z).
    assert (HK : (0 < K)%Z) by (apply Z.pow_pos_nonneg; lia).
    pose proof (Z.div_mod (20 * Zpos m + K) (2 * K) ltac:(lia)) as Hdm.
    pose proof (Z.mod_pos_bound (20 * Zpos m + K) (2 * K) ltac:(lia)) as Hb.
    set (q := ((20 * Z.pos m + K) / (2 * K))%Z) in *.
    split; [nia|].
    apply Z.div_pos; lia.
Qed.

Lemma uint_units_digits (u : Decimal.uint) : forallb is_digit (uint_units u) = true.
Proof. induction u; simpl; auto. Qed.

Lemma digits_fold_acc (u : Decimal.uint) (acc : positive) :
  fold_left (fun a d => (10 * a + (Z.of_N d - 48))%Z) (uint_units u) (Zpos acc)
  = Zpos (Pos.of_uint_acc u acc).
Proof.
  revert acc; induction u; intros acc; cbn [uint_units fold_left Pos.of_uint_acc];
    try reflexivity;
    match goal with
    | |- fold_left _ _ ?z = _ =>
        match goal with
        | |- _ = Zpos (Pos.of_uint_acc _ ?p) =>
            replace z with (Zpos p) by lia; apply IHu
        end
    end.
Qed.

Lemma digits_value_uint (u : Decimal.uint) :
  digits_value (uint_units u) = Z.of_N (Pos.of_uint u).
Proof.
  unfold digits_value.
  induction u; cbn [uint_units fold_left Pos.of_uint]; try reflexivity;
    [exact IHu | ..];
    match goal with
    | |- fold_left _ _ ?z = Z.of_N (Npos (Pos.of_uint_acc _ ?p)) =>
        replace z with (Zpos p) by reflexivity; apply digits_fold_acc
    end.
Qed.

Lemma digits_value_decimal_digits (n : Z) :
  (0 <= n)%Z -> digits_value (decimal_digits n) = n.
Proof.
  destruct n as [|p|p]; [reflexivity| |lia]. intros _.
  unfold decimal_digits. rewrite digits_value_uint, DecimalPos.Unsigned.of_to.
  reflexivity.
Qed.

Lemma decimal_digits_shape (n : Z) :
  forallb is_digit (decimal_digits n) = true /\ decimal_digits n <> [].
Proof.
  destruct n as [|p|p]; try (split; [reflexivity|discriminate]).
  unfold decimal_digits. split; [apply uint_units_digits|].
  pose proof (DecimalPos.Unsigned.to_uint_nonnil p) as H.
  destruct (Pos.to_uint p); [congruence|..]; discriminate.
Qed.

Lemma span_digits_app (ip r : jsstring) :
  forallb is_digit ip = true ->
  match r with c :: _ => is_digit c = false | [] => True end ->
  span_digits (ip ++ r) = (ip, r).
Proof.
  intros Hip Hr. induction ip as [|c ip IH]; simpl.
  - destruct r as [|c r]; [reflexivity|]. simpl. rewrite Hr. reflexivity.
  - simpl in Hip. apply andb_prop in Hip as [Hc Hip].
    rewrite Hc, (IH Hip). reflexivity.
Qed.

Lemma filter_digits_all (ip : jsstring) :
  forallb is_digit ip = true -> filter is_digit ip = ip.
Proof.
  induction ip as [|c ip IH]; simpl; [reflexivity|].
  intros H. apply andb_prop in H as [Hc Hip]. rewrite Hc, (IH Hip). reflexivity.
Qed.

Lemma with_one_decimal_shape (n : Z) :
  (0 <= n)%Z ->
  exists ip d,
    with_one_decimal n = ip ++ [46%N; d]
    /\ ip <> [] /\ forallb is_digit ip = true /\ is_digit d = true
    /\ digits_value (ip ++ [d]) = n.
Proof.
  intros Hn. unfold with_one_decimal.
  set (m0 := if (n =? 0)%Z then [48%N] else decimal_digits n).
  assert (Hm0 : forallb is_digit m0 = true /\ m0 <> [] /\ digits_value m0 = n).
  { subst m0. destruct (n =? 0)%Z eqn:E.
    - apply Z.eqb_eq in E. subst n. repeat split; discriminate.
    - destruct (decimal_digits_shape n) as [H1 H2].
      repeat split; [assumption|assumption|apply digits_value_decimal_digits; assumption]. }
  destruct Hm0 as [Hd [Hne Hv]].
  set (m := match m0 with [d] => [48%N; d] | _ => m0 end).
  assert (Hm : forallb is_digit m = true /\ (2 <= List.length m)%nat /\ digits_value m = n).
  { subst m. destruct m0 as [|a [|b m1]]; [congruence| |].
    - simpl in Hd. rewrite andb_true_r in Hd.
      repeat split; [simpl; rewrite Hd; reflexivity|simpl; lia|].
      rewrite <- Hv. unfold digits_value. cbn [fold_left]. lia.
    - repeat split; [assumption|simpl; lia|assumption]. }
  clearbody m. clear m0 Hd Hne Hv. destruct Hm as [Hd [Hlen Hv]].
  destruct (exists_last (l := m)) as [ip [d Hm]]; [intros ->; simpl in Hlen; lia|].
  subst m. rewrite forallb_app in Hd. apply andb_prop in Hd as [Hip Hdd].
  simpl in Hdd. rewrite andb_true_r in Hdd.
  rewrite length_app in *. simpl in *.
  replace (List.length ip + 1 - 1)%nat with (List.length ip + 0)%nat by lia.
  rewrite firstn_app_2, skipn_app. simpl.
  rewrite Nat.add_0_r, skipn_all, Nat.sub_diag, app_nil_r. simpl.
  exists ip, d. repeat split; try assumption.
  intros ->. simpl in Hlen. lia.
Qed.

Lemma one_decimal_label (neg : bool) (n : Z) :
  (0 <= n)%Z ->
  one_decimal_form ((if neg then str "-" else []) ++ with_one_decimal n) = true
  /\ tenths_of ((if neg then str "-" else []) ++ with_one_decimal n) = n.
Proof.
  intros Hn.
  destruct (with_one_decimal_shape n Hn) as [ip [d [-> [Hne [Hip [Hd Hv]]]]]].
  assert (Hspan : span_digits (ip ++ [46%N; d]) = (ip, [46%N; d]))
    by (apply span_digits_app; [assumption|reflexivity]).
  assert (Hfilter : filter is_digit (ip ++ [46%N; d]) = ip ++ [d]).
  { rewrite filter_app. rewrite (filter_digits_all ip Hip). simpl. rewrite Hd. reflexivity. }
  split.
  - unfold one_decimal_form.
    assert (Hbody : match (if neg then str "-" else []) ++ ip ++ [46%N; d] with
                    | c :: s' => if (c =? 45)%N then s' else (if neg then str "-" else []) ++ ip ++ [46%N; d]
                    | [] => (if neg then str "-" else []) ++ ip ++ [46%N; d]
                    end = ip ++ [46%N; d]).
    { destruct neg; [reflexivity|]. simpl.
      destruct ip as [|c ip']; [congruence|]. simpl.
      simpl in Hip. apply andb_prop in Hip as [Hc _].
      destruct (c =? 45)%N eqn:E; [|reflexivity].
      apply N.eqb_eq in E. subst c. discriminate. }
    rewrite Hbody, Hspan.
    destruct ip; [congruence|]. rewrite Hd. reflexivity.
  - unfold tenths_of. destruct neg; simpl; rewrite Hfilter; assumption.
Qed.

(** C5.  For every Numeric(v) other than NaN the bucket is gradient and
    the hue is [clamp(v, 0, 5) / 5 * 120] in binary64 arithmetic.  For
    every finite [v] of magnitude below [10^21] the label is the numeral
    with exactly one decimal place nearest to [v] itself (the larger
    magnitude on a tie), whatever the clamp does to the colour:
    Numeric(7.0) has hue 120 and label "7.0". *)
Theorem presentation_of_numeric (x : number) :
  isNaN x = false ->
  getScoreClass (VNumber x) = str "score-gradient"
  /\ getScoreStyle (VNumber x)
     = Some (mul (div (clamp_0_5 x) (of_Z 5)) (of_Z 120))
  /\ (forall neg m e,
        x = S754_finite neg m e -> ge_1e21 m e = false ->
        exists n,
          formatScore (VNumber x)
          = VString ((if neg then str "-" else []) ++ with_one_decimal n)
          /\ nearest_tenth m e n
          /\ one_decimal_form ((if neg then str "-" else []) ++ with_one_decimal n) = true
          /\ tenths_of ((if neg then str "-" else []) ++ with_one_decimal n) = n)
  /\ (forall neg, x = S754_zero neg -> formatScore (VNumber x) = VString (str "0.0"))
  /\ getScoreStyle (VNumber (of_Z 7)) = Some (of_Z 120)
  /\ formatScore (VNumber (of_Z 7)) = VString (str "7.0").
Proof.
  intros Hx. split; [reflexivity|]. split.
  { unfold getScoreStyle. rewrite Hx, (clamp_spec x Hx). reflexivity. }
  split.
  { intros neg m e -> Hlt.
    destruct (round_tenths_nearest m e) as [Hnear Hpos].
    destruct (one_decimal_label neg (round_tenths m e) Hpos) as [Hform Hval].
    exists (round_tenths m e).
    split; [|split; [exact Hnear|split; assumption]].
    unfold formatScore. cbn [is_null is_string]. unfold toFixed1. rewrite Hlt.
    reflexivity. }
  split; [intros neg ->; reflexivity|].
  split; vm_compute; reflexivity.
Qed.

Lemma presentation_of_numeric_witness :
  isNaN (of_Z 7) = false
  /\ getScoreStyle (VNumber (of_Z 7)) = Some (of_Z 120)
  /\ formatScore (VNumber (of_Z 7)) = VString (str "7.0").
Proof.
  split; [reflexivity|].
  destruct (presentation_of_numeric (of_Z 7) eq_refl) as [_ [_ [_ [_ H]]]].
  exact H.
Defined.

(** C5, as stated, fails at [v = Infinity], which the decoder does
    produce (from the JSON number [1e400]): the label is the word
    [Infinity], not a numeral with one decimal place.  At NaN there is no
    colour at all. *)
Lemma presentation_of_infinity :
  extractScore (VString sample_overflow) = Ret (score_value (Numeric Infinity))
  /\ formatScore (VNumber Infinity) = VString (str "Infinity")
  /\ one_decimal_form (str "Infinity") = false
  /\ getScoreStyle (VNumber NaN) = None.
Proof. repeat split; vm_compute; reflexivity. Qed.

(** ** [formatLabel] *)

Section SingleUnitPattern.

Variable re : RegExp.
Variable P : option N -> N -> bool.
Variable f : list N -> list N.

Hypothesis run_single : forall pos prev s,
  run (re_ignoreCase re) (re_pattern re) (MState pos prev s []) (fun st => Some st)
  = match s with
    | c :: s' => if P prev c then Some (MState (S pos) (Some c) s' []) else None
    | [] => None
    end.

Lemma search_find (s : list N) : forall pos prev,
  search (re_ignoreCase re) (re_pattern re) pos prev s
  = match find_first P prev s with
    | Some (k, c, after) =>
        Some ((pos + k)%nat, MState (S (pos + k)) (Some c) after [])
    | None => None
    end.
Proof.
  induction s as [|c s IH]; intros pos prev; cbn [search find_first];
    rewrite run_single; [reflexivity|].
  destruct (P prev c).
  - rewrite Nat.add_0_r. reflexivity.
  - rewrite IH. destruct (find_first P (Some c) s) as [[[k c'] after]|]; [|reflexivity].
    rewrite Nat.add_succ_r. reflexivity.
Qed.

Lemma find_first_some (s : list N) : forall prev k c after,
  find_first P prev s = Some (k, c, after) ->
  skipn k s = c :: after
  /\ replaced P f prev s = firstn k s ++ f [c] ++ replaced P f (Some c) after
  /\ (List.length after < List.length s)%nat.
Proof.
  induction s as [|a s IH]; intros prev k c after; cbn [find_first]; [discriminate|].
  destruct (P prev a) eqn:Ep.
  - intros [= <- <- <-]. cbn [skipn firstn replaced]. rewrite Ep.
    repeat split. simpl. lia.
  - destruct (find_first P (Some a) s) as [[[k' c'] after']|] eqn:Ef; [|discriminate].
    intros [= <- <- <-]. destruct (IH _ _ _ _ Ef) as [H1 [H2 H3]].
    cbn [skipn firstn replaced]. rewrite Ep, H2. repeat split; [assumption|].
    simpl. lia.
Qed.

Lemma find_first_none (s : list N) : forall prev,
  find_first P prev s = None -> replaced P f prev s = s.
Proof.
  induction s as [|a s IH]; intros prev; cbn [find_first replaced]; [reflexivity|].
  destruct (P prev a); [discriminate|].
  destruct (find_first P (Some a) s) as [[[k c] after]|] eqn:Ef; [discriminate|].
  intros _. rewrite (IH _ Ef). reflexivity.
Qed.

Lemma replace_from_single (fuel : nat) : forall s pos prev,
  (List.length s < fuel)%nat ->
  replace_from fuel re f pos prev s = replaced P f prev s.
Proof.
  induction fuel as [|fuel IH]; intros s pos prev Hlen; [lia|].
  cbn [replace_from]. rewrite search_find.
  destruct (find_first P prev s) as [[[k c] after]|] eqn:Ef.
  - destruct (find_first_some _ _ _ _ _ Ef) as [Hskip [Hrep Hafter]].
    cbn [ms_pos ms_rest ms_prev].
    replace (pos + k - pos)%nat with k by lia.
    replace (S (pos + k) - (pos + k))%nat with 1%nat by lia.
    rewrite Hskip. cbn [firstn].
    replace (Nat.eqb (S (pos + k)) (pos + k)) with false
      by (symmetry; apply Nat.eqb_neq; lia).
    rewrite IH by lia. symmetry. exact Hrep.
  - symmetry. apply find_first_none. assumption.
Qed.

Lemma String_replace_all_single (s : list N) :
  String_replace_all s re f = replaced P f None s.
Proof. unfold String_replace_all. apply replace_from_single. lia. Qed.

End SingleUnitPattern.

Lemma replace_underscores (key : list N) :
  String_replace_all key underscore_re (fun _ => str " ") = spaced key.
Proof.
  rewrite (String_replace_all_single underscore_re (fun _ c => (c =? 95)%N)).
  - generalize (@None N) as prev.
    induction key as [|c key IH]; intros prev; [reflexivity|].
    cbn [replaced spaced map]. fold (spaced key). rewrite IH.
    destruct (c =? 95)%N; reflexivity.
  - intros pos prev t. destruct t as [|c t']; reflexivity.
Qed.

Lemma capitalize_words (s : list N) :
  String_replace_all s word_start_re (fun char => toUpperCase char) = title_case s.
Proof.
  rewrite (String_replace_all_single word_start_re
             (fun prev c => is_word c && negb (word_at prev))).
  - unfold title_case. change false with (word_at None). generalize (@None N) as prev.
    induction s as [|c s IH]; intros prev; [reflexivity|].
    cbn [replaced capitalized]. rewrite (IH (Some c)). cbn [word_at].
    destruct (is_word c && negb (word_at prev)); reflexivity.
  - intros pos prev t.
    cbn [word_start_re re_pattern re_ignoreCase run ms_prev ms_rest ms_pos ms_caps].
    destruct t as [|c t']; cbn [hd_error word_at in_class].
    + destruct (word_at prev); reflexivity.
    + destruct (word_at prev), (is_word c); reflexivity.
Qed.

Lemma formatLabel_title_case (key : list N) :
  formatLabel key = title_case (spaced key).
Proof. unfold formatLabel. rewrite replace_underscores, capitalize_words. reflexivity. Qed.

(** ** [renderEvaluationView]: metric rows *)





Lemma insert_index_perm (i : N) (e : list N * value) (l : list (N * (list N * value))) :
  Permutation (insert_index i e l) ((i, e) :: l).
Proof.
  induction l as [|[j e'] l IH]; simpl; [apply Permutation_refl|].
  destruct (i <? j)%N; [apply Permutation_refl|].
  eapply Permutation_trans; [apply perm_skip, IH|apply perm_swap].
Qed.

Lemma index_entries_perm (props : list (list N * value)) :
  Permutation (map snd (index_entries props)) (filter is_index_key props).
Proof.
  induction props as [|[k v] props IH]; [apply Permutation_refl|].
  cbn [index_entries filter]. unfold is_index_key at 1. cbn [fst].
  destruct (array_index k) as [i|]; [|exact IH].
  eapply Permutation_trans;
    [apply Permutation_map, insert_index_perm|cbn [map snd]; apply perm_skip, IH].
Qed.







(** ** [JSON.parse]: the fuel is sufficient *)

Import JSON.

Lemma skip_ws_length (s : list N) : (List.length (skip_ws s) <= List.length s)%nat.
Proof.
  induction s as [|c s IH]; simpl; [lia|].
  destruct (is_ws c); simpl; lia.
Qed.

Lemma string_body_length (n : nat) : forall s acc t rest,
  (List.length s <= n)%nat ->
  string_body s acc = Some (t, rest) ->
  (List.length rest < List.length s)%nat.
Proof.
  induction n as [|n IH]; intros s acc t rest Hlen H.
  - destruct s; [discriminate|simpl in Hlen; lia].
  - destruct s as [|c s1]; [discriminate|].
    cbn [string_body] in H. cbn [List.length] in *.
    repeat match type of H with
    | (if ?b then _ else _) = _ => destruct b
    | (match ?l with [] => _ | _ :: _ => _ end) = _ => destruct l; cbn [List.length] in *
    | (match hex_value ?c with Some _ => _ | None => _ end) = _ => destruct (hex_value c)
    | None = Some _ => discriminate
    | Some _ = Some _ => injection H as <- <-
    end;
    try lia;
    try (apply IH in H; [cbn [List.length] in *; lia|cbn [List.length] in *; lia]).
Qed.

Lemma span_digits_length (s : list N) :
  List.length s = (List.length (fst (span_digits s)) + List.length (snd (span_digits s)))%nat.
Proof.
  destruct (span_digits_spec s) as [_ [H _]].
  rewrite H at 1. apply length_app.
Qed.

Lemma number_literal_length (s : list N) (x : number) (rest : list N) :
  number_literal s = Some (x, rest) ->
  (List.length rest < List.length s)%nat.
Proof.
  unfold number_literal.
  set (sign := match s with
               | c :: s' => if (c =? 45)%N then (true, s') else (false, s)
               | [] => (false, s)
               end).
  assert (Hsign : (List.length (snd sign) <= List.length s)%nat).
  { subst sign. destruct s as [|c s']; [simpl; lia|].
    destruct (c =? 45)%N; simpl; lia. }
  destruct sign as [neg s0]. cbn [snd] in Hsign.
  set (int := match s0 with
              | c :: s' => if (c =? 48)%N then ([48%N], s') else span_digits s0
              | [] => ([], s0)
              end).
  assert (Hint : fst int <> [] -> (List.length (snd int) < List.length s0)%nat).
  { subst int. destruct s0 as [|c s']; [simpl; congruence|].
    destruct (c =? 48)%N; [simpl; lia|].
    pose proof (span_digits_length (c :: s')) as Hl.
    destruct (span_digits (c :: s')) as [d r]. cbn [fst snd] in *.
    destruct d; [congruence|]. cbn [List.length] in *. lia. }
  destruct int as [ip s1]. cbn [fst snd] in Hint.
  destruct ip as [|d ip]; [discriminate|].
  specialize (Hint ltac:(discriminate)).
  set (frac := match s1 with
               | c :: s2 =>
                   if (c =? 46)%N then
                     let (fp, s3) := span_digits s2 in
                     match fp with [] => None | _ => Some (fp, s3) end
                   else Some ([], s1)
               | [] => Some ([], s1)
               end).
  assert (Hfrac : forall fp s3, frac = Some (fp, s3) ->
                                (List.length s3 <= List.length s1)%nat).
  { subst frac. intros fp s3. destruct s1 as [|c s2]; [intros [= _ <-]; lia|].
    destruct (c =? 46)%N; [|intros [= _ <-]; lia].
    pose proof (span_digits_length s2) as Hl.
    destruct (span_digits s2) as [fp' s3']. cbn [fst snd] in Hl.
    destruct fp'; [discriminate|]. intros [= _ <-]. cbn [List.length] in *. lia. }
  destruct frac as [[fp s3]|]; [|discriminate].
  specialize (Hfrac fp s3 eq_refl).
  set (ex := match s3 with
             | c :: s4 =>
                 if (c =? 101)%N || (c =? 69)%N then
                   let '(eneg, s5) :=
                     match s4 with
                     | sg :: s5 =>
                         if (sg =? 45)%N then (true, s5)
                         else if (sg =? 43)%N then (false, s5)
                         else (false, s4)
                     | [] => (false, s4)
                     end in
                   let (ds, s6) := span_digits s5 in
                   match ds with
                   | [] => None
                   | _ => Some (cond_Zopp eneg (digits_value ds), s6)
                   end
                 else Some (0%Z, s3)
             | [] => Some (0%Z, s3)
             end).
  assert (Hex : forall e r, ex = Some (e, r) -> (List.length r <= List.length s3)%nat).
  { subst ex. intros e r. destruct s3 as [|c s4]; [intros [= _ <-]; lia|].
    destruct ((c =? 101)%N || (c =? 69)%N); [|intros [= _ <-]; lia].
    set (sg := match s4 with
               | sg :: s5 =>
                   if (sg =? 45)%N then (true, s5)
                   else if (sg =? 43)%N then (false, s5)
                   else (false, s4)
               | [] => (false, s4)
               end).
    assert (Hsg : (List.length (snd sg) <= List.length s4)%nat).
    { subst sg. destruct s4 as [|a s5]; [simpl; lia|].
      destruct (a =? 45)%N; [simpl; lia|]. destruct (a =? 43)%N; simpl; lia. }
    destruct sg as [eneg s5]. cbn [snd] in Hsg.
    pose proof (span_digits_length s5) as Hl.
    destruct (span_digits s5) as [ds s6]. cbn [fst snd] in Hl.
    destruct ds; [discriminate|]. intros [= _ <-]. cbn [List.length] in *. lia. }
  destruct ex as [[e r]|]; [|discriminate].
  specialize (Hex e r eq_refl). intros [= _ <-]. lia.
Qed.

Lemma parse_consumes (f : nat) :
  (forall s v rest, parse_value f s = Some (v, rest) ->
                    (List.length rest < List.length s)%nat)
  /\ (forall s acc v rest, parse_elements f s acc = Some (v, rest) ->
                           (List.length rest < List.length s)%nat)
  /\ (forall s acc v rest, parse_members f s acc = Some (v, rest) ->
                           (List.length rest < List.length s)%nat).
Proof.
  induction f as [|f [IHv [IHe IHm]]]; [repeat split; discriminate|].
  split; [|split].
  - intros s v rest. cbn [parse_value].
    pose proof (skip_ws_length s) as Hs.
    destruct (skip_ws s) as [|c s1]; [discriminate|]. cbn [List.length] in Hs.
    destruct (c =? 34)%N.
    { destruct (string_body s1 []) as [[t r]|] eqn:E; [|discriminate].
      intros [= _ <-]. apply (string_body_length (List.length s1)) in E; lia. }
    destruct (c =? 91)%N.
    { pose proof (skip_ws_length s1) as Hs1.
      destruct (skip_ws s1) as [|c2 s2]; [discriminate|]. cbn [List.length] in Hs1.
      destruct (c2 =? 93)%N; [intros [= _ <-]; lia|].
      intros H. apply IHe in H. lia. }
    destruct (c =? 123)%N.
    { pose proof (skip_ws_length s1) as Hs1.
      destruct (skip_ws s1) as [|c2 s2]; [discriminate|]. cbn [List.length] in Hs1.
      destruct (c2 =? 125)%N; [intros [= _ <-]; lia|].
      intros H. apply IHm in H. lia. }
    destruct (starts_with (str "null") (c :: s1));
      [intros [= _ <-];
       repeat match goal with
              | |- context [match ?l with [] => _ | _ :: _ => _ end] => destruct l
              end; cbn [List.length] in *; lia|].
    destruct (starts_with (str "true") (c :: s1));
      [intros [= _ <-];
       repeat match goal with
              | |- context [match ?l with [] => _ | _ :: _ => _ end] => destruct l
              end; cbn [List.length] in *; lia|].
    destruct (starts_with (str "false") (c :: s1));
      [intros [= _ <-];
       repeat match goal with
              | |- context [match ?l with [] => _ | _ :: _ => _ end] => destruct l
              end; cbn [List.length] in *; lia|].
    destruct (number_literal (c :: s1)) as [[x r]|] eqn:E; [|discriminate].
    intros [= _ <-]. apply number_literal_length in E. cbn [List.length] in E. lia.
  - intros s acc v rest. cbn [parse_elements].
    destruct (parse_value f s) as [[v0 rest0]|] eqn:E; [|discriminate].
    apply IHv in E.
    pose proof (skip_ws_length rest0) as Hs.
    destruct (skip_ws rest0) as [|c s1]; [discriminate|]. cbn [List.length] in Hs.
    destruct (c =? 44)%N; [intros H; apply IHe in H; lia|].
    destruct (c =? 93)%N; [intros [= _ <-]; lia|discriminate].
  - intros s acc v rest. cbn [parse_members].
    pose proof (skip_ws_length s) as Hs.
    destruct (skip_ws s) as [|c s1]; [discriminate|]. cbn [List.length] in Hs.
    destruct (c =? 34)%N; [|discriminate].
    destruct (string_body s1 []) as [[key s2]|] eqn:Ek; [|discriminate].
    apply (string_body_length (List.length s1)) in Ek; [|lia].
    pose proof (skip_ws_length s2) as Hs2.
    destruct (skip_ws s2) as [|c3 s3]; [discriminate|]. cbn [List.length] in Hs2.
    destruct (c3 =? 58)%N; [|discriminate].
    destruct (parse_value f s3) as [[v0 rest0]|] eqn:E; [|discriminate].
    apply IHv in E.
    pose proof (skip_ws_length rest0) as Hs0.
    destruct (skip_ws rest0) as [|c4 s4]; [discriminate|]. cbn [List.length] in Hs0.
    destruct (c4 =? 44)%N; [intros H; apply IHm in H; lia|].
    destruct (c4 =? 125)%N; [intros [= _ <-]; lia|discriminate].
Qed.

Lemma parse_stable (n : nat) : forall s, (List.length s < n)%nat ->
  (forall f1 f2, (2 * List.length s + 2 <= f1)%nat -> (2 * List.length s + 2 <= f2)%nat ->
                 parse_value f1 s = parse_value f2 s)
  /\ (forall f1 f2 acc, (2 * List.length s + 3 <= f1)%nat -> (2 * List.length s + 3 <= f2)%nat ->
                        parse_elements f1 s acc = parse_elements f2 s acc)
  /\ (forall f1 f2 acc, (2 * List.length s + 3 <= f1)%nat -> (2 * List.length s + 3 <= f2)%nat ->
                        parse_members f1 s acc = parse_members f2 s acc).
Proof.
  induction n as [|n IH]; intros s Hn; [lia|].
  - assert (Hv : forall f1 f2, (2 * List.length s + 2 <= f1)%nat ->
                               (2 * List.length s + 2 <= f2)%nat ->
                               parse_value f1 s = parse_value f2 s).
    { intros [|f1] [|f2] H1 H2; try lia. cbn [parse_value].
      pose proof (skip_ws_length s) as Hs.
      destruct (skip_ws s) as [|c s1]; [reflexivity|]. cbn [List.length] in Hs.
      assert (Hs1 : (List.length s1 < n)%nat) by lia.
      destruct (IH s1 Hs1) as [_ [IHe IHm]].
      rewrite (IHe f1 f2 []) by lia. rewrite (IHm f1 f2 []) by lia. reflexivity. }
    split; [exact Hv|]. split.
    + intros [|f1] [|f2] acc H1 H2; try lia. cbn [parse_elements].
      rewrite (Hv f1 f2) by lia.
      destruct (parse_value f2 s) as [[v rest0]|] eqn:E; [|reflexivity].
      apply (proj1 (parse_consumes f2)) in E.
      pose proof (skip_ws_length rest0) as Hs.
      destruct (skip_ws rest0) as [|c s1]; [reflexivity|]. cbn [List.length] in Hs.
      destruct (IH s1 ltac:(lia)) as [_ [IHe _]].
      rewrite (IHe f1 f2 (v :: acc)) by lia. reflexivity.
    + intros [|f1] [|f2] acc H1 H2; try lia. cbn [parse_members].
      pose proof (skip_ws_length s) as Hs.
      destruct (skip_ws s) as [|c s1]; [reflexivity|]. cbn [List.length] in Hs.
      destruct (c =? 34)%N; [|reflexivity].
      destruct (string_body s1 []) as [[key s2]|] eqn:Ek; [|reflexivity].
      apply (string_body_length (List.length s1)) in Ek; [|lia].
      pose proof (skip_ws_length s2) as Hs2.
      destruct (skip_ws s2) as [|c3 s3]; [reflexivity|]. cbn [List.length] in Hs2.
      destruct (c3 =? 58)%N; [|reflexivity].
      destruct (IH s3 ltac:(lia)) as [IHv' _].
      rewrite (IHv' f1 f2) by lia.
      destruct (parse_value f2 s3) as [[v rest0]|] eqn:E; [|reflexivity].
      apply (proj1 (parse_consumes f2)) in E.
      pose proof (skip_ws_length rest0) as Hs0.
      destruct (skip_ws rest0) as [|c4 s4]; [reflexivity|]. cbn [List.length] in Hs0.
      destruct (IH s4 ltac:(lia)) as [_ [_ IHm]].
      rewrite (IHm f1 f2 (set_prop key v acc)) by lia. reflexivity.
Qed.

(** More fuel than [fuel_for] changes nothing: the fuel is never what
    makes [JSON.parse] fail. *)
Lemma parse_value_fuel (s : list N) (fuel : nat) :
  (fuel_for s <= fuel)%nat ->
  parse_value fuel s = parse_value (fuel_for s) s.
Proof.
  intros H. apply (parse_stable (S (List.length s)) s (le_n _)); unfold fuel_for in *; lia.
Qed.

(** ** The worked examples of the specification *)

Example fenced_block_decodes :
  parseResponseJSON (VString sample_fenced) = sample_fenced_decoded
  /\ extractScore (VString sample_fenced)
     = Ret (score_value (Numeric (of_decimal false 42 (-1))))
  /\ renderEvaluationView sample_fenced_decoded (VString sample_fenced)
     = Ret (EvaluationView (VNumber (of_decimal false 42 (-1))) VNull
              (VArray [VString (str "minor_issue")]) []).
Proof. repeat split; vm_compute; reflexivity. Qed.

Example verdict_literal_any_case :
  extractScore (VString sample_verdict_text) = Ret (score_value (Verdict true)).
Proof. vm_compute. reflexivity. Qed.

Example prose_score_by_pattern :
  extractScore (VString (str "Score: 3.5 out of 5"))
  = Ret (score_value (Numeric (of_decimal false 35 (-1)))).
Proof. vm_compute. reflexivity. Qed.

Example broken_fence_is_unknown :
  extractScore (VString sample_broken_fence) = Ret (score_value Unknown)
  /\ parseResponseJSON (VString sample_broken_fence) = VNull.
Proof. split; vm_compute; reflexivity. Qed.

(* ================================================================= *)
(** * Further properties *)

(** ** Canonical scores and labels *)

(** X1.  Every canonical score is a fixed point of [normalizeScoreValue],
    so normalizing twice is normalizing once. *)
Theorem normalizeScoreValue_idempotent :
  (forall c, normalizeScoreValue (score_value c) = score_value c)
  /\ (forall v, normalizeScoreValue (normalizeScoreValue v) = normalizeScoreValue v).
Proof.
  assert (H : forall c, normalizeScoreValue (score_value c) = score_value c).
  { intros [|[|]|x]; reflexivity. }
  split; [exact H|].
  intros v. destruct (normalizeScoreValue_canonical v) as [c ->]. apply H.
Qed.

Lemma is_word_upper (c : N) : is_word (upper_cu c) = is_word c.
Proof.
  unfold upper_cu. destruct (is_lower c) eqn:E; [|reflexivity].
  unfold is_word. rewrite E. unfold is_lower in E. apply andb_prop in E as [E1 E2].
  apply N.leb_le in E1, E2.
  assert (Hu : is_upper (c - 32) = true).
  { unfold is_upper. apply andb_true_intro. split; apply N.leb_le; lia. }
  rewrite Hu, !orb_true_r. reflexivity.
Qed.

Lemma upper_upper (c : N) : upper_cu (upper_cu c) = upper_cu c.
Proof.
  unfold upper_cu. destruct (is_lower c) eqn:E; [|rewrite E; reflexivity].
  unfold is_lower in E. apply andb_prop in E as [E1 E2].
  apply N.leb_le in E1, E2.
  assert (Hl : is_lower (c - 32) = false).
  { unfold is_lower. replace (97 <=? c - 32)%N with false; [reflexivity|].
    symmetry. apply N.leb_gt. lia. }
  rewrite Hl. reflexivity.
Qed.

Lemma upper_not_underscore (c : N) : (c =? 95)%N = false -> (upper_cu c =? 95)%N = false.
Proof.
  unfold upper_cu, is_lower. intros H.
  destruct (97 <=? c)%N eqn:E1, (c <=? 122)%N eqn:E2; cbn [andb]; try assumption.
  apply N.leb_le in E1, E2. apply N.eqb_neq. lia.
Qed.

Lemma capitalized_length (s : list N) : forall b,
  List.length (capitalized b s) = List.length s.
Proof. induction s as [|c s IH]; intros b; simpl; [reflexivity|]. rewrite IH. reflexivity. Qed.

Lemma capitalized_idempotent (s : list N) : forall b,
  capitalized b (capitalized b s) = capitalized b s.
Proof.
  induction s as [|c s IH]; intros b; [reflexivity|].
  cbn [capitalized].
  assert (Hw : is_word (if is_word c && negb b then upper_cu c else c) = is_word c).
  { destruct (is_word c && negb b); [apply is_word_upper|reflexivity]. }
  rewrite Hw, IH. f_equal.
  destruct (is_word c && negb b) eqn:E; [|reflexivity]. apply upper_upper.
Qed.

Lemma capitalized_no_underscore (s : list N) : forall b,
  forallb (fun c => negb (c =? 95)%N) s = true ->
  forallb (fun c => negb (c =? 95)%N) (capitalized b s) = true.
Proof.
  induction s as [|c s IH]; intros b H; [reflexivity|].
  cbn [capitalized forallb] in *. apply andb_prop in H as [Hc Hs].
  rewrite (IH _ Hs), andb_true_r.
  apply negb_true_iff in Hc.
  destruct (is_word c && negb b); [rewrite (upper_not_underscore c Hc)|rewrite Hc]; reflexivity.
Qed.

Lemma spaced_no_underscore (s : list N) :
  forallb (fun c => negb (c =? 95)%N) (spaced s) = true.
Proof.
  induction s as [|c s IH]; [reflexivity|].
  cbn [spaced map forallb]. fold (spaced s). rewrite IH, andb_true_r.
  destruct (c =? 95)%N eqn:E; [reflexivity|]. rewrite E. reflexivity.
Qed.

Lemma spaced_fixed (s : list N) :
  forallb (fun c => negb (c =? 95)%N) s = true -> spaced s = s.
Proof.
  induction s as [|c s IH]; [reflexivity|].
  cbn [forallb spaced map]. fold (spaced s). intros H. apply andb_prop in H as [Hc Hs].
  apply negb_true_iff in Hc. rewrite Hc, (IH Hs). reflexivity.
Qed.

(** X2.  A label has as many code units as its key and no underscore,
    formatting a label again changes nothing, and [formatFlagType] is the
    same function as [formatLabel]. *)
Theorem formatLabel_shape (key : list N) :
  List.length (formatLabel key) = List.length key
  /\ forallb (fun c => negb (c =? 95)%N) (formatLabel key) = true
  /\ formatLabel (formatLabel key) = formatLabel key
  /\ formatFlagType key = formatLabel key.
Proof.
  rewrite !formatLabel_title_case. unfold title_case.
  pose proof (capitalized_no_underscore (spaced key) false (spaced_no_underscore key)) as Hu.
  split; [|split; [exact Hu|split; [|reflexivity]]].
  - rewrite capitalized_length. unfold spaced. apply length_map.
  - rewrite (spaced_fixed _ Hu). apply capitalized_idempotent.
Qed.

(** ** [escapeHtml] *)

Lemma replaced_flat_map (f : list N -> list N) (s : list N) : forall prev,
  replaced (fun _ c => (c =? 10)%N) f prev s
  = flat_map (fun c => if (c =? 10)%N then f [c] else [c]) s.
Proof.
  induction s as [|c s IH]; intros prev; [reflexivity|].
  cbn [replaced flat_map]. rewrite IH. reflexivity.
Qed.

Lemma escapeHtml_flat_map (text : list N) :
  escapeHtml text = flat_map escape_app text.
Proof.
  unfold escapeHtml.
  rewrite (String_replace_all_single newline_re (fun _ c => (c =? 10)%N)).
  - rewrite replaced_flat_map. unfold serialize_text.
    induction text as [|c text IH]; [reflexivity|].
    cbn [flat_map]. rewrite flat_map_app, IH. f_equal.
    unfold escape_app, escape_unit.
    destruct (c =? 10)%N eqn:E10.
    { apply N.eqb_eq in E10. subst c. reflexivity. }
    destruct (c =? 38)%N; [reflexivity|].
    destruct (c =? 160)%N; [reflexivity|].
    destruct (c =? 60)%N; [reflexivity|].
    destruct (c =? 62)%N; [reflexivity|].
    cbn [flat_map]. rewrite E10. reflexivity.
  - intros pos prev t. destruct t as [|c t']; reflexivity.
Qed.

Lemma escape_app_cases (c : N) :
  (c = 38%N /\ escape_app c = str "&amp;")
  \/ (c = 160%N /\ escape_app c = str "&nbsp;")
  \/ (c = 60%N /\ escape_app c = str "&lt;")
  \/ (c = 62%N /\ escape_app c = str "&gt;")
  \/ (c = 10%N /\ escape_app c = str "<br>")
  \/ (plain_unit c = true /\ escape_app c = [c]).
Proof.
  unfold escape_app, escape_unit, plain_unit.
  destruct (c =? 10)%N eqn:E10; [apply N.eqb_eq in E10; tauto|].
  destruct (c =? 38)%N eqn:E38; [apply N.eqb_eq in E38; tauto|].
  destruct (c =? 160)%N eqn:E160; [apply N.eqb_eq in E160; tauto|].
  destruct (c =? 60)%N eqn:E60; [apply N.eqb_eq in E60; tauto|].
  destruct (c =? 62)%N eqn:E62; [apply N.eqb_eq in E62; tauto|].
  repeat right. split; reflexivity.
Qed.

Lemma plain_unit_spec (c : N) :
  plain_unit c = true ->
  (c =? 38)%N = false /\ (c =? 160)%N = false /\ (c =? 60)%N = false
  /\ (c =? 62)%N = false /\ (c =? 10)%N = false.
Proof.
  unfold plain_unit. intros H. apply negb_true_iff in H.
  destruct (c =? 38)%N, (c =? 160)%N, (c =? 60)%N, (c =? 62)%N, (c =? 10)%N;
    try discriminate. repeat split.
Qed.

Lemma unescape_plain (fuel : nat) (c : N) (rest : list N) :
  plain_unit c = true ->
  unescape (S fuel) (c :: rest) = c :: unescape fuel rest.
Proof.
  intros H. destruct (plain_unit_spec c H) as [H38 [_ [H60 _]]].
  cbn [unescape str list_ascii_of_string map starts_with].
  change (N_of_ascii "&") with 38%N. change (N_of_ascii "<") with 60%N.
  rewrite (N.eqb_sym 38 c), (N.eqb_sym 60 c), H38, H60. reflexivity.
Qed.

Lemma unescape_escape (text : list N) : forall fuel,
  (List.length text <= fuel)%nat ->
  unescape fuel (flat_map escape_app text) = text.
Proof.
  induction text as [|c text IH]; intros fuel Hf.
  - destruct fuel; reflexivity.
  - destruct fuel as [|fuel]; [simpl in Hf; lia|].
    cbn [flat_map]. cbn [List.length] in Hf.
    assert (IH' := IH fuel ltac:(lia)).
    destruct (escape_app_cases c) as [[-> ->]|[[-> ->]|[[-> ->]|[[-> ->]|[[-> ->]|[Hp ->]]]]]];
      try (cbn; rewrite IH'; reflexivity).
    cbn [app]. rewrite (unescape_plain _ _ _ Hp), IH'. reflexivity.
Qed.

Lemma escape_length (text : list N) :
  (List.length text <= List.length (flat_map escape_app text))%nat.
Proof.
  induction text as [|c text IH]; [simpl; lia|].
  cbn [flat_map]. rewrite length_app. cbn [List.length].
  destruct (escape_app_cases c) as [[_ ->]|[[_ ->]|[[_ ->]|[[_ ->]|[[_ ->]|[_ ->]]]]]];
    simpl; lia.
Qed.

(** X3.  [escapeHtml] of [app.js] loses nothing: the text is read back
    from its escaped form, so two texts with the same escaped form are
    equal.  The escaped form has exactly one [<] and one [>] per line
    feed of the text (those of the [<br>] tags), and a text without
    ampersand, no-break space, angle bracket or line feed -- quotes
    included -- is returned unchanged. *)
Theorem escapeHtml_faithful (text : list N) :
  unescapeHtml (escapeHtml text) = text
  /\ (forall text', escapeHtml text = escapeHtml text' -> text = text')
  /\ occurrences 60 (escapeHtml text) = occurrences 10 text
  /\ occurrences 62 (escapeHtml text) = occurrences 10 text
  /\ (forallb plain_unit text = true -> escapeHtml text = text).
Proof.
  assert (Hinv : forall t, unescapeHtml (escapeHtml t) = t).
  { intros t. unfold unescapeHtml. rewrite escapeHtml_flat_map.
    apply unescape_escape, escape_length. }
  split; [apply Hinv|]. split.
  { intros text' H. rewrite <- (Hinv text), <- (Hinv text'), H. reflexivity. }
  rewrite escapeHtml_flat_map. unfold occurrences.
  split; [|split].
  - induction text as [|c text IH]; [reflexivity|].
    cbn [flat_map]. rewrite filter_app, length_app, IH.
    destruct (escape_app_cases c) as [[-> ->]|[[-> ->]|[[-> ->]|[[-> ->]|[[-> ->]|[Hp ->]]]]]];
      try reflexivity.
    destruct (plain_unit_spec c Hp) as [_ [_ [H60 [_ H10]]]].
    cbn [filter]. rewrite (N.eqb_sym 60 c), (N.eqb_sym 10 c), H60, H10. reflexivity.
  - induction text as [|c text IH]; [reflexivity|].
    cbn [flat_map]. rewrite filter_app, length_app, IH.
    destruct (escape_app_cases c) as [[-> ->]|[[-> ->]|[[-> ->]|[[-> ->]|[[-> ->]|[Hp ->]]]]]];
      try reflexivity.
    destruct (plain_unit_spec c Hp) as [_ [_ [_ [H62 H10]]]].
    cbn [filter]. rewrite (N.eqb_sym 62 c), (N.eqb_sym 10 c), H62, H10. reflexivity.
  - induction text as [|c text IH]; [reflexivity|].
    cbn [forallb flat_map]. intros H. apply andb_prop in H as [Hc Ht].
    rewrite (IH Ht).
    destruct (escape_app_cases c) as [[-> _]|[[-> _]|[[-> _]|[[-> _]|[[-> _]|[_ ->]]]]]];
      try discriminate. reflexivity.
Qed.


Lemma unescape_other (fuel : nat) (c : N) (rest : list N) :
  (c =? 38)%N = false -> (c =? 60)%N = false ->
  unescape (S fuel) (c :: rest) = c :: unescape fuel rest.
Proof.
  intros H38 H60.
  cbn [unescape str list_ascii_of_string map starts_with].
  change (N_of_ascii "&") with 38%N. change (N_of_ascii "<") with 60%N.
  rewrite (N.eqb_sym 38 c), (N.eqb_sym 60 c), H38, H60. reflexivity.
Qed.

Lemma escape_unit_cases (c : N) :
  (c = 38%N /\ escape_unit c = str "&amp;")
  \/ (c = 160%N /\ escape_unit c = str "&nbsp;")
  \/ (c = 60%N /\ escape_unit c = str "&lt;")
  \/ (c = 62%N /\ escape_unit c = str "&gt;")
  \/ ((c =? 38)%N = false /\ (c =? 60)%N = false /\ (c =? 62)%N = false
      /\ escape_unit c = [c]).
Proof.
  unfold escape_unit.
  destruct (c =? 38)%N eqn:E38; [apply N.eqb_eq in E38; tauto|].
  destruct (c =? 160)%N eqn:E160; [apply N.eqb_eq in E160; tauto|].
  destruct (c =? 60)%N eqn:E60; [apply N.eqb_eq in E60; tauto|].
  destruct (c =? 62)%N eqn:E62; [apply N.eqb_eq in E62; tauto|].
  repeat right. repeat split.
Qed.

Lemma unescape_serialize (text : list N) : forall fuel,
  (List.length text <= fuel)%nat ->
  unescape fuel (serialize_text text) = text.
Proof.
  unfold serialize_text.
  induction text as [|c text IH]; intros fuel Hf.
  - destruct fuel; reflexivity.
  - destruct fuel as [|fuel]; [simpl in Hf; lia|].
    cbn [flat_map]. cbn [List.length] in Hf.
    assert (IH' := IH fuel ltac:(lia)).
    destruct (escape_unit_cases c) as [[-> ->]|[[-> ->]|[[-> ->]|[[-> ->]|[H38 [H60 [_ ->]]]]]]];
      try (cbn; rewrite IH'; reflexivity).
    cbn [app]. rewrite (unescape_other _ _ _ H38 H60), IH'. reflexivity.
Qed.

Lemma serialize_length (text : list N) :
  (List.length text <= List.length (serialize_text text))%nat.
Proof.
  unfold serialize_text.
  induction text as [|c text IH]; [simpl; lia|].
  cbn [flat_map]. rewrite length_app. cbn [List.length].
  destruct (escape_unit_cases c) as [[_ ->]|[[_ ->]|[[_ ->]|[[_ ->]|[_ [_ [_ ->]]]]]]];
    simpl; lia.
Qed.

(** X4.  [escapeHtml] of [admin.js] returns a text with no [<] and no
    [>], from which the original is read back; two texts with the same
    escaped form are equal. *)
Theorem admin_escapeHtml_markup_free (text : list N) :
  occurrences 60 (Admin.escapeHtml text) = O
  /\ occurrences 62 (Admin.escapeHtml text) = O
  /\ unescapeHtml (Admin.escapeHtml text) = text
  /\ (forall text', Admin.escapeHtml text = Admin.escapeHtml text' -> text = text').
Proof.
  assert (Hinv : forall t, unescapeHtml (Admin.escapeHtml t) = t).
  { intros t. unfold unescapeHtml, Admin.escapeHtml.
    apply unescape_serialize, serialize_length. }
  unfold Admin.escapeHtml, occurrences, serialize_text.
  split; [|split; [|split]].
  - induction text as [|c text IH]; [reflexivity|].
    cbn [flat_map]. rewrite filter_app, length_app, IH.
    destruct (escape_unit_cases c) as [[-> ->]|[[-> ->]|[[-> ->]|[[-> ->]|[_ [H60 [_ ->]]]]]]];
      try reflexivity.
    cbn [filter]. rewrite (N.eqb_sym 60 c), H60. reflexivity.
  - induction text as [|c text IH]; [reflexivity|].
    cbn [flat_map]. rewrite filter_app, length_app, IH.
    destruct (escape_unit_cases c) as [[-> ->]|[[-> ->]|[[-> ->]|[[-> ->]|[_ [_ [H62 ->]]]]]]];
      try reflexivity.
    cbn [filter]. rewrite (N.eqb_sym 62 c), H62. reflexivity.
  - apply (Hinv text).
  - intros text' H. rewrite <- (Hinv text), <- (Hinv text').
    unfold Admin.escapeHtml, serialize_text. rewrite H. reflexivity.
Qed.


(** ** Reviewer email *)

Lemma jsstring_eqb_eq (a b : list N) : JsString.eqb a b = true <-> a = b.
Proof.
  revert b; induction a as [|x a IH]; intros [|y b]; simpl; split; try discriminate;
    try reflexivity.
  - intros H. apply andb_prop in H as [H1 H2]. apply N.eqb_eq in H1. apply IH in H2.
    congruence.
  - intros [= -> ->]. rewrite N.eqb_refl. apply IH. reflexivity.
Qed.

Lemma ends_with_spec (s d : list N) :
  ends_with s d = true <-> exists p, s = p ++ d.
Proof.
  unfold ends_with. split.
  - intros H. apply andb_prop in H as [_ H]. apply jsstring_eqb_eq in H.
    exists (firstn (List.length s - List.length d) s).
    pose proof (firstn_skipn (List.length s - List.length d) s) as F.
    rewrite H in F. symmetry. exact F.
  - intros [p ->]. rewrite length_app.
    replace (List.length p + List.length d - List.length d)%nat with (List.length p) by lia.
    rewrite skipn_app, skipn_all, Nat.sub_diag. cbn [app skipn].
    apply andb_true_intro. split; [apply Nat.leb_le; lia|apply jsstring_eqb_eq; reflexivity].
Qed.

Lemma lower_upper (c : N) : lower_cu (upper_cu c) = lower_cu c.
Proof.
  unfold upper_cu. destruct (is_lower c) eqn:E; [|reflexivity].
  unfold is_lower in E. apply andb_prop in E as [E1 E2]. apply N.leb_le in E1, E2.
  unfold lower_cu.
  assert (H1 : is_upper (c - 32) = true).
  { unfold is_upper. apply andb_true_intro. split; apply N.leb_le; lia. }
  assert (H2 : is_upper c = false).
  { unfold is_upper. replace (c <=? 90)%N with false; [apply andb_false_r|].
    symmetry. apply N.leb_gt. lia. }
  rewrite H1, H2. lia.
Qed.

Lemma toLowerCase_upper_units (s : list N) :
  toLowerCase (map upper_cu s) = toLowerCase s.
Proof.
  unfold toLowerCase. rewrite map_map.
  apply map_ext. apply lower_upper.
Qed.

(** X5.  An email is accepted exactly when its lower-cased text ends in
    [@turing.com]: whatever stands before the domain is accepted, nothing
    at all included, and writing the letters a-z in upper case changes
    nothing. *)
Theorem isValidReviewerEmail_spec (value : list N) :
  (isValidReviewerEmail value = true
   <-> exists local, toLowerCase value = local ++ REVIEWER_EMAIL_DOMAIN)
  /\ isValidReviewerEmail (map upper_cu value) = isValidReviewerEmail value
  /\ isValidReviewerEmail REVIEWER_EMAIL_DOMAIN = true
  /\ isValidReviewerEmail [] = false.
Proof.
  assert (Hv : forall v, isValidReviewerEmail v
                         = ends_with (toLowerCase v) REVIEWER_EMAIL_DOMAIN).
  { intros [|c v]; reflexivity. }
  split; [rewrite Hv; apply ends_with_spec|].
  split; [rewrite !Hv, toLowerCase_upper_units; reflexivity|].
  split; reflexivity.
Qed.

Lemma trim_start_fixed (s : list N) :
  match s with c :: _ => is_space c = false | [] => True end ->
  trim_start s = s.
Proof. destruct s as [|c s]; [reflexivity|]. simpl. intros ->. reflexivity. Qed.

Lemma trim_start_head (s : list N) :
  match trim_start s with c :: _ => is_space c = false | [] => True end.
Proof.
  induction s as [|c s IH]; [exact I|]. simpl.
  destruct (is_space c) eqn:E; [exact IH|exact E].
Qed.

Lemma trim_start_keeps_last (u : list N) (c : N) :
  is_space c = false -> exists w, trim_start (u ++ [c]) = w ++ [c].
Proof.
  intros Hc. induction u as [|a u IH]; simpl.
  - rewrite Hc. exists []. reflexivity.
  - destruct (is_space a); [exact IH|]. exists (a :: u). reflexivity.
Qed.

Lemma trim_end_head (s : list N) :
  match s with c :: _ => is_space c = false | [] => True end ->
  match trim_end s with c :: _ => is_space c = false | [] => True end.
Proof.
  destruct s as [|c s]; [intros _; exact I|]. intros Hc.
  unfold trim_end. cbn [rev].
  destruct (trim_start_keeps_last (rev s) c Hc) as [w ->].
  rewrite rev_app_distr. exact Hc.
Qed.

Lemma trim_idempotent (s : list N) : trim (trim s) = trim s.
Proof.
  unfold trim.
  rewrite (trim_start_fixed (trim_end (trim_start s)))
    by (apply trim_end_head, trim_start_head).
  unfold trim_end at 1. unfold trim_end. rewrite rev_involutive.
  rewrite (trim_start_fixed (trim_start (rev (trim_start s))))
    by apply trim_start_head.
  reflexivity.
Qed.

Lemma isValid_nonempty (v : list N) :
  isValidReviewerEmail v = true -> truthy (VString v) = true.
Proof. destruct v; [discriminate|reflexivity]. Qed.

(** X6.  What the save buttons store is valid and is read back as it was
    stored: after [handleSaveEmailClick], [loadReviewerEmail] yields the
    trimmed input when that is a valid email (and no error is shown), and
    what it yielded before otherwise (with the error shown). *)
Theorem saved_email_is_valid (input : list N) (store : email_store) :
  loadReviewerEmail (fst (handleSaveEmailClick input store))
  = (if isValidReviewerEmail (trim input) then Some (trim input)
     else loadReviewerEmail store)
  /\ snd (handleSaveEmailClick input store) = negb (isValidReviewerEmail (trim input))
  /\ (fst (handleSaveEmailClick input store) = store
      \/ exists email, fst (handleSaveEmailClick input store) = Some email
                       /\ isValidReviewerEmail email = true).
Proof.
  unfold handleSaveEmailClick, persistReviewerEmail.
  destruct (isValidReviewerEmail (trim input)) eqn:E; cbn [negb fst snd].
  - rewrite trim_idempotent. cbn [loadReviewerEmail].
    rewrite (isValid_nonempty _ E), trim_idempotent.
    split; [reflexivity|]. split; [reflexivity|].
    right. exists (trim input). split; [reflexivity|exact E].
  - split; [reflexivity|]. split; [reflexivity|]. left. reflexivity.
Qed.

(** X7.  [persistReviewerEmail] followed by [loadReviewerEmail] gives the
    trimmed value back, except that a blank value is stored as the empty
    string and read back as [null]; [getReviewerEmail] prefers a
    non-blank input to the stored email. *)
Theorem persist_then_load (value : list N) (store : email_store) :
  loadReviewerEmail (persistReviewerEmail value store)
  = (match trim value with [] => None | _ => Some (trim value) end)
  /\ (forall input,
        trim input <> [] ->
        getReviewerEmail (Some input) store = Some (trim input))
  /\ (forall input,
        trim input = [] ->
        getReviewerEmail (Some input) (persistReviewerEmail value store)
        = loadReviewerEmail (persistReviewerEmail value store)).
Proof.
  split; [|split].
  - unfold persistReviewerEmail, loadReviewerEmail.
    destruct (trim value) as [|c t] eqn:E; [reflexivity|].
    cbn [truthy]. rewrite <- E, trim_idempotent. reflexivity.
  - intros input H. unfold getReviewerEmail.
    destruct (trim input); [congruence|reflexivity].
  - intros input H. unfold getReviewerEmail. rewrite H. reflexivity.
Qed.


(** ** Own properties: insert and lookup *)

Lemma jsstring_eqb_refl (a : list N) : JsString.eqb a a = true.
Proof. apply jsstring_eqb_eq. reflexivity. Qed.

Lemma jsstring_eqb_neq (a b : list N) : a <> b -> JsString.eqb a b = false.
Proof.
  intros H. destruct (JsString.eqb a b) eqn:E; [|reflexivity].
  apply jsstring_eqb_eq in E. contradiction.
Qed.

Lemma lookup_set_prop_same (k : list N) (v : value) (props : list (list N * value)) :
  lookup k (set_prop k v props) = Some v.
Proof.
  induction props as [|[k' v'] props IH]; simpl.
  - rewrite jsstring_eqb_refl. reflexivity.
  - destruct (JsString.eqb k' k) eqn:E; simpl; rewrite E; [reflexivity|exact IH].
Qed.

Lemma lookup_set_prop_other (k k' : list N) (v : value) (props : list (list N * value)) :
  k' <> k -> lookup k' (set_prop k v props) = lookup k' props.
Proof.
  intros Hne. induction props as [|[k0 v0] props IH]; simpl.
  - rewrite (jsstring_eqb_neq k k') by congruence. reflexivity.
  - destruct (JsString.eqb k0 k) eqn:E; simpl.
    + apply jsstring_eqb_eq in E. subst k0.
      rewrite (jsstring_eqb_neq k k') by congruence. reflexivity.
    + destruct (JsString.eqb k0 k'); [reflexivity|exact IH].
Qed.

Lemma set_prop_keys (k : list N) (v : value) (props : list (list N * value)) :
  map fst (set_prop k v props)
  = if existsb (fun e => JsString.eqb (fst e) k) props then map fst props
    else map fst props ++ [k].
Proof.
  induction props as [|[k' v'] props IH]; [reflexivity|]. simpl.
  destruct (JsString.eqb k' k) eqn:E; simpl; [reflexivity|].
  rewrite IH. destruct (existsb _ props); reflexivity.
Qed.

Lemma existsb_key_In (k : list N) (props : list (list N * value)) :
  existsb (fun e => JsString.eqb (fst e) k) props = true <-> In k (map fst props).
Proof.
  induction props as [|[k' v'] props IH]; simpl; [split; [discriminate|tauto]|].
  rewrite orb_true_iff, IH, jsstring_eqb_eq. tauto.
Qed.

Lemma set_prop_NoDup (k : list N) (v : value) (props : list (list N * value)) :
  NoDup (map fst props) -> NoDup (map fst (set_prop k v props)).
Proof.
  intros H. rewrite set_prop_keys.
  destruct (existsb _ props) eqn:E; [exact H|].
  apply NoDup_app; [exact H|repeat constructor; intros []|].
  intros x Hx [<-|[]].
  apply existsb_key_In in Hx. congruence.
Qed.

Lemma lookup_In (k : list N) (v : value) (props : list (list N * value)) :
  NoDup (map fst props) -> (lookup k props = Some v <-> In (k, v) props).
Proof.
  induction props as [|[k' v'] props IH]; simpl; intros Hnd.
  - split; [discriminate|tauto].
  - inversion Hnd as [|? ? Hnot Hnd']; subst.
    destruct (JsString.eqb k' k) eqn:E.
    + apply jsstring_eqb_eq in E. subst k'. split.
      * intros [= ->]. left. reflexivity.
      * intros [[= ->]|Hin]; [reflexivity|].
        exfalso. apply Hnot. apply (in_map fst) in Hin. exact Hin.
    + rewrite (IH Hnd'). split; [tauto|].
      intros [[= -> ->]|Hin]; [|exact Hin].
      rewrite jsstring_eqb_refl in E. discriminate.
Qed.

Lemma lookup_ext (k : list N) (l1 l2 : list (list N * value)) :
  NoDup (map fst l1) -> NoDup (map fst l2) ->
  (forall e, In e l1 <-> In e l2) ->
  lookup k l1 = lookup k l2.
Proof.
  intros H1 H2 H.
  destruct (lookup k l1) as [v|] eqn:E1.
  - symmetry. apply (lookup_In k v l2 H2), H, (lookup_In k v l1 H1), E1.
  - destruct (lookup k l2) as [v|] eqn:E2; [|reflexivity].
    apply (lookup_In k v l2 H2), H, (lookup_In k v l1 H1) in E2. congruence.
Qed.

(** [Object.entries] lists the own properties, each once. *)
Lemma filter_partition_perm {A} (p : A -> bool) (l : list A) :
  Permutation (filter p l ++ filter (fun x => negb (p x)) l) l.
Proof.
  induction l as [|x l IH]; [apply Permutation_refl|]. cbn [filter].
  destruct (p x); cbn [negb app]; [apply perm_skip, IH|].
  eapply Permutation_trans; [apply Permutation_sym, Permutation_middle|apply perm_skip, IH].
Qed.

Lemma own_entries_perm (props : list (list N * value)) :
  Permutation (own_entries props) props.
Proof.
  unfold own_entries.
  eapply Permutation_trans; [apply Permutation_app_tail, index_entries_perm|].
  apply filter_partition_perm.
Qed.

Lemma own_entries_NoDup (props : list (list N * value)) :
  NoDup (map fst props) -> NoDup (map fst (own_entries props)).
Proof.
  intros H. eapply Permutation_NoDup; [|exact H].
  apply Permutation_map, Permutation_sym, own_entries_perm.
Qed.

Lemma lookup_own_entries (k : list N) (props : list (list N * value)) :
  NoDup (map fst props) -> lookup k (own_entries props) = lookup k props.
Proof.
  intros H. apply lookup_ext; [apply own_entries_NoDup; exact H|exact H|].
  intros e. split; apply Permutation_in;
    [apply own_entries_perm|apply Permutation_sym, own_entries_perm].
Qed.

Lemma object_of_acc (entries acc : list (list N * value)) :
  NoDup (map fst acc) ->
  NoDup (map fst (fold_left (fun a e => set_prop (fst e) (snd e) a) entries acc))
  /\ forall k,
       lookup k (fold_left (fun a e => set_prop (fst e) (snd e) a) entries acc)
       = match lookup k (rev entries) with
         | Some v => Some v
         | None => lookup k acc
         end.
Proof.
  revert acc. induction entries as [|[k0 v0] entries IH]; intros acc Hacc.
  - split; [exact Hacc|reflexivity].
  - cbn [fold_left fst snd].
    destruct (IH (set_prop k0 v0 acc) (set_prop_NoDup k0 v0 acc Hacc)) as [Hnd Hl].
    split; [exact Hnd|]. intros k. rewrite Hl. cbn [rev].
    assert (Hrev : forall l, lookup k (l ++ [(k0, v0)])
                             = match lookup k l with
                               | Some v => Some v
                               | None => if JsString.eqb k0 k then Some v0 else None
                               end).
    { induction l as [|[a b] l IHl]; simpl; [reflexivity|].
      destruct (JsString.eqb a k); [reflexivity|exact IHl]. }
    rewrite Hrev. destruct (lookup k (rev entries)); [reflexivity|].
    destruct (JsString.eqb k0 k) eqn:E.
    + apply jsstring_eqb_eq in E. subst k0. apply lookup_set_prop_same.
    + apply lookup_set_prop_other. intros ->. rewrite jsstring_eqb_refl in E. discriminate.
Qed.

(** A spread of an object with distinct keys copies every property. *)
Lemma lookup_object_of_spread (k : list N) (props : list (list N * value)) :
  NoDup (map fst props) ->
  NoDup (map fst (object_of (spread (VObject props))))
  /\ lookup k (object_of (spread (VObject props))) = lookup k props.
Proof.
  intros H. unfold object_of, spread.
  destruct (object_of_acc (own_entries props) [] (NoDup_nil _)) as [Hnd Hl].
  split; [exact Hnd|]. rewrite Hl. cbn [lookup].
  pose proof (own_entries_NoDup props H) as Hnd'.
  assert (Hrev : lookup k (rev (own_entries props)) = lookup k (own_entries props)).
  { apply lookup_ext.
    - rewrite map_rev. eapply Permutation_NoDup; [apply Permutation_rev|exact Hnd'].
    - exact Hnd'.
    - intros e. rewrite <- in_rev. tauto. }
  rewrite Hrev, (lookup_own_entries k props H).
  destruct (lookup k props); reflexivity.
Qed.


(** ** [apiFetch] *)

(** X8.  [apiFetch] fails only for [options = null] (reading [headers] of
    [null]); in every other case, whatever [options] is, it calls [fetch]
    with the given URL and an init object whose [headers] property is an
    object that has [ngrok-skip-browser-warning] set to ["1"]. *)
Theorem apiFetch_adds_header (url options : value) :
  match apiFetch url options with
  | Ret (u, VObject init) =>
      u = url /\ options <> VNull
      /\ exists headers,
           lookup (str "headers") init = Some (VObject headers)
           /\ lookup ngrok_header headers = Some (VString (str "1"))
  | Ret _ => False
  | Throw e => e = TypeError /\ options = VNull
  end.
Proof.
  assert (Hfin : forall h opts,
            options <> VNull ->
            url = url /\ options <> VNull
            /\ exists headers,
                 lookup (str "headers")
                   (set_prop (str "headers")
                      (VObject (set_prop ngrok_header (VString (str "1")) h)) opts)
                 = Some (VObject headers)
                 /\ lookup ngrok_header headers = Some (VString (str "1"))).
  { intros h opts Hn. split; [reflexivity|split; [exact Hn|]].
    eexists. split; apply lookup_set_prop_same. }
  unfold apiFetch.
  destruct options as [| |b|x|s|l|props]; cbn [is_undefined get lookup bind].
  - apply Hfin. discriminate.
  - split; reflexivity.
  - apply Hfin. discriminate.
  - apply Hfin. discriminate.
  - destruct (JsString.eqb (str "headers") (str "length")); cbn [bind];
      [apply Hfin; discriminate|].
    destruct (array_index (str "headers")) as [i|];
      [destruct (nth_error s (N.to_nat i))|]; cbn [bind]; apply Hfin; discriminate.
  - destruct (JsString.eqb (str "headers") (str "length")); cbn [bind];
      [apply Hfin; discriminate|].
    destruct (array_index (str "headers")) as [i|];
      [destruct (nth_error l (N.to_nat i))|]; cbn [bind]; apply Hfin; discriminate.
  - destruct (lookup (str "headers") props); cbn [bind]; apply Hfin; discriminate.
Qed.

(** X9.  For an options object (with distinct property names, as every
    object has): every option other than [headers] reaches [fetch]
    unchanged and no other is added; when [options.headers] is an object,
    every header of it other than [ngrok-skip-browser-warning] is kept and
    no other is added; when there is no [headers] option, the headers are
    exactly the one that [apiFetch] adds. *)
Theorem apiFetch_preserves (url : value) (oprops : list (list N * value))
  (Hnd : NoDup (map fst oprops)) :
  exists init headers,
    apiFetch url (VObject oprops) = Ret (url, VObject init)
    /\ lookup (str "headers") init = Some (VObject headers)
    /\ (forall k, k <> str "headers" -> lookup k init = lookup k oprops)
    /\ (forall hprops,
          lookup (str "headers") oprops = Some (VObject hprops) ->
          NoDup (map fst hprops) ->
          forall k, k <> ngrok_header -> lookup k headers = lookup k hprops)
    /\ (lookup (str "headers") oprops = None ->
        headers = [(ngrok_header, VString (str "1"))]).
Proof.
  set (h := match lookup (str "headers") oprops with
            | Some x => x
            | None => VUndefined
            end).
  assert (E : get (VObject oprops) (str "headers") = Ret h).
  { unfold h. cbn [get]. destruct (lookup (str "headers") oprops); reflexivity. }
  unfold apiFetch. cbn [is_undefined]. rewrite E. cbn [bind].
  eexists. eexists. split; [reflexivity|].
  split; [apply lookup_set_prop_same|]. split; [|split].
  - intros k Hk. rewrite lookup_set_prop_other by exact Hk.
    apply lookup_object_of_spread; exact Hnd.
  - intros hprops Hh Hhnd k Hk. unfold h. rewrite Hh.
    rewrite lookup_set_prop_other by exact Hk.
    unfold or_else. cbn [truthy].
    apply lookup_object_of_spread; exact Hhnd.
  - intros Hh. unfold h. rewrite Hh. reflexivity.
Qed.

Lemma apiFetch_preserves_witness :
  NoDup (map fst [(str "method", VString (str "POST"));
                  (str "headers", VObject [(str "Accept", VString (str "*/*"))])])
  /\ exists init headers,
       apiFetch (VString (str "/api/evaluate"))
         (VObject [(str "method", VString (str "POST"));
                   (str "headers", VObject [(str "Accept", VString (str "*/*"))])])
       = Ret (VString (str "/api/evaluate"), VObject init)
       /\ lookup (str "headers") init = Some (VObject headers)
       /\ lookup (str "method") init = Some (VString (str "POST"))
       /\ lookup (str "Accept") headers = Some (VString (str "*/*")).
Proof.
  assert (Hnd : NoDup (map fst [(str "method", VString (str "POST"));
                  (str "headers", VObject [(str "Accept", VString (str "*/*"))])])).
  { repeat constructor; simpl; intuition discriminate. }
  split; [exact Hnd|].
  destruct (apiFetch_preserves (VString (str "/api/evaluate")) _ Hnd)
    as (init & headers & H1 & H2 & H3 & H4 & _).
  exists init, headers. split; [exact H1|]. split; [exact H2|]. split.
  - rewrite H3 by discriminate. reflexivity.
  - rewrite (H4 [(str "Accept", VString (str "*/*"))]).
    + reflexivity.
    + reflexivity.
    + repeat constructor; simpl; intuition.
    + discriminate.
Defined.


(** ** [renderGroupedByReviewer] *)

Lemma reviewer_of_trimmed (item : value) (k : list N) :
  Admin.reviewer_of item = Ret k -> k <> [] /\ trim k = k.
Proof.
  unfold Admin.reviewer_of.
  destruct (get item (str "reviewer_email")) as [email|e]; cbn [bind]; [|discriminate].
  destruct (or_else email (VString (str "Unknown"))); try discriminate.
  intros [= <-]. destruct (trim s) as [|c t] eqn:E; cbn [truthy].
  - split; [discriminate|reflexivity].
  - split; [discriminate|]. rewrite <- E. apply trim_idempotent.
Qed.

Lemma In_set_prop (k : list N) (v : value) (acc : list (list N * value))
  (e : list N * value) :
  NoDup (map fst acc) ->
  In e (set_prop k v acc) -> e = (k, v) \/ (fst e <> k /\ In e acc).
Proof.
  induction acc as [|[k' v'] acc IH]; cbn [set_prop map fst]; intros Hnd Hin.
  - destruct Hin as [<-|[]]. left. reflexivity.
  - inversion Hnd as [|? ? Hnot Hnd']; subst.
    destruct (JsString.eqb k' k) eqn:E.
    + apply jsstring_eqb_eq in E. subst k'.
      destruct Hin as [<-|Hin]; [left; reflexivity|].
      right. split; [|right; exact Hin].
      intros <-. apply Hnot, in_map, Hin.
    + destruct Hin as [<-|Hin].
      * right. split; [|left; reflexivity].
        cbn [fst]. intros ->. rewrite jsstring_eqb_refl in E. discriminate.
      * destruct (IH Hnd' Hin) as [->|[Hne Hin']]; [left; reflexivity|].
        right. split; [exact Hne|right; exact Hin'].
Qed.

Lemma group_items_push (k : list N) (items : list value) (item : value)
  (acc : list (list N * value)) :
  lookup k acc = Some (VArray items) ->
  Permutation
    (flat_map group_items (set_prop k (VArray (items ++ [item])) acc))
    (flat_map group_items acc ++ [item]).
Proof.
  induction acc as [|[k' v'] acc IH]; cbn [lookup set_prop]; [discriminate|].
  destruct (JsString.eqb k' k) eqn:E.
  - intros [= ->]. cbn [flat_map group_items snd].
    rewrite <- !app_assoc. apply Permutation_app_head.
    apply Permutation_app_comm.
  - intros H. cbn [flat_map]. rewrite <- app_assoc.
    apply Permutation_app_head, IH, H.
Qed.

Lemma group_items_new (k : list N) (item : value) (acc : list (list N * value)) :
  lookup k acc = None ->
  flat_map group_items (set_prop k (VArray [item]) acc)
  = flat_map group_items acc ++ [item].
Proof.
  induction acc as [|[k' v'] acc IH]; cbn [lookup set_prop]; [reflexivity|].
  destruct (JsString.eqb k' k) eqn:E; [discriminate|].
  intros H. cbn [flat_map]. rewrite IH by exact H. apply app_assoc.
Qed.

Lemma lookup_None_keys (k : list N) (acc : list (list N * value)) :
  lookup k acc = None -> ~ In k (map fst acc).
Proof.
  induction acc as [|[k' v'] acc IH]; cbn [lookup map fst]; [tauto|].
  destruct (JsString.eqb k' k) eqn:E; [discriminate|].
  intros H [->|Hin]; [rewrite jsstring_eqb_refl in E; discriminate|].
  exact (IH H Hin).
Qed.

Lemma reviewed_by_spec (k : list N) (item : value) :
  reviewed_by k item = true <-> Admin.reviewer_of item = Ret k.
Proof.
  unfold reviewed_by. destruct (Admin.reviewer_of item) as [k'|e].
  - rewrite jsstring_eqb_eq. split; congruence.
  - split; discriminate.
Qed.

Lemma reviewed_by_other (r k : list N) (item : value) :
  Admin.reviewer_of item = Ret r -> k <> r -> reviewed_by k item = false.
Proof.
  intros Hr Hne. destruct (reviewed_by k item) eqn:E; [|reflexivity].
  apply reviewed_by_spec in E. congruence.
Qed.

Lemma filter_nil_iff {A} (p : A -> bool) (l : list A) :
  (forall x, In x l -> p x = false) -> filter p l = [].
Proof.
  induction l as [|x l IH]; [reflexivity|]. intros H. cbn [filter].
  rewrite (H x (or_introl eq_refl)). apply IH. intros y Hy. apply H. right. exact Hy.
Qed.

(** One step of the reduction keeps the accumulator a grouping of the
    evaluations reduced so far. *)
Lemma group_step_grouped (processed : list value) (acc : list (list N * value))
  (item : value) :
  grouped_as processed acc ->
  match Admin.group_step acc item with
  | Ret acc' => groupable item = true /\ grouped_as (processed ++ [item]) acc'
  | Throw e => e = TypeError /\ groupable item = false
  end.
Proof.
  intros (Hnd & Hall & Hperm).
  unfold Admin.group_step, groupable.
  destruct (Admin.reviewer_of item) as [r|e] eqn:Er; cbn [bind].
  2:{ split; [|reflexivity]. revert Er. unfold Admin.reviewer_of.
      destruct (get item (str "reviewer_email")) as [email|e'] eqn:Eg; cbn [bind].
      - destruct (or_else email _); congruence.
      - intros [= <-]. destruct item; cbn [get] in Eg; try congruence;
          repeat match type of Eg with
                 | context [match ?x with _ => _ end] => destruct x
                 | context [if ?x then _ else _] => destruct x
                 end; congruence. }
  destruct (reviewer_of_trimmed item r Er) as [Hr1 Hr2].
  assert (Hby : reviewed_by r item = true) by (apply reviewed_by_spec; exact Er).
  destruct (lookup r acc) as [v|] eqn:El.
  - pose proof (proj1 (lookup_In r v acc Hnd) El) as Hin.
    destruct (Hall r v Hin) as (Hv & Hne & Hinh & _).
    rewrite Hv. rewrite Hinh. split; [reflexivity|].
    rewrite Hv in El.
    split; [apply set_prop_NoDup; exact Hnd|]. split.
    + intros k v' Hin'.
      destruct (In_set_prop _ _ _ _ Hnd Hin') as [[= -> ->]|[Hk Hin'']].
      * rewrite filter_app. cbn [filter]. rewrite Hby.
        split; [reflexivity|]. split; [|auto].
        intros H. apply app_eq_nil in H. destruct H; discriminate.
      * cbn [fst] in Hk.
        destruct (Hall k v' Hin'') as (Hv' & Hne' & Hrest).
        rewrite filter_app. cbn [filter].
        rewrite (reviewed_by_other r k item Er Hk), app_nil_r. auto.
    + eapply Permutation_trans; [apply group_items_push; exact El|].
      apply Permutation_app_tail, Hperm.
  - destruct (Admin.inherited r) eqn:Ei; [split; reflexivity|].
    split; [reflexivity|].
    split; [apply set_prop_NoDup; exact Hnd|]. split.
    + intros k v' Hin'.
      destruct (In_set_prop _ _ _ _ Hnd Hin') as [[= -> ->]|[Hk Hin'']].
      * rewrite filter_app. cbn [filter]. rewrite Hby.
        assert (Hnone : filter (reviewed_by r) processed = []).
        { apply filter_nil_iff. intros x Hx.
          destruct (reviewed_by r x) eqn:Ex; [|reflexivity]. exfalso.
          apply (Permutation_in _ (Permutation_sym Hperm)) in Hx.
          apply in_flat_map in Hx. destruct Hx as ([k0 v0] & Hin0 & Hx0).
          destruct (Hall k0 v0 Hin0) as (Hv0 & _).
          unfold group_items in Hx0. cbn [snd] in Hx0. rewrite Hv0 in Hx0.
          apply filter_In in Hx0. destruct Hx0 as [_ Hx0].
          apply reviewed_by_spec in Hx0. apply reviewed_by_spec in Ex.
          assert (k0 = r) by congruence. subst k0.
          apply (lookup_None_keys r acc El).
          apply (in_map fst) in Hin0. exact Hin0. }
        rewrite Hnone. split; [reflexivity|]. split; [discriminate|auto].
      * cbn [fst] in Hk.
        destruct (Hall k v' Hin'') as (Hv' & Hne' & Hrest).
        rewrite filter_app. cbn [filter].
        rewrite (reviewed_by_other r k item Er Hk), app_nil_r. auto.
    + rewrite group_items_new by exact El.
      apply Permutation_app_tail, Hperm.
Qed.

Lemma reduce_groups_grouped (results processed : list value)
  (acc : list (list N * value)) :
  grouped_as processed acc ->
  match Admin.reduce_groups acc results with
  | Ret final =>
      forallb groupable results = true /\ grouped_as (processed ++ results) final
  | Throw e => e = TypeError /\ forallb groupable results = false
  end.
Proof.
  revert processed acc.
  induction results as [|item results IH]; intros processed acc Hacc.
  - cbn [Admin.reduce_groups forallb]. rewrite app_nil_r. split; [reflexivity|exact Hacc].
  - cbn [Admin.reduce_groups forallb].
    pose proof (group_step_grouped processed acc item Hacc) as Hs.
    destruct (Admin.group_step acc item) as [acc'|e]; cbn [bind].
    + destruct Hs as [Hg Hacc']. rewrite Hg. cbn [andb].
      specialize (IH (processed ++ [item]) acc' Hacc').
      rewrite <- app_assoc in IH. exact IH.
    + destruct Hs as [-> Hg]. rewrite Hg. split; reflexivity.
Qed.

Lemma grouped_as_nil : grouped_as [] [].
Proof.
  split; [constructor|]. split; [intros k v []|apply Permutation_refl].
Qed.

Lemma insert_group_perm (e : list N * value) (l : list (list N * value)) :
  Permutation (Admin.insert_group e l) (e :: l).
Proof.
  induction l as [|e' l IH]; cbn [Admin.insert_group]; [apply Permutation_refl|].
  destruct (Admin.count_of e' <=? Admin.count_of e)%nat; [apply Permutation_refl|].
  eapply Permutation_trans; [apply perm_skip, IH|apply perm_swap].
Qed.

Lemma sort_groups_perm (l : list (list N * value)) :
  Permutation (Admin.sort_groups l) l.
Proof.
  induction l as [|e l IH]; cbn [Admin.sort_groups]; [apply Permutation_refl|].
  eapply Permutation_trans; [apply insert_group_perm|apply perm_skip, IH].
Qed.

Lemma insert_group_sorted (e : list N * value) (l : list (list N * value)) :
  StronglySorted (fun a b => (Admin.count_of b <= Admin.count_of a)%nat) l ->
  StronglySorted (fun a b => (Admin.count_of b <= Admin.count_of a)%nat)
    (Admin.insert_group e l).
Proof.
  induction l as [|e' l IH]; cbn [Admin.insert_group]; intros Hs.
  - repeat constructor.
  - inversion Hs as [|? ? Hs' Hall]; subst.
    destruct (Admin.count_of e' <=? Admin.count_of e)%nat eqn:E.
    + apply Nat.leb_le in E. constructor; [exact Hs|].
      constructor; [exact E|].
      eapply Forall_impl; [|exact Hall]. cbv beta. intros a Ha. lia.
    + apply Nat.leb_gt in E. constructor; [apply IH, Hs'|].
      eapply Permutation_Forall; [apply Permutation_sym, insert_group_perm|].
      constructor; [lia|exact Hall].
Qed.

Lemma sort_groups_sorted (l : list (list N * value)) :
  StronglySorted (fun a b => (Admin.count_of b <= Admin.count_of a)%nat)
    (Admin.sort_groups l).
Proof.
  induction l as [|e l IH]; cbn [Admin.sort_groups]; [constructor|].
  apply insert_group_sorted, IH.
Qed.

(** The sort keeps entries of equal count in their previous order. *)
Lemma insert_group_stable (n : nat) (e : list N * value) (l : list (list N * value)) :
  filter (fun x => Nat.eqb (Admin.count_of x) n) (Admin.insert_group e l)
  = filter (fun x => Nat.eqb (Admin.count_of x) n) (e :: l).
Proof.
  induction l as [|e' l IH]; cbn [Admin.insert_group]; [reflexivity|].
  destruct (Admin.count_of e' <=? Admin.count_of e)%nat eqn:E; [reflexivity|].
  apply Nat.leb_gt in E. cbn [filter] in *. rewrite IH.
  destruct (Nat.eqb (Admin.count_of e') n) eqn:E1;
    destruct (Nat.eqb (Admin.count_of e) n) eqn:E2; try reflexivity.
  apply Nat.eqb_eq in E1, E2. lia.
Qed.

Lemma sort_groups_stable (n : nat) (l : list (list N * value)) :
  filter (fun x => Nat.eqb (Admin.count_of x) n) (Admin.sort_groups l)
  = filter (fun x => Nat.eqb (Admin.count_of x) n) l.
Proof.
  induction l as [|e l IH]; cbn [Admin.sort_groups]; [reflexivity|].
  rewrite insert_group_stable. cbn [filter]. rewrite IH. reflexivity.
Qed.

Lemma forallb_perm {A} (p : A -> bool) (l l' : list A) :
  Permutation l l' -> forallb p l = forallb p l'.
Proof.
  induction 1 as [|x l l' _ IH|x y l|l l' l'' _ IH1 _ IH2]; cbn [forallb].
  - reflexivity.
  - rewrite IH. reflexivity.
  - destruct (p x), (p y); reflexivity.
  - rewrite IH1. exact IH2.
Qed.

Lemma forallb_flat_map {A B} (p : B -> bool) (f : A -> list B) (l : list A) :
  forallb p (flat_map f l) = forallb (fun x => forallb p (f x)) l.
Proof.
  induction l as [|x l IH]; [reflexivity|].
  cbn [flat_map forallb]. rewrite forallb_app, IH. reflexivity.
Qed.

(** A sequence of checks completes exactly when each of them does. *)
Lemma map_outcome_checks {A} (f : A -> outcome unit) (p : A -> bool) (l : list A) :
  (forall x, In x l -> f x = if p x then Ret tt else Throw TypeError) ->
  match map_outcome f l with
  | Ret _ => forallb p l = true
  | Throw e => e = TypeError /\ forallb p l = false
  end.
Proof.
  induction l as [|x l IH]; intros Hf; cbn [map_outcome forallb]; [reflexivity|].
  rewrite (Hf x (or_introl eq_refl)).
  destruct (p x); cbn [bind andb]; [|split; reflexivity].
  specialize (IH (fun y Hy => Hf y (or_intror Hy))).
  destruct (map_outcome f l); cbn [bind]; exact IH.
Qed.

Lemma reviewer_of_not_nullish (item : value) (k : list N) :
  Admin.reviewer_of item = Ret k -> is_null item || is_undefined item = false.
Proof. destruct item; try reflexivity; discriminate. Qed.

Lemma task_item_listable (item : value) :
  is_null item || is_undefined item = false ->
  Admin.task_item item = if listable item then Ret tt else Throw TypeError.
Proof.
  intros Hn. unfold Admin.task_item, listable, Admin.formatDate, ToString, ToPrimitive.
  rewrite !(get_not_nullish _ _ Hn). cbn [bind].
  destruct (no_primitive (or_else _ _)); cbn [bind negb andb]; [reflexivity|].
  destruct (truthy (get_opt item (str "reviewed_at"))); cbn [negb andb];
    [|reflexivity].
  destruct (no_primitive (get_opt item (str "reviewed_at"))); reflexivity.
Qed.

(** The markup of the groups is built exactly when every evaluation is
    listable. *)
Lemma groups_markup (results : list value) (groups : list (list N * value)) :
  grouped_as results groups ->
  match map_outcome Admin.group_markup groups with
  | Ret _ => forallb listable results = true
  | Throw e => e = TypeError /\ forallb listable results = false
  end.
Proof.
  intros (_ & Hall & Hperm).
  rewrite <- (forallb_perm listable _ _ Hperm), forallb_flat_map.
  apply map_outcome_checks. intros [k v] Hin.
  destruct (Hall k v Hin) as (-> & _).
  unfold Admin.group_markup, group_items. cbn [snd].
  pose proof (map_outcome_checks Admin.task_item listable
                (filter (reviewed_by k) results)) as Hc.
  destruct (map_outcome Admin.task_item (filter (reviewed_by k) results)) as [u|e];
    cbn [bind].
  - rewrite Hc; [reflexivity|]. intros x Hx. apply task_item_listable.
    apply filter_In in Hx. destruct Hx as [_ Hx]. apply reviewed_by_spec in Hx.
    exact (reviewer_of_not_nullish _ _ Hx).
  - destruct Hc as [-> ->]; [|reflexivity]. intros x Hx. apply task_item_listable.
    apply filter_In in Hx. destruct Hx as [_ Hx]. apply reviewed_by_spec in Hx.
    exact (reviewer_of_not_nullish _ _ Hx).
Qed.

Lemma rendered_groups (results : list value) :
  match Admin.renderGroupedByReviewer results with
  | Ret groups =>
      forallb groupable results = true
      /\ forallb listable results = true
      /\ grouped_as results groups
      /\ StronglySorted (fun a b => (Admin.count_of b <= Admin.count_of a)%nat) groups
      /\ exists grouped,
           Admin.reduce_groups [] results = Ret grouped
           /\ groups = Admin.sort_groups (own_entries grouped)
  | Throw e =>
      e = TypeError
      /\ (forallb groupable results = false \/ forallb listable results = false)
  end.
Proof.
  unfold Admin.renderGroupedByReviewer.
  pose proof (reduce_groups_grouped results [] [] grouped_as_nil) as H.
  destruct (Admin.reduce_groups [] results) as [grouped|e]; cbn [bind];
    [|destruct H as [-> H]; split; [reflexivity|left; exact H]].
  cbn [app] in H. destruct H as (Hg & Hnd & Hall & Hperm).
  assert (P : Permutation (Admin.sort_groups (own_entries grouped)) grouped).
  { eapply Permutation_trans; [apply sort_groups_perm|apply own_entries_perm]. }
  assert (G : grouped_as results (Admin.sort_groups (own_entries grouped))).
  { split; [|split].
    - eapply Permutation_NoDup; [apply Permutation_map, Permutation_sym, P|exact Hnd].
    - intros k v Hin. apply Hall. eapply Permutation_in; [exact P|exact Hin].
    - eapply Permutation_trans; [apply Permutation_flat_map, P|exact Hperm]. }
  pose proof (groups_markup results _ G) as M.
  destruct (map_outcome Admin.group_markup _) as [u|e]; cbn [bind].
  - split; [exact Hg|]. split; [exact M|]. split; [exact G|].
    split; [apply sort_groups_sorted|]. exists grouped. split; reflexivity.
  - destruct M as [-> M]. split; [reflexivity|right; exact M].
Qed.

(** X10.  When [renderGroupedByReviewer] gets through its reduction, the
    groups it renders partition the evaluations by reviewer: group names
    are distinct, non-empty, trimmed and no property name of
    [Object.prototype]; the group of a name holds exactly the evaluations
    of that reviewer, in the order of the results, and at least one; and
    all groups together hold each evaluation once. *)
Theorem groups_partition_results (results : list value)
  (groups : list (list N * value))
  (H : Admin.renderGroupedByReviewer results = Ret groups) :
  NoDup (map fst groups)
  /\ (forall k v, In (k, v) groups ->
        v = VArray (filter (reviewed_by k) results)
        /\ filter (reviewed_by k) results <> []
        /\ Admin.inherited k = false /\ k <> [] /\ trim k = k)
  /\ Permutation (flat_map group_items groups) results
  /\ (forall item, In item results ->
        exists k, Admin.reviewer_of item = Ret k /\ In k (map fst groups)).
Proof.
  pose proof (rendered_groups results) as R. rewrite H in R.
  destruct R as (_ & _ & (Hnd & Hall & Hperm) & _).
  split; [exact Hnd|]. split; [exact Hall|]. split; [exact Hperm|].
  intros item Hin.
  apply (Permutation_in _ (Permutation_sym Hperm)) in Hin.
  apply in_flat_map in Hin. destruct Hin as ([k v] & Hin & Hitem).
  destruct (Hall k v Hin) as (Hv & _).
  unfold group_items in Hitem. cbn [snd] in Hitem. rewrite Hv in Hitem.
  apply filter_In in Hitem. destruct Hitem as [_ Hby].
  exists k. split; [apply reviewed_by_spec, Hby|].
  apply (in_map fst) in Hin. exact Hin.
Qed.

Lemma groups_partition_results_witness :
  let a := VObject [(str "task_id", VString (str "t1"));
                    (str "reviewer_email", VString (str "ann@turing.com"))] in
  let b := VObject [(str "task_id", VString (str "t2"));
                    (str "reviewer_email", VString (str "   "))] in
  let groups := [(str "ann@turing.com", VArray [a]); (str "Unknown", VArray [b])] in
  Admin.renderGroupedByReviewer [a; b] = Ret groups
  /\ Permutation (flat_map group_items groups) [a; b].
Proof.
  intros a b groups.
  assert (H : Admin.renderGroupedByReviewer [a; b] = Ret groups)
    by (vm_compute; reflexivity).
  split; [exact H|].
  exact (proj1 (proj2 (proj2 (groups_partition_results [a; b] groups H)))).
Defined.

(** X11.  The groups are rendered in order of non-increasing size, their
    sizes add up to the number of evaluations, and groups of equal size
    stay in the order in which [Object.entries] lists them. *)
Theorem groups_sorted_by_count (results : list value)
  (groups : list (list N * value))
  (H : Admin.renderGroupedByReviewer results = Ret groups) :
  StronglySorted (fun a b => (Admin.count_of b <= Admin.count_of a)%nat) groups
  /\ list_sum (map Admin.count_of groups) = List.length results
  /\ exists grouped,
       Admin.reduce_groups [] results = Ret grouped
       /\ forall n,
            filter (fun e => Nat.eqb (Admin.count_of e) n) groups
            = filter (fun e => Nat.eqb (Admin.count_of e) n) (own_entries grouped).
Proof.
  pose proof (rendered_groups results) as R. rewrite H in R.
  destruct R as (_ & _ & (_ & _ & Hperm) & Hs & (grouped & Hr & ->)).
  split; [exact Hs|]. split.
  - rewrite <- (Permutation_length Hperm), length_flat_map.
    f_equal. apply map_ext. intros [k v]. unfold Admin.count_of, group_items.
    cbn [snd]. destruct v; reflexivity.
  - exists grouped. split; [exact Hr|].
    intros n. apply sort_groups_stable.
Qed.

Lemma groups_sorted_by_count_witness :
  let a := VObject [(str "task_id", VString (str "t1"));
                    (str "reviewer_email", VString (str "ann@turing.com"))] in
  let b := VObject [(str "task_id", VString (str "t2"))] in
  let c := VObject [(str "task_id", VString (str "t3"));
                    (str "reviewer_email", VString (str " ann@turing.com "))] in
  let groups := [(str "ann@turing.com", VArray [a; c]); (str "Unknown", VArray [b])] in
  Admin.renderGroupedByReviewer [b; a; c] = Ret groups
  /\ list_sum (map Admin.count_of groups) = 3%nat.
Proof.
  intros a b c groups.
  assert (H : Admin.renderGroupedByReviewer [b; a; c] = Ret groups)
    by (vm_compute; reflexivity).
  split; [exact H|].
  exact (proj1 (proj2 (groups_sorted_by_count [b; a; c] groups H))).
Defined.

(** X12.  [renderGroupedByReviewer] completes exactly when every
    evaluation has a reviewer name that can be computed and that is no
    property name of [Object.prototype], and a [task_id] and a
    [reviewed_at] that can be converted for its list item; otherwise it
    throws a [TypeError].  So one evaluation that is [null], whose
    [reviewer_email] is a truthy non-string, whose trimmed
    [reviewer_email] is a name such as [constructor], or whose [task_id]
    is an object with a property [toString] makes the whole summary fail,
    wherever it stands in the results. *)
Theorem renderGroupedByReviewer_fails (results : list value) :
  ((exists groups, Admin.renderGroupedByReviewer results = Ret groups)
   <-> forallb groupable results = true /\ forallb listable results = true)
  /\ match Admin.renderGroupedByReviewer results with
     | Ret _ => forallb groupable results = true /\ forallb listable results = true
     | Throw e =>
         e = TypeError
         /\ (forallb groupable results = false \/ forallb listable results = false)
     end
  /\ (forall before after item,
        results = before ++ item :: after ->
        item = VNull
        \/ (exists props x,
              item = VObject props
              /\ lookup (str "reviewer_email") props = Some x
              /\ truthy x = true
              /\ (forall s, x <> VString s))
        \/ (exists props s,
              item = VObject props
              /\ lookup (str "reviewer_email") props = Some (VString s)
              /\ In (trim s) Admin.object_prototype_names)
        \/ (exists props fields x,
              item = VObject props
              /\ lookup (str "task_id") props = Some (VObject fields)
              /\ lookup (str "toString") fields = Some x) ->
        Admin.renderGroupedByReviewer results = Throw TypeError).
Proof.
  pose proof (rendered_groups results) as R.
  split; [|split].
  - split.
    + intros [groups Hg]. rewrite Hg in R. split; apply R.
    + intros [Hg Hl].
      destruct (Admin.renderGroupedByReviewer results) as [groups|e];
        [exists groups; reflexivity|].
      destruct R as [_ [H|H]]; congruence.
  - destruct (Admin.renderGroupedByReviewer results);
      [split; apply R|exact R].
  - intros before after item -> Hitem.
    destruct (Admin.renderGroupedByReviewer (before ++ item :: after)) as [g|e];
      [|destruct R as [-> _]; reflexivity].
    exfalso. destruct R as (Hg & Hl & _).
    rewrite forallb_app in Hg, Hl. cbn [forallb] in Hg, Hl.
    apply andb_true_iff in Hg. destruct Hg as [_ Hg].
    apply andb_true_iff in Hg. destruct Hg as [Hg _].
    apply andb_true_iff in Hl. destruct Hl as [_ Hl].
    apply andb_true_iff in Hl. destruct Hl as [Hl _].
    unfold groupable, Admin.reviewer_of in Hg.
    destruct Hitem as [->|[(props & x & -> & Hx & Ht & Hs)
                          |[(props & s & -> & Hx & Hin)
                           |(props & fields & x & -> & Hx & Hf)]]].
    + cbn in Hg. discriminate.
    + cbn [get] in Hg. rewrite Hx in Hg. cbn [bind] in Hg.
      unfold or_else in Hg. rewrite Ht in Hg.
      destruct x; try discriminate. exact (Hs s eq_refl).
    + cbn [get] in Hg. rewrite Hx in Hg. cbn [bind] in Hg.
      unfold or_else in Hg.
      destruct s as [|c s]; [cbn in Hin; intuition discriminate|].
      cbn [truthy] in Hg.
      destruct (trim (c :: s)) as [|c' t] eqn:Et;
        [cbn in Hin; intuition discriminate|].
      cbn [truthy] in Hg.
      assert (Hi : Admin.inherited (c' :: t) = true).
      { unfold Admin.inherited. apply existsb_exists.
        exists (c' :: t). split; [exact Hin|apply jsstring_eqb_refl]. }
      rewrite Hi in Hg. discriminate.
    + unfold listable, get_opt in Hl. cbn [get] in Hl. rewrite Hx in Hl.
      unfold or_else in Hl. cbn [truthy no_primitive] in Hl.
      rewrite Hf in Hl. discriminate.
Qed.

(** ** The fenced block *)

Lemma run_word (w rest : list N) (pos : nat) (prev : option N)
  (caps : list (nat * (nat * nat))) (k : mstate -> option mstate) :
  run false (RWord w) (MState pos prev (w ++ rest) caps) k
  = k (MState (pos + List.length w) (fold_left (fun _ c => Some c) w prev) rest caps).
Proof.
  revert pos prev. induction w as [|c w IH]; intros pos prev.
  - cbn. rewrite Nat.add_0_r. reflexivity.
  - change (RWord (c :: w)) with (RCat (RChar c) (RWord w)).
    cbn [run ms_rest ms_pos ms_caps app canonicalize].
    rewrite N.eqb_refl, IH. cbn [List.length fold_left].
    rewrite Nat.add_succ_r. reflexivity.
Qed.

Lemma run_word_mismatch (c : N) (w s : list N) (pos : nat) (prev : option N)
  (caps : list (nat * (nat * nat))) (k : mstate -> option mstate) :
  match s with x :: _ => x <> c | [] => True end ->
  run false (RWord (c :: w)) (MState pos prev s caps) k = None.
Proof.
  intros H. change (RWord (c :: w)) with (RCat (RChar c) (RWord w)).
  cbn [run ms_rest canonicalize]. destruct s as [|x s]; [reflexivity|].
  destruct (N.eqb_spec x c); [contradiction|reflexivity].
Qed.

(** A greedy [\s*] takes all of a run of white space when what follows
    matches from there. *)
Lemma star_greedy_spaces (ws rest : list N) (pos : nat) (prev : option N)
  (caps : list (nat * (nat * nat))) (k : mstate -> option mstate) (r : mstate) :
  forallb is_space ws = true ->
  match rest with c :: _ => is_space c = false | [] => True end ->
  (forall p, k (MState (pos + List.length ws) p rest caps) = Some r) ->
  star true ClsSpace pos prev (ws ++ rest) caps k = Some r.
Proof.
  revert pos prev. induction ws as [|c ws IH]; intros pos prev Hws Hrest Hk.
  - cbn [app]. cbn [List.length] in Hk. rewrite Nat.add_0_r in Hk.
    destruct rest as [|c rest]; cbn [star]; [apply Hk|].
    cbn [in_class]. rewrite Hrest. apply Hk.
  - cbn [forallb] in Hws. apply andb_true_iff in Hws. destruct Hws as [Hc Hws].
    cbn [app star in_class]. rewrite Hc.
    rewrite (IH (S pos) (Some c) Hws Hrest); [reflexivity|].
    intros p. cbn [List.length] in Hk. rewrite Nat.add_succ_r in Hk. apply Hk.
Qed.

(** [\s*```] does not match inside a text without backticks that ends
    with something other than white space. *)
Lemma closing_fence_mismatch (b : list N) (x : N) (rest : list N) (pos : nat)
  (prev : option N) (caps : list (nat * (nat * nat)))
  (k : mstate -> option mstate) :
  forallb (fun c => negb (c =? 96)%N) b = true ->
  x <> 96%N -> is_space x = false ->
  star true ClsSpace pos prev (b ++ x :: rest) caps
    (fun st => run false (RWord (str "```")) st k) = None.
Proof.
  intros Hb Hx Hs. revert pos prev.
  induction b as [|c b IH]; intros pos prev.
  - cbn [app star in_class]. rewrite Hs.
    apply (run_word_mismatch 96 (str "``") (x :: rest)). exact Hx.
  - cbn [forallb] in Hb. apply andb_true_iff in Hb. destruct Hb as [Hc Hb].
    cbn [app star in_class].
    assert (Hstop : run false (RWord (str "```"))
                      (MState pos prev (c :: b ++ x :: rest) caps) k = None).
    { apply (run_word_mismatch 96 (str "``") (c :: b ++ x :: rest)).
      intros ->. discriminate. }
    rewrite Hstop, (IH Hb). destruct (is_space c); reflexivity.
Qed.

Lemma skipn_length_app {A} (a b : list A) : skipn (List.length a) (a ++ b) = b.
Proof. induction a as [|x a IH]; [reflexivity|exact IH]. Qed.

Lemma firstn_length_app {A} (a b : list A) : firstn (List.length a) (a ++ b) = a.
Proof. induction a as [|x a IH]; [reflexivity|]. cbn. rewrite IH. reflexivity. Qed.

Lemma trimmed_ends (body : list N) :
  body <> [] -> trim body = body ->
  match body with c :: _ => is_space c = false | [] => True end
  /\ exists b x, body = b ++ [x] /\ is_space x = false.
Proof.
  intros Hne Ht. split.
  - rewrite <- Ht. unfold trim. apply trim_end_head, trim_start_head.
  - assert (Hr : rev body = trim_start (rev (trim_start body))).
    { rewrite <- Ht at 1. unfold trim, trim_end. apply rev_involutive. }
    pose proof (trim_start_head (rev (trim_start body))) as Hh.
    rewrite <- Hr in Hh.
    destruct (rev body) as [|x r] eqn:E.
    + apply (f_equal (@rev N)) in E. rewrite rev_involutive in E. contradiction.
    + exists (rev r), x. split; [|exact Hh].
      apply (f_equal (@rev N)) in E. rewrite rev_involutive in E. exact E.
Qed.

(** The pattern of the fence, from its capturing group on. *)
Lemma lazy_body_capture (b : list N) (x : N) (ws2 tail : list N) (start pos : nat)
  (prev : option N) (caps : list (nat * (nat * nat))) :
  forallb (fun c => negb (c =? 96)%N) b = true ->
  x <> 96%N -> is_space x = false ->
  forallb is_space ws2 = true ->
  star false (ClsOr ClsSpace (ClsNot ClsSpace)) pos prev
    (b ++ x :: ws2 ++ str "```" ++ tail) caps
    (fun st' =>
       run false (RSeq [RStar true ClsSpace; RWord (str "```")])
         (MState (ms_pos st') (ms_prev st') (ms_rest st')
            ((1%nat, (start, ms_pos st')) :: ms_caps st'))
         (fun st => Some st))
  = Some (MState (S (pos + List.length b) + List.length ws2 + 3) (Some 96%N) tail
            ((1%nat, (start, S (pos + List.length b))) :: caps)).
Proof.
  intros Hb Hx Hs Hws. revert pos prev.
  assert (Hclass : forall c, in_class (ClsOr ClsSpace (ClsNot ClsSpace)) c = true).
  { intros c. cbn [in_class]. destruct (is_space c); reflexivity. }
  assert (Hfail : forall b' pos prev caps',
             forallb (fun c => negb (c =? 96)%N) b' = true ->
             run false (RSeq [RStar true ClsSpace; RWord (str "```")])
               (MState pos prev (b' ++ x :: ws2 ++ str "```" ++ tail) caps')
               (fun st => Some st) = None).
  { intros b' pos prev caps' Hb'.
    change (RSeq [RStar true ClsSpace; RWord (str "```")])
      with (RCat (RStar true ClsSpace) (RCat (RWord (str "```")) REmpty)).
    cbn [run ms_pos ms_prev ms_rest ms_caps].
    apply (closing_fence_mismatch b' x _ pos prev caps'
             (fun st' => run false REmpty st' (fun st => Some st)) Hb' Hx Hs). }
  induction b as [|c b IH]; intros pos prev.
  - cbn [app star]. rewrite Hclass.
    cbn [ms_pos ms_prev ms_rest ms_caps].
    rewrite (Hfail [] pos prev _ eq_refl).
    cbn [List.length]. rewrite Nat.add_0_r.
    assert (Hok : run false (RSeq [RStar true ClsSpace; RWord (str "```")])
                    (MState (S pos) (Some x) (ws2 ++ str "```" ++ tail)
                       ((1%nat, (start, S pos)) :: caps))
                    (fun st => Some st)
                  = Some (MState (S pos + List.length ws2 + 3) (Some 96%N) tail
                            ((1%nat, (start, S pos)) :: caps))).
    { change (RSeq [RStar true ClsSpace; RWord (str "```")])
        with (RCat (RStar true ClsSpace) (RCat (RWord (str "```")) REmpty)).
      cbn [run ms_pos ms_prev ms_rest ms_caps].
      apply star_greedy_spaces; [exact Hws|reflexivity|].
      intros p. rewrite run_word. reflexivity. }
    destruct (ws2 ++ str "```" ++ tail) as [|c s'] eqn:E.
    + cbn [star]. cbn [ms_pos ms_prev ms_rest ms_caps]. exact Hok.
    + cbn [star]. cbn [ms_pos ms_prev ms_rest ms_caps].
      rewrite Hclass, Hok. reflexivity.
  - cbn [forallb] in Hb. apply andb_true_iff in Hb. destruct Hb as [Hc Hb].
    cbn [app star]. rewrite Hclass.
    cbn [ms_pos ms_prev ms_rest ms_caps].
    assert (F : forallb (fun c => negb (c =? 96)%N) (c :: b) = true)
      by (cbn [forallb]; rewrite Hc, Hb; reflexivity).
    pose proof (Hfail (c :: b) pos prev ((1%nat, (start, pos)) :: caps) F) as F'.
    cbn [app] in F'. rewrite F'.
    rewrite (IH Hb (S pos) (Some c)). cbn [List.length].
    rewrite !Nat.add_succ_r. reflexivity.
Qed.

Lemma fence_mismatch (s : list N) (pos : nat) (prev : option N) :
  match s with x :: _ => x <> 96%N | [] => True end ->
  run false (re_pattern fence_re) (MState pos prev s []) (fun st => Some st) = None.
Proof.
  intros H. unfold fence_re. cbn [re_pattern RSeq run].
  apply (run_word_mismatch 96 (str "``json") s). exact H.
Qed.

Lemma search_fence_skip (pre s : list N) (pos : nat) (prev : option N) :
  forallb (fun c => negb (c =? 96)%N) pre = true ->
  search false (re_pattern fence_re) pos prev (pre ++ s)
  = search false (re_pattern fence_re) (pos + List.length pre)
      (fold_left (fun _ c => Some c) pre prev) s.
Proof.
  revert pos prev. induction pre as [|c pre IH]; intros pos prev Hpre.
  - cbn [app List.length fold_left]. rewrite Nat.add_0_r. reflexivity.
  - cbn [forallb] in Hpre. apply andb_true_iff in Hpre. destruct Hpre as [Hc Hpre].
    cbn [app search].
    rewrite fence_mismatch by (intros ->; discriminate).
    rewrite (IH (S pos) (Some c) Hpre). cbn [List.length fold_left].
    rewrite Nat.add_succ_r. reflexivity.
Qed.

Lemma search_hit (ic : bool) (r : regex) (pos : nat) (prev : option N) (s : list N)
  (st : mstate) :
  run ic r (MState pos prev s []) (fun st => Some st) = Some st ->
  search ic r pos prev s = Some (pos, st).
Proof. intros H. destruct s; cbn [search]; rewrite H; reflexivity. Qed.

Lemma fence_run (ws1 body ws2 tail : list N) (pos : nat) (prev : option N) :
  forallb is_space ws1 = true ->
  forallb is_space ws2 = true ->
  forallb (fun c => negb (c =? 96)%N) body = true ->
  body <> [] -> trim body = body ->
  exists e,
    run false (re_pattern fence_re)
      (MState pos prev
         (str "```json" ++ ws1 ++ body ++ ws2 ++ str "```" ++ tail) [])
      (fun st => Some st)
    = Some (MState e (Some 96%N) tail
              [(1%nat, ((pos + 7 + List.length ws1)%nat,
                        (pos + 7 + List.length ws1 + List.length body)%nat))]).
Proof.
  intros Hws1 Hws2 Hbody Hne Htrim.
  destruct (trimmed_ends body Hne Htrim) as [Hhead (b & x & Eb & Hx)].
  assert (Hb : forallb (fun c => negb (c =? 96)%N) b = true /\ x <> 96%N).
  { rewrite Eb, forallb_app in Hbody. apply andb_true_iff in Hbody.
    destruct Hbody as [H1 H2]. split; [exact H1|].
    cbn [forallb] in H2. intros ->. discriminate. }
  destruct Hb as [Hb Hx96].
  eexists.
  change (re_pattern fence_re)
    with (RCat (RWord (str "```json"))
            (RCat (RStar true ClsSpace)
               (RCat (RGroup 1 (RStar false (ClsOr ClsSpace (ClsNot ClsSpace))))
                  (RSeq [RStar true ClsSpace; RWord (str "```")])))).
  cbn [run]. rewrite run_word. cbn [ms_pos ms_prev ms_rest ms_caps].
  apply star_greedy_spaces; [exact Hws1| |].
  - destruct body; [contradiction|exact Hhead].
  - intros p. cbn [ms_pos ms_prev ms_rest ms_caps].
    rewrite Eb, <- app_assoc. cbn [app].
    rewrite (lazy_body_capture b x ws2 tail _ _ p [] Hb Hx96 Hx Hws2).
    rewrite length_app. cbn [List.length].
    change (List.length (str "```json")) with 7%nat.
    replace (pos + 7 + List.length ws1 + (List.length b + 1))%nat
      with (S (pos + 7 + List.length ws1 + List.length b)) by lia.
    reflexivity.
Qed.

(** X13.  A text that has no backtick before its first [```json] fence,
    white space after the opening fence, then a body without backticks
    and without surrounding white space, white space, and the closing
    fence: the fence pattern matches at the opening fence and captures
    exactly the body, whatever follows the closing fence.  So
    [parseResponseJSON] decodes the body alone, and [extractScore] returns
    the score of the body whenever the body has one. *)
Theorem fenced_body_is_captured (pre ws1 body ws2 tail : list N)
  (Hpre : forallb (fun c => negb (c =? 96)%N) pre = true)
  (Hws1 : forallb is_space ws1 = true)
  (Hws2 : forallb is_space ws2 = true)
  (Hbody : forallb (fun c => negb (c =? 96)%N) body = true)
  (Hne : body <> [])
  (Htrim : trim body = body) :
  let text := pre ++ str "```json" ++ ws1 ++ body ++ ws2 ++ str "```" ++ tail in
  (exists m, String_match text fence_re = Some m
             /\ m_index m = List.length pre /\ group m 1 = body)
  /\ parseResponseJSON (VString text)
     = match JSON.parse body with Ret v => v | Throw _ => VNull end
  /\ (forall v, score_of_json body = Some v ->
       extractScore (VString text) = Ret v).
Proof.
  intros text.
  destruct (fence_run ws1 body ws2 tail (0 + List.length pre)%nat
              (fold_left (fun _ c => Some c) pre None) Hws1 Hws2 Hbody Hne Htrim)
    as [e He].
  assert (Hm : String_match text fence_re
               = Some (Match (List.length pre)
                         (substring text (List.length pre) e)
                         [(1%nat, body)])).
  { unfold String_match. cbn [re_ignoreCase fence_re].
    unfold text. rewrite (search_fence_skip pre _ 0 None Hpre).
    rewrite (search_hit _ _ _ _ _ _ He).
    cbn [ms_pos ms_caps map fst snd Nat.add]. do 3 f_equal.
    unfold substring.
    replace (List.length pre + 7 + List.length ws1 + List.length body
             - (List.length pre + 7 + List.length ws1))%nat
      with (List.length body) by lia.
    replace (List.length pre + 7 + List.length ws1)%nat
      with (List.length (pre ++ str "```json" ++ ws1))
      by (rewrite !length_app; cbn [List.length]; simpl; lia).
    replace (pre ++ str "```json" ++ ws1 ++ body ++ ws2 ++ str "```" ++ tail)
      with ((pre ++ str "```json" ++ ws1) ++ body ++ ws2 ++ str "```" ++ tail)
      by (rewrite <- !app_assoc; reflexivity).
    rewrite skipn_length_app, firstn_length_app. reflexivity. }
  assert (Htext : exists c t, text = c :: t).
  { unfold text. destruct pre as [|c pre']; [|exists c; eexists; reflexivity].
    exists 96%N. eexists. reflexivity. }
  destruct Htext as (c & t & Htext).
  assert (Ht : truthy (VString text) = true) by (rewrite Htext; reflexivity).
  split; [|split].
  - eexists. split; [exact Hm|]. split; reflexivity.
  - unfold parseResponseJSON. rewrite Ht. cbn [negb typeof type_name_eqb].
    rewrite Hm. reflexivity.
  - intros v Hv. unfold extractScore. rewrite Ht. cbn [negb].
    unfold extractScore_string. rewrite Hm.
    change (group _ 1) with body. rewrite Hv. reflexivity.
Qed.

Lemma fenced_body_is_captured_witness :
  parseResponseJSON
    (VString (str "Result: " ++ str "```json" ++ [10%N]
              ++ str "{}" ++ [10%N] ++ str "```" ++ str " done"))
  = match JSON.parse (str "{}") with Ret v => v | Throw _ => VNull end.
Proof.
  assert (Hne : str "{}" <> []) by discriminate.
  exact (proj1 (proj2 (fenced_body_is_captured
                         (str "Result: ") [10%N] (str "{}") [10%N] (str " done")
                         eq_refl eq_refl eq_refl eq_refl Hne eq_refl))).
Defined.

(** ** Header score and structured view of one response *)

(** X14.  For a text response that [parseResponseJSON] decodes to a truthy
    value of which [renderEvaluationView] builds the view, the card header
    and the view read the same decoded value: when it has an
    [overall_score], the score that [extractScore] puts in the header is
    the [overallScore] of the view; when it has none but has a [score],
    the header shows that score while the view shows no overall score. *)
Theorem header_score_matches_view (s : list N) (parsed rawResponse : value)
  (view : evaluation_view)
  (Hp : parseResponseJSON (VString s) = parsed)
  (Ht : truthy parsed = true)
  (Hview : renderEvaluationView parsed rawResponse = Ret view) :
  overallScore view = normalizeScoreValue (get_opt parsed (str "overall_score"))
  /\ (is_undefined (get_opt parsed (str "overall_score")) = false ->
      extractScore (VString s) = Ret (overallScore view))
  /\ (is_undefined (get_opt parsed (str "overall_score")) = true ->
      is_undefined (get_opt parsed (str "score")) = false ->
      overallScore view = VNull
      /\ extractScore (VString s)
         = Ret (normalizeScoreValue (get_opt parsed (str "score")))).
Proof.
  assert (Ho : overallScore view
               = normalizeScoreValue (get_opt parsed (str "overall_score"))).
  { destruct (renderEvaluationView_view _ _ _ Hview) as (entries & _ & ->).
    reflexivity. }
  split; [exact Ho|].
  assert (Hs : s <> []).
  { intros ->. subst parsed. discriminate. }
  assert (Hparse : JSON.parse (match String_match s fence_re with
                               | Some m => group m 1
                               | None => s
                               end) = Ret parsed).
  { rewrite (parseResponseJSON_string s Hs) in Hp.
    destruct (JSON.parse _) as [v|e]; [congruence|].
    subst parsed. discriminate. }
  assert (Hscore : extractScore_string s
                   = match score_of_json (match String_match s fence_re with
                                          | Some m => group m 1
                                          | None => s
                                          end) with
                     | Some v => v
                     | None => extractScore_string s
                     end).
  { unfold extractScore_string at 1.
    destruct (String_match s fence_re) as [m|] eqn:Em.
    - destruct (score_of_json (group m 1)) eqn:Ej; [reflexivity|].
      unfold extractScore_string. rewrite Em, Ej. reflexivity.
    - destruct (score_of_json s) eqn:Ej; [reflexivity|].
      unfold extractScore_string. rewrite Em, Ej. reflexivity. }
  assert (He : extractScore (VString s) = Ret (extractScore_string s)).
  { unfold extractScore. destruct s; [contradiction|reflexivity]. }
  unfold score_of_json in Hscore. rewrite Hparse in Hscore.
  cbn [bind] in Hscore. rewrite !(get_truthy _ _ Ht) in Hscore.
  cbn [bind] in Hscore.
  split.
  - intros Hdef. rewrite Hdef in Hscore. cbn [negb try_or_continue] in Hscore.
    rewrite He, Hscore, Ho. reflexivity.
  - intros Hundef Hdef. rewrite Hundef in Hscore. cbn [negb bind] in Hscore.
    rewrite Hdef in Hscore. cbn [negb try_or_continue] in Hscore.
    split.
    + rewrite Ho. destruct (get_opt parsed (str "overall_score")); try discriminate.
      reflexivity.
    + rewrite He, Hscore. reflexivity.
Qed.

Lemma header_score_matches_view_witness :
  exists view,
    renderEvaluationView sample_fenced_decoded (VString sample_fenced) = Ret view
    /\ extractScore (VString sample_fenced) = Ret (overallScore view).
Proof.
  assert (Hp : parseResponseJSON (VString sample_fenced) = sample_fenced_decoded)
    by (vm_compute; reflexivity).
  assert (E : exists view,
            renderEvaluationView sample_fenced_decoded (VString sample_fenced)
            = Ret view)
    by (eexists; vm_compute; reflexivity).
  destruct E as [view E]. exists view. split; [exact E|].
  destruct (header_score_matches_view sample_fenced sample_fenced_decoded
              (VString sample_fenced) view Hp eq_refl E) as (_ & Hd & _).
  apply Hd. reflexivity.
Defined.


(** ** Keys of decoded objects *)

Lemma parse_members_keys (f : nat) :
  forall s acc v rest,
    NoDup (map fst acc) ->
    parse_members f s acc = Some (v, rest) ->
    exists props, v = VObject props /\ NoDup (map fst props).
Proof.
  induction f as [|f IH]; [discriminate|].
  intros s acc v rest Hacc. cbn [parse_members].
  destruct (skip_ws s) as [|c s1]; [discriminate|].
  destruct (c =? 34)%N; [|discriminate].
  destruct (string_body s1 []) as [[key s2]|]; [|discriminate].
  destruct (skip_ws s2) as [|c3 s3]; [discriminate|].
  destruct (c3 =? 58)%N; [|discriminate].
  destruct (parse_value f s3) as [[v0 rest0]|]; [|discriminate].
  destruct (skip_ws rest0) as [|c4 s4]; [discriminate|].
  destruct (c4 =? 44)%N.
  - apply IH, set_prop_NoDup, Hacc.
  - destruct (c4 =? 125)%N; [|discriminate].
    intros [= <- _]. eexists. split; [reflexivity|].
    apply set_prop_NoDup, Hacc.
Qed.

Lemma parse_elements_array (f : nat) :
  forall s acc v rest,
    parse_elements f s acc = Some (v, rest) -> exists l, v = VArray l.
Proof.
  induction f as [|f IH]; [discriminate|].
  intros s acc v rest. cbn [parse_elements].
  destruct (parse_value f s) as [[v0 rest0]|]; [|discriminate].
  destruct (skip_ws rest0) as [|c s1]; [discriminate|].
  destruct (c =? 44)%N; [apply IH|].
  destruct (c =? 93)%N; [|discriminate].
  intros [= <- _]. eexists. reflexivity.
Qed.

(** The objects that [JSON.parse] returns have distinct property names:
    a name that occurs twice in the text is one property. *)
Lemma parse_keys_distinct (text : list N) (props : list (list N * value)) :
  JSON.parse text = Ret (VObject props) -> NoDup (map fst props).
Proof.
  unfold JSON.parse.
  destruct (parse_value (fuel_for text) text) as [[v rest]|] eqn:E; [|discriminate].
  destruct (skip_ws rest); [|discriminate]. intros [= ->].
  revert E. destruct (fuel_for text) as [|f]; [discriminate|].
  cbn [parse_value].
  destruct (skip_ws text) as [|c s1]; [discriminate|].
  destruct (c =? 34)%N.
  { destruct (string_body s1 []) as [[t r]|]; discriminate. }
  destruct (c =? 91)%N.
  { destruct (skip_ws s1) as [|c2 s2]; [discriminate|].
    destruct (c2 =? 93)%N; [discriminate|].
    intros H. apply parse_elements_array in H. destruct H. discriminate. }
  destruct (c =? 123)%N.
  { destruct (skip_ws s1) as [|c2 s2]; [discriminate|].
    destruct (c2 =? 125)%N; [intros [= <- _]; constructor|].
    intros H. apply parse_members_keys in H; [|constructor].
    destruct H as (p & [= <-] & Hp). exact Hp. }
  destruct (starts_with (str "null") (c :: s1)); [discriminate|].
  destruct (starts_with (str "true") (c :: s1)); [discriminate|].
  destruct (starts_with (str "false") (c :: s1)); [discriminate|].
  destruct (number_literal (c :: s1)) as [[x r]|]; discriminate.
Qed.

Lemma indexed_keys {A} (f : A -> value) (l : list A) (i : Z) :
  (0 <= i)%Z ->
  (forall k, In k (map fst (indexed f i l)) -> (i <= digits_value k)%Z)
  /\ NoDup (map fst (indexed f i l)).
Proof.
  revert i. induction l as [|x l IH]; intros i Hi; cbn [indexed map fst].
  - split; [intros k []|constructor].
  - destruct (IH (i + 1)%Z ltac:(lia)) as [Hge Hnd]. split.
    + intros k [<-|Hk]; [rewrite digits_value_decimal_digits; lia|].
      apply Hge in Hk. lia.
    + constructor; [|exact Hnd]. intros Hin. apply Hge in Hin.
      rewrite digits_value_decimal_digits in Hin; lia.
Qed.

Lemma NoDup_keys_filter (p : list N * value -> bool) (l : list (list N * value)) :
  NoDup (map fst l) -> NoDup (map fst (filter p l)).
Proof.
  induction l as [|e l IH]; cbn [filter map]; [intros H; exact H|].
  intros H. inversion H as [|? ? Hnot Hnd]; subst.
  destruct (p e); cbn [map]; [|apply IH, Hnd].
  constructor; [|apply IH, Hnd].
  intros Hin. apply Hnot. apply in_map_iff in Hin.
  destruct Hin as (e' & He & Hin). apply filter_In in Hin.
  rewrite <- He. apply in_map, Hin.
Qed.

(** X15.  In the view of a response decoded from text, no two metric
    rows have the same key, and no row has a reserved key: a metric name
    that the text repeats gives one row. *)
Theorem metric_rows_distinct (s : list N) (rawResponse : value)
  (view : evaluation_view)
  (H : renderEvaluationView (parseResponseJSON (VString s)) rawResponse = Ret view) :
  NoDup (map row_key (metricRows view))
  /\ Forall (fun r => ~ In (row_key r) reserved_keys) (metricRows view).
Proof.
  assert (Hentries : forall entries,
            Object_entries (parseResponseJSON (VString s)) = Ret entries ->
            NoDup (map fst entries)).
  { intros entries. unfold parseResponseJSON.
    destruct (negb (truthy (VString s))); [discriminate|].
    cbn [typeof type_name_eqb].
    destruct (JSON.parse _) as [v|e] eqn:Ep; [|discriminate].
    destruct v as [| |b|x|t|l|props]; cbn [Object_entries];
      try discriminate; intros [= <-].
    - constructor.
    - constructor.
    - apply indexed_keys. lia.
    - apply indexed_keys. lia.
    - apply own_entries_NoDup, (parse_keys_distinct _ _ Ep). }
  destruct (renderEvaluationView_view _ _ _ H) as (entries & Ee & ->).
  cbn [metricRows]. split.
  - rewrite map_map. cbn [metric_row_of row_key].
    change (map (fun x => fst x) ?l) with (map fst l).
    apply NoDup_keys_filter, NoDup_keys_filter, Hentries. exact Ee.
  - apply Forall_forall. intros r Hr.
    apply in_map_iff in Hr. destruct Hr as (e & <- & He).
    apply filter_In in He. destruct He as [He _].
    apply filter_In in He. destruct He as [_ He].
    unfold not_reserved in He. apply negb_true_iff in He.
    cbn [metric_row_of row_key]. intros Hin.
    assert (Hex : existsb (JsString.eqb (fst e)) reserved_keys = true).
    { apply existsb_exists. exists (fst e). split; [exact Hin|apply jsstring_eqb_refl]. }
    congruence.
Qed.

Lemma metric_rows_distinct_witness :
  exists view,
    renderEvaluationView
      (parseResponseJSON
         (VString (str "{" ++ quoted (str "a") ++ str ":{" ++ quoted (str "score")
                   ++ str ":1}," ++ quoted (str "a") ++ str ":{"
                   ++ quoted (str "score") ++ str ":2}}")))
      VNull
    = Ret view
    /\ NoDup (map row_key (metricRows view)).
Proof.
  assert (E : exists view,
            renderEvaluationView
              (parseResponseJSON
                 (VString (str "{" ++ quoted (str "a") ++ str ":{"
                           ++ quoted (str "score") ++ str ":1},"
                           ++ quoted (str "a") ++ str ":{"
                           ++ quoted (str "score") ++ str ":2}}")))
              VNull
            = Ret view)
    by (eexists; vm_compute; reflexivity).
  destruct E as [view E]. exists view. split; [exact E|].
  exact (proj1 (metric_rows_distinct _ VNull view E)).
Defined.


(** ** Score cells of the CSV row *)

Lemma digits_quote_free (l : list N) :
  forallb is_digit l = true -> quote_free l = true.
Proof.
  unfold quote_free. induction l as [|c l IH]; [reflexivity|].
  cbn [forallb]. intros H. apply andb_true_iff in H. destruct H as [Hc Hl].
  rewrite (IH Hl), andb_true_r.
  unfold is_digit in Hc. apply andb_true_iff in Hc. destruct Hc as [Hc _].
  apply N.leb_le in Hc. apply negb_true_iff, N.eqb_neq. lia.
Qed.

Lemma quote_free_app (a b : list N) :
  quote_free (a ++ b) = quote_free a && quote_free b.
Proof. apply forallb_app. Qed.

Lemma forallb_firstn {A} (p : A -> bool) (n : nat) (l : list A) :
  forallb p l = true -> forallb p (firstn n l) = true.
Proof.
  revert n. induction l as [|x l IH]; intros [|n] H; try reflexivity.
  cbn [forallb firstn] in *. apply andb_true_iff in H. destruct H as [Hx Hl].
  rewrite Hx, (IH n Hl). reflexivity.
Qed.

Lemma forallb_skipn {A} (p : A -> bool) (n : nat) (l : list A) :
  forallb p l = true -> forallb p (skipn n l) = true.
Proof.
  revert n. induction l as [|x l IH]; intros [|n] H; try reflexivity; [exact H|].
  cbn [forallb skipn] in *. apply andb_true_iff in H. destruct H as [_ Hl].
  apply IH, Hl.
Qed.

Lemma with_one_decimal_quote_free (n : Z) : quote_free (with_one_decimal n) = true.
Proof.
  unfold with_one_decimal.
  set (m0 := if (n =? 0)%Z then [48%N] else decimal_digits n).
  assert (H0 : forallb is_digit m0 = true).
  { unfold m0. destruct (n =? 0)%Z; [reflexivity|apply decimal_digits_shape]. }
  set (m := match m0 with [d] => [48%N; d] | _ => m0 end).
  assert (Hm : forallb is_digit m = true).
  { unfold m. destruct m0 as [|d [|d' r]]; exact H0. }
  rewrite !quote_free_app.
  rewrite (digits_quote_free _ (forallb_firstn _ _ _ Hm)).
  rewrite (digits_quote_free _ (forallb_skipn _ _ _ Hm)).
  reflexivity.
Qed.

Lemma toString_large_quote_free (m : positive) (e : Z) :
  quote_free (toString_large m e) = true.
Proof.
  unfold toString_large.
  destruct (shortest_digits _ _ _ _ _) as [s n].
  pose proof (proj1 (decimal_digits_shape s)) as Hs.
  rewrite !quote_free_app.
  rewrite (digits_quote_free _ (proj1 (decimal_digits_shape (Z.of_nat n - 1)))).
  rewrite andb_true_r.
  destruct (decimal_digits s) as [|d1 [|d2 r]]; [reflexivity| |].
  - apply digits_quote_free, Hs.
  - cbn [forallb] in Hs. apply andb_true_iff in Hs. destruct Hs as [H1 Hr].
    change (d1 :: 46%N :: d2 :: r) with ([d1] ++ [46%N] ++ (d2 :: r)).
    rewrite !quote_free_app.
    rewrite (digits_quote_free [d1]) by (cbn [forallb]; rewrite H1; reflexivity).
    rewrite (digits_quote_free (d2 :: r) Hr). reflexivity.
Qed.

Lemma toFixed1_quote_free (x : number) : quote_free (toFixed1 x) = true.
Proof.
  destruct x as [s| [|] | |s m e]; try reflexivity.
  unfold toFixed1. rewrite quote_free_app.
  destruct (ge_1e21 m e);
    [rewrite toString_large_quote_free|rewrite with_one_decimal_quote_free];
    destruct s; reflexivity.
Qed.

Lemma extractScore_canonical (response score : value) :
  extractScore response = Ret score -> exists c, score = score_value c.
Proof.
  unfold extractScore. destruct (negb (truthy response)).
  - intros [= <-]. exists Unknown. reflexivity.
  - destruct response; try discriminate. intros [= <-].
    apply extractScore_string_canonical.
Qed.

Lemma map_outcome_Forall {A B} (f : A -> outcome B) (P : B -> Prop) (l : list A)
  (ys : list B) :
  (forall x y, f x = Ret y -> P y) ->
  map_outcome f l = Ret ys ->
  List.length ys = List.length l /\ Forall P ys.
Proof.
  intros Hf. revert ys. induction l as [|x l IH]; intros ys; cbn [map_outcome].
  - intros [= <-]. split; [reflexivity|constructor].
  - destruct (f x) as [y|e] eqn:Ex; cbn [bind]; [|discriminate].
    destruct (map_outcome f l) as [ys'|e]; cbn [bind]; [|discriminate].
    intros [= <-]. destruct (IH ys' eq_refl) as [Hl HF].
    split; [cbn [List.length]; rewrite Hl; reflexivity|].
    constructor; [exact (Hf x y Ex)|exact HF].
Qed.

(** X16.  Whatever the stored results are, when [handleDownloadCsv] builds
    its row there is one score cell for each dimension of
    [DIMENSION_ORDER], and each is a text without a double quote, so that
    wrapping it in double quotes gives a well-formed CSV field. *)
Theorem csv_score_cells_quote_free (currentResults : value) (cells : list value)
  (H : handleDownloadCsv currentResults = Ret (Some cells)) :
  List.length cells = List.length DIMENSION_ORDER
  /\ Forall (fun cell => exists t, cell = VString t /\ quote_free t = true) cells.
Proof.
  revert H. unfold handleDownloadCsv.
  destruct (negb (truthy currentResults)); [discriminate|].
  destruct (map_outcome _ DIMENSION_ORDER) as [ys|e] eqn:E; cbn [bind]; [|discriminate].
  intros [= <-]. revert E. apply map_outcome_Forall.
  intros dim cell. unfold csv_score_cell.
  destruct (get currentResults _); cbn [bind]; [|discriminate].
  destruct (extractScore _) as [score|e] eqn:Es; cbn [bind]; [|discriminate].
  intros [= <-]. destruct (extractScore_canonical _ _ Es) as [[|[|]|x] ->].
  - exists (str "N/A"). split; reflexivity.
  - eexists. split; reflexivity.
  - eexists. split; reflexivity.
  - exists (toFixed1 x). split; [reflexivity|apply toFixed1_quote_free].
Qed.

Lemma csv_score_cells_quote_free_witness :
  exists cells,
    handleDownloadCsv sample_results = Ret (Some cells)
    /\ List.length cells = 4%nat.
Proof.
  assert (E : exists cells, handleDownloadCsv sample_results = Ret (Some cells))
    by (eexists; vm_compute; reflexivity).
  destruct E as [cells E]. exists cells. split; [exact E|].
  exact (proj1 (csv_score_cells_quote_free sample_results cells E)).
Defined.


(** ** The matcher returns matches of the pattern *)

Lemma star_sound (g : bool) (cls : char_class) (s : list N) :
  forall pos prev caps k res,
    star g cls pos prev s caps k = Some res ->
    exists l s' prev',
      s = l ++ s' /\ forallb (in_class cls) l = true
      /\ k (MState (pos + List.length l) prev' s' caps) = Some res.
Proof.
  induction s as [|c s IH]; intros pos prev caps k res; cbn [star].
  - intros H. exists [], [], prev. cbn [List.length]. rewrite Nat.add_0_r. auto.
  - assert (Hstop : k (MState pos prev (c :: s) caps) = Some res ->
                    exists l s' prev',
                      c :: s = l ++ s' /\ forallb (in_class cls) l = true
                      /\ k (MState (pos + List.length l) prev' s' caps) = Some res).
    { intros H. exists [], (c :: s), prev. cbn [List.length].
      rewrite Nat.add_0_r. auto. }
    assert (Hmore : in_class cls c = true ->
                    star g cls (S pos) (Some c) s caps k = Some res ->
                    exists l s' prev',
                      c :: s = l ++ s' /\ forallb (in_class cls) l = true
                      /\ k (MState (pos + List.length l) prev' s' caps) = Some res).
    { intros Hc H. destruct (IH _ _ _ _ _ H) as (l & s' & prev' & -> & Hl & Hk).
      exists (c :: l), s', prev'. cbn [forallb List.length].
      rewrite Hc, Hl, Nat.add_succ_r. auto. }
    destruct (in_class cls c) eqn:Ec; [|exact Hstop].
    destruct g.
    + destruct (star true cls (S pos) (Some c) s caps k) eqn:E.
      * intros [= ->]. apply Hmore; reflexivity.
      * exact Hstop.
    + destruct (k (MState pos prev (c :: s) caps)) eqn:E.
      * intros [= ->]. apply Hstop. reflexivity.
      * apply Hmore. reflexivity.
Qed.

Lemma run_sound (ic : bool) (r : regex) :
  forall st k res,
    run ic r st k = Some res ->
    exists st', matches ic r st st' /\ k st' = Some res.
Proof.
  induction r as [|c|cls|r1 IH1 r2 IH2|g cls|r' IH|n r' IH|];
    intros st k res; cbn [run matches].
  - intros H. exists st. auto.
  - destruct (ms_rest st) as [|x s'] eqn:E; [discriminate|].
    destruct (N.eqb _ _) eqn:Ec; [|discriminate].
    intros H. eexists. split; [|exact H]. exists x, s'. auto.
  - destruct (ms_rest st) as [|x s'] eqn:E; [discriminate|].
    destruct (in_class cls x) eqn:Ec; [|discriminate].
    intros H. eexists. split; [|exact H]. exists x, s'. auto.
  - intros H. destruct (IH1 _ _ _ H) as (mid & H1 & H').
    destruct (IH2 _ _ _ H') as (st' & H2 & Hk).
    exists st'. split; [exists mid; auto|exact Hk].
  - intros H. destruct (star_sound _ _ _ _ _ _ _ _ H) as (l & s' & prev' & E & Hl & Hk).
    eexists. split; [|exact Hk]. exists l, s', prev'. auto.
  - destruct (run ic r' st k) eqn:E.
    + intros [= ->]. destruct (IH _ _ _ E) as (st' & H1 & Hk).
      exists st'. split; [left; exact H1|exact Hk].
    + intros H. exists st. split; [right; reflexivity|exact H].
  - intros H. destruct (IH _ _ _ H) as (st1 & H1 & Hk).
    eexists. split; [|exact Hk]. exists st1. auto.
  - destruct (xorb _ _) eqn:E; [|discriminate].
    intros H. exists st. auto.
Qed.

(** A match consumes a stretch of the text and moves the position by its
    length. *)
Lemma matches_advance (ic : bool) (r : regex) :
  forall st st',
    matches ic r st st' ->
    exists l, ms_rest st = l ++ ms_rest st'
              /\ ms_pos st' = (ms_pos st + List.length l)%nat.
Proof.
  induction r as [|c|cls|r1 IH1 r2 IH2|g cls|r' IH|n r' IH|];
    intros st st'; cbn [matches].
  - intros ->. exists []. cbn [List.length]. rewrite Nat.add_0_r. auto.
  - intros (x & s' & E & _ & ->). exists [x]. cbn [ms_rest ms_pos List.length].
    rewrite Nat.add_1_r. auto.
  - intros (x & s' & E & _ & ->). exists [x]. cbn [ms_rest ms_pos List.length].
    rewrite Nat.add_1_r. auto.
  - intros (mid & H1 & H2).
    destruct (IH1 _ _ H1) as (l1 & E1 & P1). destruct (IH2 _ _ H2) as (l2 & E2 & P2).
    exists (l1 ++ l2). rewrite E1, E2, P2, P1, length_app, <- app_assoc.
    split; [reflexivity|lia].
  - intros (l & s' & prev' & E & _ & ->). exists l. auto.
  - intros [H| ->]; [apply IH, H|].
    exists []. cbn [List.length]. rewrite Nat.add_0_r. auto.
  - intros (st1 & H1 & ->). destruct (IH _ _ H1) as (l & E & P).
    exists l. cbn [ms_rest ms_pos]. auto.
  - intros [-> _]. exists []. cbn [List.length]. rewrite Nat.add_0_r. auto.
Qed.

Lemma matches_no_groups (ic : bool) (r : regex) :
  no_groups r = true ->
  forall st st', matches ic r st st' -> ms_caps st' = ms_caps st.
Proof.
  induction r as [|c|cls|r1 IH1 r2 IH2|g cls|r' IH|n r' IH|];
    cbn [no_groups matches]; intros Hg st st'.
  - intros ->. reflexivity.
  - intros (x & s' & _ & _ & ->). reflexivity.
  - intros (x & s' & _ & _ & ->). reflexivity.
  - apply andb_true_iff in Hg. destruct Hg as [H1 H2].
    intros (mid & M1 & M2). rewrite (IH2 H2 _ _ M2). apply (IH1 H1 _ _ M1).
  - intros (l & s' & prev' & _ & _ & ->). reflexivity.
  - intros [H| ->]; [apply (IH Hg _ _ H)|reflexivity].
  - discriminate.
  - intros [-> _]. reflexivity.
Qed.

Lemma matches_seq (ic : bool) (rs1 rs2 : list regex) :
  forall st st',
    matches ic (RSeq (rs1 ++ rs2)) st st' ->
    exists mid, matches ic (RSeq rs1) st mid /\ matches ic (RSeq rs2) mid st'.
Proof.
  induction rs1 as [|r rs1 IH]; intros st st'; cbn [app RSeq matches].
  - intros H. exists st. auto.
  - intros (m1 & H1 & H2). destruct (IH _ _ H2) as (mid & H3 & H4).
    exists mid. split; [exists m1; auto|exact H4].
Qed.

(** Where [search] reports a match, the pattern matches from there. *)
Lemma search_sound (ic : bool) (r : regex) (s : list N) :
  forall pos prev i st',
    search ic r pos prev s = Some (i, st') ->
    exists prev_i,
      (pos <= i)%nat
      /\ matches ic r (MState i prev_i (skipn (i - pos) s) []) st'.
Proof.
  induction s as [|c s IH]; intros pos prev i st'; cbn [search].
  - destruct (run ic r _ _) eqn:E; [|discriminate].
    intros [= <- <-]. destruct (run_sound _ _ _ _ _ E) as (st' & M & [= ->]).
    exists prev. rewrite Nat.sub_diag. split; [lia|exact M].
  - destruct (run ic r _ _) eqn:E.
    + intros [= <- <-]. destruct (run_sound _ _ _ _ _ E) as (st' & M & [= ->]).
      exists prev. rewrite Nat.sub_diag. split; [lia|exact M].
    + intros H. destruct (IH _ _ _ _ H) as (prev_i & Hle & M).
      exists prev_i. split; [lia|].
      replace (i - pos)%nat with (S (i - S pos)) by lia. exact M.
Qed.

Lemma skipn_add_app {A} (n : nat) (s l rest : list A) :
  skipn n s = l ++ rest -> skipn (n + List.length l) s = rest.
Proof.
  intros H. rewrite Nat.add_comm, <- skipn_skipn, H. apply skipn_length_app.
Qed.

(** ** The numeric patterns capture a numeral *)

Lemma matches_cat_inv (ic : bool) (r1 r2 : regex) (st st' : mstate) :
  matches ic (RCat r1 r2) st st' ->
  exists mid, matches ic r1 st mid /\ matches ic r2 mid st'.
Proof. intros H. exact H. Qed.

Lemma matches_group_inv (ic : bool) (n : nat) (r : regex) (st st' : mstate) :
  matches ic (RGroup n r) st st' ->
  exists st1,
    matches ic r st st1
    /\ st' = MState (ms_pos st1) (ms_prev st1) (ms_rest st1)
               ((n, (ms_pos st, ms_pos st1)) :: ms_caps st1).
Proof. intros H. exact H. Qed.

Lemma matches_class_inv (ic : bool) (cls : char_class) (st st' : mstate) :
  matches ic (RClass cls) st st' ->
  exists x s',
    ms_rest st = x :: s' /\ in_class cls x = true
    /\ st' = MState (S (ms_pos st)) (Some x) s' (ms_caps st).
Proof. intros H. exact H. Qed.

(** The text captured by [(\d+(?:\.\d+)?)] begins with a digit. *)
Lemma number_group_capture (ic : bool) (pre post : list regex) (s : list N)
  (i : nat) (prev : option N) (st' : mstate) :
  no_groups (RSeq pre) = true -> no_groups (RSeq post) = true ->
  matches ic (RSeq (pre ++ number_group :: post))
    (MState i prev (skipn i s) []) st' ->
  exists a x l,
    ms_caps st' = [(1%nat, (a, (a + List.length (x :: l))%nat))]
    /\ skipn a s = (x :: l) ++ skipn (a + List.length (x :: l)) s
    /\ is_digit x = true.
Proof.
  intros Hpre Hpost M.
  destruct (matches_seq _ _ _ _ _ M) as (st1 & M1 & M2).
  pose proof (matches_no_groups _ _ Hpre _ _ M1) as C1.
  destruct (matches_advance _ _ _ _ M1) as (l0 & E0 & P0).
  cbn [ms_rest ms_pos ms_caps] in C1, E0, P0.
  change (RSeq (number_group :: post)) with (RCat number_group (RSeq post)) in M2.
  apply matches_cat_inv in M2. destruct M2 as (st2 & Mg & Mpost).
  pose proof (matches_no_groups _ _ Hpost _ _ Mpost) as C2.
  unfold number_group, RPlus in Mg.
  apply matches_group_inv in Mg. destruct Mg as (st3 & Mg & ->).
  apply matches_cat_inv in Mg. destruct Mg as (st4 & Mplus & Mopt).
  apply matches_cat_inv in Mplus. destruct Mplus as (st5 & Mcls & Mstar).
  apply matches_class_inv in Mcls. destruct Mcls as (x & s5 & Ex & Hx & ->).
  pose proof (matches_no_groups ic (RStar true ClsDigit) eq_refl _ _ Mstar) as C4.
  pose proof (matches_no_groups ic
                (ROpt (RCat (RChar 46%N) (RCat (RClass ClsDigit) (RStar true ClsDigit))))
                eq_refl _ _ Mopt) as C3.
  destruct (matches_advance _ _ _ _ Mstar) as (l1 & E1 & P1).
  destruct (matches_advance _ _ _ _ Mopt) as (l2 & E2 & P2).
  cbn [ms_rest ms_pos ms_caps] in C2, C3, C4, E1, P1, E2, P2.
  exists (ms_pos st1), x, (l1 ++ l2).
  assert (Hskip : skipn (ms_pos st1) s = ms_rest st1).
  { rewrite P0. apply skipn_add_app. exact E0. }
  assert (Hrest : ms_rest st1 = (x :: l1 ++ l2) ++ ms_rest st3).
  { rewrite Ex, E1, E2. cbn [app]. rewrite <- app_assoc. reflexivity. }
  assert (Hend : skipn (ms_pos st1 + List.length (x :: l1 ++ l2)) s = ms_rest st3).
  { apply skipn_add_app. rewrite Hskip. exact Hrest. }
  split; [|split].
  - assert (Hp : ms_pos st3 = (ms_pos st1 + List.length (x :: l1 ++ l2))%nat)
      by (rewrite P2, P1; cbn [List.length]; rewrite length_app; lia).
    rewrite C2, C3, C4, C1, Hp. reflexivity.
  - rewrite Hend, Hskip. exact Hrest.
  - exact Hx.
Qed.

Lemma parseFloat_digit_head (x : N) (l : list N) :
  is_digit x = true -> isNaN (parseFloat (x :: l)) = false.
Proof.
  intros Hx. rewrite parseFloat_nan. apply negb_false_iff.
  unfold starts_numeral. cbn [trim_start].
  assert (Hs : is_space x = false /\ (x =? 45)%N = false /\ (x =? 43)%N = false).
  { unfold is_digit in Hx. apply andb_true_iff in Hx. destruct Hx as [H1 H2].
    apply N.leb_le in H1, H2. unfold is_space.
    repeat split;
      repeat match goal with
             | |- (_ || _) = false => apply orb_false_intro
             | |- (_ && _) = false => apply andb_false_iff
             end;
      try (apply N.eqb_neq; lia).
    - right. apply N.leb_gt. lia.
    - left. apply N.leb_gt. lia. }
  destruct Hs as (H1 & H2 & H3). rewrite H1, H2, H3. cbn [orb].
  rewrite Hx. apply orb_true_r.
Qed.

Lemma numeric_match_not_nan (response : list N) (re : RegExp) (pre post : list regex)
  (m : match_array) :
  re_pattern re = RSeq (pre ++ number_group :: post) ->
  no_groups (RSeq pre) = true -> no_groups (RSeq post) = true ->
  String_match response re = Some m ->
  isNaN (parseFloat (group m 1)) = false.
Proof.
  intros Hre Hpre Hpost. unfold String_match.
  destruct (search _ _ 0 None response) as [[i st']|] eqn:E; [|discriminate].
  intros [= <-]. destruct (search_sound _ _ _ _ _ _ _ E) as (prev_i & _ & M).
  rewrite Nat.sub_0_r, Hre in M.
  destruct (number_group_capture _ _ _ _ _ _ _ Hpre Hpost M)
    as (a & x & l & Hc & Hs & Hx).
  unfold group. cbn [m_groups]. rewrite Hc. cbn [map fst snd group_text Nat.eqb].
  unfold substring.
  replace (a + List.length (x :: l) - a)%nat with (List.length (x :: l)) by lia.
  rewrite Hs, firstn_length_app. apply parseFloat_digit_head, Hx.
Qed.

Lemma first_numeric_match_not_nan (response : list N) (v : value) :
  first_numeric_match response [quoted_score_re; loose_score_re] = Some v ->
  exists x, v = VNumber x /\ isNaN x = false.
Proof.
  cbn [first_numeric_match].
  destruct (String_match response quoted_score_re) as [m|] eqn:E1.
  - intros [= <-]. eexists. split; [reflexivity|].
    apply (numeric_match_not_nan response quoted_score_re
             [RWord (quoted (str "score")); RStar true ClsSpace; RChar 58%N;
              RStar true ClsSpace; ROpt (RChar dq)]
             [ROpt (RChar dq)] m); try reflexivity. exact E1.
  - destruct (String_match response loose_score_re) as [m|] eqn:E2; [|discriminate].
    intros [= <-]. eexists. split; [reflexivity|].
    apply (numeric_match_not_nan response loose_score_re
             [RWord (str "score:"); RStar true ClsSpace] [] m);
      try reflexivity. exact E2.
Qed.

(** ** No score is NaN *)

Lemma number_literal_not_nan (s : list N) (x : number) (rest : list N) :
  number_literal s = Some (x, rest) -> isNaN x = false.
Proof.
  unfold number_literal.
  destruct (match s with
            | c :: s' => if (c =? 45)%N then (true, s') else (false, s)
            | [] => (false, s)
            end) as [neg s0].
  set (int := match s0 with
              | c :: s' => if (c =? 48)%N then ([48%N], s') else span_digits s0
              | [] => ([], s0)
              end).
  assert (Hint : forallb is_digit (fst int) = true).
  { subst int. destruct s0 as [|c s']; [reflexivity|].
    destruct (c =? 48)%N; [reflexivity|]. apply span_digits_spec. }
  destruct int as [ip s1]. cbn [fst] in Hint.
  destruct ip as [|d ip]; [discriminate|].
  set (frac := match s1 with
               | c :: s2 =>
                   if (c =? 46)%N then
                     let (fp, s3) := span_digits s2 in
                     match fp with [] => None | _ => Some (fp, s3) end
                   else Some ([], s1)
               | [] => Some ([], s1)
               end).
  assert (Hfrac : forall fp s3, frac = Some (fp, s3) -> forallb is_digit fp = true).
  { subst frac. intros fp s3. destruct s1 as [|c s2]; [intros [= <- _]; reflexivity|].
    destruct (c =? 46)%N; [|intros [= <- _]; reflexivity].
    pose proof (proj1 (span_digits_spec s2)) as Hd.
    destruct (span_digits s2) as [fp' s3']. cbn [fst] in Hd.
    destruct fp'; [discriminate|]. intros [= <- _]. exact Hd. }
  destruct frac as [[fp s3]|]; [|discriminate].
  specialize (Hfrac fp s3 eq_refl).
  destruct (match s3 with
            | c :: s4 =>
                if (c =? 101)%N || (c =? 69)%N then
                  let '(eneg, s5) :=
                    match s4 with
                    | sg :: s5 =>
                        if (sg =? 45)%N then (true, s5)
                        else if (sg =? 43)%N then (false, s5)
                        else (false, s4)
                    | [] => (false, s4)
                    end in
                  let (ds, s6) := span_digits s5 in
                  match ds with
                  | [] => None
                  | _ => Some (cond_Zopp eneg (digits_value ds), s6)
                  end
                else Some (0%Z, s3)
            | [] => Some (0%Z, s3)
            end) as [[e r]|]; [|discriminate].
  assert (Hall : forallb is_digit ((d :: ip) ++ fp) = true)
    by (rewrite forallb_app, Hint, Hfrac; reflexivity).
  intros [= <- _]. apply of_decimal_not_nan, digits_value_nonneg. exact Hall.
Qed.

Lemma parse_value_not_nan (f : nat) (s : list N) (v : value) (rest : list N) :
  parse_value f s = Some (v, rest) -> not_nan_value v = true.
Proof.
  destruct f as [|f]; [discriminate|]. cbn [parse_value].
  destruct (skip_ws s) as [|c s1]; [discriminate|].
  destruct (c =? 34)%N.
  { destruct (string_body s1 []) as [[t r]|]; [|discriminate].
    intros [= <- _]. reflexivity. }
  destruct (c =? 91)%N.
  { destruct (skip_ws s1) as [|c2 s2]; [discriminate|].
    destruct (c2 =? 93)%N; [intros [= <- _]; reflexivity|].
    intros H. apply parse_elements_array in H. destruct H as [l ->]. reflexivity. }
  destruct (c =? 123)%N.
  { destruct (skip_ws s1) as [|c2 s2]; [discriminate|].
    destruct (c2 =? 125)%N; [intros [= <- _]; reflexivity|].
    intros H. apply parse_members_keys in H; [|constructor].
    destruct H as (p & -> & _). reflexivity. }
  destruct (starts_with (str "null") (c :: s1)); [intros [= <- _]; reflexivity|].
  destruct (starts_with (str "true") (c :: s1)); [intros [= <- _]; reflexivity|].
  destruct (starts_with (str "false") (c :: s1)); [intros [= <- _]; reflexivity|].
  destruct (number_literal (c :: s1)) as [[x r]|] eqn:E; [|discriminate].
  intros [= <- _]. cbn [not_nan_value].
  rewrite (number_literal_not_nan _ _ _ E). reflexivity.
Qed.

Lemma set_prop_Forall (P : value -> Prop) (k : list N) (v : value)
  (acc : list (list N * value)) :
  P v -> Forall (fun e => P (snd e)) acc ->
  Forall (fun e => P (snd e)) (set_prop k v acc).
Proof.
  intros Hv. induction acc as [|[k' v'] acc IH]; cbn [set_prop]; intros H.
  - constructor; [exact Hv|constructor].
  - inversion H as [|? ? Hh Ht]; subst.
    destruct (JsString.eqb k' k); constructor; auto.
Qed.

Lemma parse_members_not_nan (f : nat) :
  forall s acc v rest,
    Forall (fun e => not_nan_value (snd e) = true) acc ->
    parse_members f s acc = Some (v, rest) ->
    exists props, v = VObject props
                  /\ Forall (fun e => not_nan_value (snd e) = true) props.
Proof.
  induction f as [|f IH]; [discriminate|].
  intros s acc v rest Hacc. cbn [parse_members].
  destruct (skip_ws s) as [|c s1]; [discriminate|].
  destruct (c =? 34)%N; [|discriminate].
  destruct (string_body s1 []) as [[key s2]|]; [|discriminate].
  destruct (skip_ws s2) as [|c3 s3]; [discriminate|].
  destruct (c3 =? 58)%N; [|discriminate].
  destruct (parse_value f s3) as [[v0 rest0]|] eqn:Ev; [|discriminate].
  apply parse_value_not_nan in Ev.
  pose proof (set_prop_Forall (fun x => not_nan_value x = true) key v0 acc Ev Hacc) as Hs.
  destruct (skip_ws rest0) as [|c4 s4]; [discriminate|].
  destruct (c4 =? 44)%N; [apply IH, Hs|].
  destruct (c4 =? 125)%N; [|discriminate].
  intros [= <- _]. eexists. split; [reflexivity|exact Hs].
Qed.

Lemma parsed_fields_not_nan (text : list N) (props : list (list N * value)) :
  JSON.parse text = Ret (VObject props) ->
  Forall (fun e => not_nan_value (snd e) = true) props.
Proof.
  unfold JSON.parse.
  destruct (parse_value (fuel_for text) text) as [[v rest]|] eqn:E; [|discriminate].
  destruct (skip_ws rest); [|discriminate]. intros [= ->].
  revert E. destruct (fuel_for text) as [|f]; [discriminate|].
  cbn [parse_value].
  destruct (skip_ws text) as [|c s1]; [discriminate|].
  destruct (c =? 34)%N.
  { destruct (string_body s1 []) as [[t r]|]; discriminate. }
  destruct (c =? 91)%N.
  { destruct (skip_ws s1) as [|c2 s2]; [discriminate|].
    destruct (c2 =? 93)%N; [discriminate|].
    intros H. apply parse_elements_array in H. destruct H. discriminate. }
  destruct (c =? 123)%N.
  { destruct (skip_ws s1) as [|c2 s2]; [discriminate|].
    destruct (c2 =? 125)%N; [intros [= <- _]; constructor|].
    intros H. apply parse_members_not_nan in H; [|constructor].
    destruct H as (p & [= <-] & Hp). exact Hp. }
  destruct (starts_with (str "null") (c :: s1)); [discriminate|].
  destruct (starts_with (str "true") (c :: s1)); [discriminate|].
  destruct (starts_with (str "false") (c :: s1)); [discriminate|].
  destruct (number_literal (c :: s1)) as [[x r]|]; discriminate.
Qed.

Lemma lookup_Forall (P : value -> Prop) (k : list N) (v : value)
  (props : list (list N * value)) :
  Forall (fun e => P (snd e)) props -> lookup k props = Some v -> P v.
Proof.
  induction props as [|[k' v'] props IH]; cbn [lookup]; [discriminate|].
  intros H. inversion H as [|? ? Hh Ht]; subst.
  destruct (JsString.eqb k' k); [intros [= <-]; exact Hh|apply IH, Ht].
Qed.

(** The score fields of a decoded text are never NaN. *)
Lemma parsed_score_field_not_nan (text : list N) (parsed v : value) (k : list N) :
  k = str "overall_score" \/ k = str "score" ->
  JSON.parse text = Ret parsed -> get parsed k = Ret v ->
  not_nan_value v = true.
Proof.
  intros Hk Hp. destruct parsed as [| |b|x|t|l|props]; cbn [get].
  - discriminate.
  - discriminate.
  - intros [= <-]. reflexivity.
  - intros [= <-]. reflexivity.
  - destruct Hk as [-> | ->]; cbn; intros [= <-]; reflexivity.
  - destruct Hk as [-> | ->]; cbn; intros [= <-]; reflexivity.
  - destruct (lookup k props) as [x|] eqn:El; intros [= <-]; [|reflexivity].
    exact (lookup_Forall (fun x => not_nan_value x = true) k x props
             (parsed_fields_not_nan _ _ Hp) El).
Qed.

Lemma normalizeScoreValue_not_nan (v : value) :
  not_nan_value v = true -> not_nan_value (normalizeScoreValue v) = true.
Proof.
  destruct v as [| |b|x|s|l|props]; try reflexivity.
  - intros H. exact H.
  - intros _. unfold normalizeScoreValue. cbn [is_null is_undefined orb].
    destruct (JsString.eqb _ (str "pass")); [reflexivity|].
    destruct (JsString.eqb _ (str "fail")); [reflexivity|].
    destruct (isNaN (parseFloat s)) eqn:E; cbn [negb]; [reflexivity|].
    cbn [not_nan_value]. rewrite E. reflexivity.
Qed.

Lemma score_of_json_not_nan (text : list N) (v : value) :
  score_of_json text = Some v -> not_nan_value v = true.
Proof.
  unfold score_of_json.
  destruct (JSON.parse text) as [parsed|e] eqn:Ep; cbn [bind try_or_continue];
    [|discriminate].
  destruct (get parsed (str "overall_score")) as [o|e] eqn:Eo;
    cbn [bind try_or_continue]; [|discriminate].
  destruct (is_undefined o); cbn [negb].
  - destruct (get parsed (str "score")) as [sc|e] eqn:Es;
      cbn [bind try_or_continue]; [|discriminate].
    destruct (is_undefined sc); cbn [negb try_or_continue]; [discriminate|].
    intros [= <-]. apply normalizeScoreValue_not_nan.
    exact (parsed_score_field_not_nan text parsed sc _ (or_intror eq_refl) Ep Es).
  - cbn [try_or_continue]. intros [= <-]. apply normalizeScoreValue_not_nan.
    exact (parsed_score_field_not_nan text parsed o _ (or_introl eq_refl) Ep Eo).
Qed.

Lemma extractScore_string_not_nan (s : list N) :
  not_nan_value (extractScore_string s) = true.
Proof.
  unfold extractScore_string.
  destruct (match String_match s fence_re with
            | Some m => score_of_json (group m 1)
            | None => None
            end) as [v|] eqn:Ef.
  - destruct (String_match s fence_re); [|discriminate].
    exact (score_of_json_not_nan _ _ Ef).
  - destruct (score_of_json s) as [v|] eqn:Ej; [exact (score_of_json_not_nan _ _ Ej)|].
    destruct (_ || _); [reflexivity|].
    destruct (_ || _); [reflexivity|].
    destruct (first_numeric_match s _) as [v|] eqn:En; [|reflexivity].
    destruct (first_numeric_match_not_nan s v En) as (x & -> & Hx).
    cbn [not_nan_value]. rewrite Hx. reflexivity.
Qed.

(** X17.  No score that [extractScore] returns is NaN: a number comes
    from a JSON numeral, from [parseFloat] of a string that begins with a
    numeral, or from [parseFloat] of the digits that a numeric pattern
    captured.  So a score badge has the class [score-gradient] exactly
    when [getScoreStyle] gives it a color. *)
Theorem extracted_score_not_nan (response score : value)
  (H : extractScore response = Ret score) :
  (forall x, score = VNumber x -> isNaN x = false)
  /\ (getScoreClass score = str "score-gradient" <-> getScoreStyle score <> None).
Proof.
  assert (Hn : not_nan_value score = true).
  { revert H. unfold extractScore. destruct (negb (truthy response)).
    - intros [= <-]. reflexivity.
    - destruct response; try discriminate. intros [= <-].
      apply extractScore_string_not_nan. }
  split.
  - intros x ->. cbn [not_nan_value] in Hn. apply negb_true_iff, Hn.
  - destruct (extractScore_canonical _ _ H) as [[|[|]|x] ->].
    + split; [discriminate|]. intros Hs. exfalso. apply Hs. reflexivity.
    + split; [discriminate|]. intros Hs. exfalso. apply Hs. reflexivity.
    + split; [discriminate|]. intros Hs. exfalso. apply Hs. reflexivity.
    + cbn [not_nan_value score_value] in Hn. apply negb_true_iff in Hn.
      cbn [score_value getScoreStyle]. rewrite Hn.
      split; [discriminate|reflexivity].
Qed.

Lemma extracted_score_not_nan_witness :
  exists score,
    extractScore (VString (str "Score: 3.5 out of 5")) = Ret score
    /\ getScoreStyle score <> None.
Proof.
  assert (E : exists score,
            extractScore (VString (str "Score: 3.5 out of 5")) = Ret score
            /\ getScoreClass score = str "score-gradient")
    by (eexists; split; vm_compute; reflexivity).
  destruct E as (score & E & Hc). exists score. split; [exact E|].
  apply (proj2 (extracted_score_not_nan _ score E)). exact Hc.
Defined.


(** ** [handleEvaluate] *)

Lemma trim_nonempty_truthy (s : list N) :
  trim s <> [] -> truthy (VString (trim s)) = true.
Proof. destruct (trim s); [congruence|reflexivity]. Qed.

(** X18.  [handleEvaluate] submits exactly when the trimmed task id is not
    empty and a reviewer email is at hand, that is: the trimmed email input
    is not empty, or it is empty or absent and [localStorage] holds an
    email that is not blank.  The email it submits is the one
    [getReviewerEmail] returns: the trimmed input if that is not empty, the
    trimmed stored email otherwise; it is not empty, is trimmed and is the
    one left in [localStorage].  Nothing checks the domain: a non-blank
    email input is stored and submitted as it is, also when
    [isValidReviewerEmail] rejects it, and is then what
    [loadReviewerEmail] returns.  When nothing is submitted,
    [localStorage] is left as it was. *)
Theorem handleEvaluate_stores_unchecked (taskIdInput : list N)
  (emailInput : option (list N)) (store : email_store) :
  (forall t e,
     snd (handleEvaluate taskIdInput emailInput store) = SubmitTask t e ->
     t = trim taskIdInput /\ t <> []
     /\ getReviewerEmail emailInput store = Some e
     /\ e <> [] /\ trim e = e
     /\ loadReviewerEmail (fst (handleEvaluate taskIdInput emailInput store)) = Some e)
  /\ (forall input,
        emailInput = Some input ->
        trim taskIdInput <> [] -> trim input <> [] ->
        handleEvaluate taskIdInput emailInput store
        = (Some (trim input), SubmitTask (trim taskIdInput) (trim input)))
  /\ ((forall t e,
         snd (handleEvaluate taskIdInput emailInput store) <> SubmitTask t e) ->
      fst (handleEvaluate taskIdInput emailInput store) = store)
  /\ (forall t e,
        snd (handleEvaluate taskIdInput emailInput store) = SubmitTask t e
        <-> t = trim taskIdInput /\ t <> []
            /\ getReviewerEmail emailInput store = Some e /\ e <> [])
  /\ (forall saved,
        match emailInput with Some input => trim input | None => [] end = [] ->
        store = Some saved ->
        trim taskIdInput <> [] -> trim saved <> [] ->
        handleEvaluate taskIdInput emailInput store
        = (Some (trim saved), SubmitTask (trim taskIdInput) (trim saved)))
  /\ ((exists t e,
         snd (handleEvaluate taskIdInput emailInput store) = SubmitTask t e)
      <-> trim taskIdInput <> []
          /\ (match emailInput with Some input => trim input | None => [] end <> []
              \/ exists saved, store = Some saved /\ trim saved <> [])).
Proof.
  assert (Htrim : forall e, getReviewerEmail emailInput store = Some e -> trim e = e).
  { intros e. unfold getReviewerEmail, loadReviewerEmail.
    destruct (truthy (VString _)).
    - intros [= <-]. destruct emailInput; [apply trim_idempotent|reflexivity].
    - destruct store as [saved|]; [|discriminate].
      destruct (truthy (VString saved)); [|discriminate].
      intros [= <-]. apply trim_idempotent. }
  assert (Hiff : forall t e,
             snd (handleEvaluate taskIdInput emailInput store) = SubmitTask t e
             <-> t = trim taskIdInput /\ t <> []
                 /\ getReviewerEmail emailInput store = Some e /\ e <> []).
  { intros t e. unfold handleEvaluate.
    destruct (trim taskIdInput) as [|c t0] eqn:Et; cbn [truthy negb snd fst].
    - split; [discriminate|]. intros (-> & Hn & _). congruence.
    - destruct (getReviewerEmail emailInput store) as [email|] eqn:Eg; cbn [snd fst].
      + destruct email as [|c' e0]; cbn [truthy negb snd fst].
        * split; [discriminate|]. intros (_ & _ & [= <-] & Hn). congruence.
        * split.
          -- intros [= <- <-]. repeat split; discriminate.
          -- intros (-> & _ & [= <-] & _). reflexivity.
      + split; [discriminate|]. intros (_ & _ & Hs & _). discriminate. }
  assert (Hstored : forall saved,
             match emailInput with Some input => trim input | None => [] end = [] ->
             store = Some saved ->
             trim taskIdInput <> [] -> trim saved <> [] ->
             handleEvaluate taskIdInput emailInput store
             = (Some (trim saved), SubmitTask (trim taskIdInput) (trim saved))).
  { intros saved Hi -> Ht Hs. unfold handleEvaluate, getReviewerEmail, loadReviewerEmail.
    assert (Hsaved : truthy (VString saved) = true).
    { destruct saved; [exfalso; apply Hs; reflexivity|reflexivity]. }
    rewrite Hi, (trim_nonempty_truthy _ Ht), Hsaved.
    change (truthy (VString [])) with false. cbn [negb].
    rewrite (trim_nonempty_truthy _ Hs). cbn [negb].
    unfold persistReviewerEmail. rewrite trim_idempotent. reflexivity. }
  assert (Htyped : forall input,
             emailInput = Some input ->
             trim taskIdInput <> [] -> trim input <> [] ->
             handleEvaluate taskIdInput emailInput store
             = (Some (trim input), SubmitTask (trim taskIdInput) (trim input))).
  { intros input -> Ht Hi. unfold handleEvaluate, getReviewerEmail.
    rewrite (trim_nonempty_truthy _ Ht), (trim_nonempty_truthy _ Hi).
    cbn [negb]. rewrite (trim_nonempty_truthy _ Hi). cbn [negb].
    unfold persistReviewerEmail. rewrite trim_idempotent. reflexivity. }
  split; [|split; [|split; [|split; [|split]]]].
  - intros t e. unfold handleEvaluate.
    destruct (trim taskIdInput) as [|c t0] eqn:Et; cbn [truthy negb snd fst];
      [discriminate|].
    destruct (getReviewerEmail emailInput store) as [email|] eqn:Eg;
      cbn [snd fst]; [|discriminate].
    destruct email as [|c' e0]; cbn [truthy negb snd fst]; [discriminate|].
    intros [= <- <-].
    pose proof (Htrim _ eq_refl) as He.
    split; [reflexivity|]. split; [discriminate|]. split; [reflexivity|].
    split; [discriminate|]. split; [exact He|].
    unfold persistReviewerEmail, loadReviewerEmail. rewrite He.
    cbn [truthy]. rewrite He. reflexivity.
  - exact Htyped.
  - unfold handleEvaluate.
    destruct (negb (truthy (VString (trim taskIdInput)))); [reflexivity|].
    destruct (getReviewerEmail emailInput store) as [email|]; [|reflexivity].
    destruct (negb (truthy (VString email))); [reflexivity|].
    intros H. exfalso. exact (H _ _ eq_refl).
  - exact Hiff.
  - exact Hstored.
  - split.
    + intros (t & e & H). apply Hiff in H as (-> & Ht & Hg & He).
      split; [exact Ht|]. revert Hg. unfold getReviewerEmail, loadReviewerEmail.
      destruct (match emailInput with Some v => trim v | None => [] end)
        as [|c typed].
      * change (truthy (VString [])) with false. cbv iota.
        destruct store as [saved|]; [|discriminate].
        destruct (truthy (VString saved)); [|discriminate].
        intros [= <-]. right. exists saved. split; [reflexivity|exact He].
      * intros _. left. discriminate.
    + intros (Ht & [Hi|(saved & Hs & Hn)]).
      * destruct emailInput as [input|]; [|congruence].
        exists (trim taskIdInput), (trim input).
        rewrite (Htyped input eq_refl Ht Hi). reflexivity.
      * destruct (match emailInput with Some v => trim v | None => [] end)
          as [|c typed] eqn:Ei.
        -- exists (trim taskIdInput), (trim saved).
           rewrite (Hstored saved eq_refl Hs Ht Hn). reflexivity.
        -- destruct emailInput as [input|]; [|discriminate].
           exists (trim taskIdInput), (trim input).
           assert (Hi : trim input <> []) by (rewrite Ei; discriminate).
           rewrite (Htyped input eq_refl Ht Hi). reflexivity.
Qed.

(** An email held in [localStorage] is submitted when the input is blank. *)
Example handleEvaluate_submits_stored_email :
  handleEvaluate (str " task-1 ") (Some (str "  ")) (Some (str " ann@turing.com "))
  = (Some (str "ann@turing.com"), SubmitTask (str "task-1") (str "ann@turing.com"))
  /\ handleEvaluate (str "task-1") None (Some (str "  ")) = (Some (str "  "), OpenEmailModal)
  /\ handleEvaluate (str "task-1") None None = (None, OpenEmailModal).
Proof. repeat split. Qed.

(** An email outside the reviewer domain, typed into the input, is what
    [handleEvaluate] stores, although the save buttons would refuse it. *)
Example handleEvaluate_stores_other_domain :
  isValidReviewerEmail (str "eve@example.org") = false
  /\ snd (handleSaveEmailClick (str "eve@example.org") None) = true
  /\ loadReviewerEmail
       (fst (handleEvaluate (str "task-1") (Some (str "eve@example.org")) None))
     = Some (str "eve@example.org").
Proof. repeat split. Qed.


(** ** Dimension cards and summary cards *)

Lemma extractScore_throws (response : value) (e : error) :
  extractScore response = Throw e -> e = TypeError.
Proof.
  unfold extractScore. destruct (negb (truthy response)); [discriminate|].
  destruct response; try discriminate; intros [= <-]; reflexivity.
Qed.

(** One dimension that [results] has: the details card carries the score
    of the summary card; only a [TypeError] is thrown. *)
Lemma dimension_card_body_header (results : value) (name : list N) :
  is_null results || is_undefined results = false ->
  truthy (get_opt results name) = true ->
  match dimension_card_body results name with
  | Ret (name', card) =>
      name' = name /\ score_card_of results name = Ret (dim_header card)
  | Throw e => e = TypeError
  end.
Proof.
  intros Hr Ht. unfold dimension_card_body, score_card_of.
  rewrite (get_not_nullish _ _ Hr). cbn [bind]. rewrite Ht.
  rewrite (get_truthy _ _ Ht). cbn [bind].
  destruct (extractScore _) as [score|e] eqn:Es; cbn [bind].
  - destruct (truthy (parseResponseJSON _)) eqn:Hp.
    + destruct (renderEvaluationView _ _) as [view|e] eqn:Ev; cbn [bind].
      * split; reflexivity.
      * exact (renderEvaluationView_throws _ _ _ Ev).
    + destruct (ToString _) as [u|e] eqn:Et; cbn [bind].
      * split; reflexivity.
      * exact (ToString_throws _ _ Et).
  - exact (extractScore_throws _ _ Es).
Qed.

Lemma score_card_of_throws (results : value) (name : list N) (e : error) :
  score_card_of results name = Throw e -> e = TypeError.
Proof.
  unfold score_card_of. intros H.
  destruct (get results name) as [result|e'] eqn:Eg; cbn [bind] in H;
    [|injection H as <-; exact (get_throws _ _ _ Eg)].
  destruct (truthy result).
  - destruct (get result (str "response")) as [r|e'] eqn:Er; cbn [bind] in H;
      [|injection H as <-; exact (get_throws _ _ _ Er)].
    destruct (extractScore _) as [score|e'] eqn:Es; cbn [bind] in H; [discriminate|].
    injection H as <-. exact (extractScore_throws _ _ Es).
  - cbn [bind] in H.
    destruct (extractScore _) as [score|e'] eqn:Es; cbn [bind] in H; [discriminate|].
    injection H as <-. exact (extractScore_throws _ _ Es).
Qed.

Lemma score_card_absent (results : value) (name : list N) :
  is_null results || is_undefined results = false ->
  truthy (get_opt results name) = false ->
  score_card_of results name = Ret not_applicable_card.
Proof.
  intros Hr Ht. unfold score_card_of.
  rewrite (get_not_nullish _ _ Hr). cbn [bind]. rewrite Ht. reflexivity.
Qed.

Lemma filter_outcome_names (results : value) (dims : list (list N)) :
  is_null results || is_undefined results = false ->
  filter_outcome (fun name => result <- get results name ;; Ret (truthy result)) dims
  = Ret (filter (fun name => truthy (get_opt results name)) dims).
Proof.
  intros Hr. induction dims as [|n dims IH]; [reflexivity|].
  cbn [filter_outcome filter]. rewrite (get_not_nullish _ _ Hr). cbn [bind].
  rewrite IH. cbn [bind]. reflexivity.
Qed.

Lemma dimension_cards_of (results : value) (dims : list (list N)) :
  is_null results || is_undefined results = false ->
  match map_outcome (dimension_card_body results)
          (filter (fun name => truthy (get_opt results name)) dims) with
  | Ret cards =>
      exists summary,
        map_outcome (score_card_of results) dims = Ret summary
        /\ map (fun c => (fst c, dim_header (snd c))) cards
           = filter (fun p => truthy (get_opt results (fst p))) (combine dims summary)
        /\ Forall (fun p => truthy (get_opt results (fst p)) = false ->
                            snd p = not_applicable_card)
             (combine dims summary)
  | Throw e => e = TypeError
  end.
Proof.
  intros Hr. induction dims as [|n dims IH].
  - cbn. exists []. repeat split. constructor.
  - cbn [filter]. destruct (truthy (get_opt results n)) eqn:Ht.
    + cbn [map_outcome].
      pose proof (dimension_card_body_header results n Hr Ht) as Hb.
      destruct (dimension_card_body results n) as [[n' card]|e]; cbn [bind].
      * destruct Hb as [-> Hs]. rewrite Hs. cbn [bind].
        destruct (map_outcome (dimension_card_body results) _) as [cards|e];
          cbn [bind].
        -- destruct IH as (summary & -> & Hm & Hf). cbn [bind].
           exists (dim_header card :: summary). split; [reflexivity|].
           cbn [combine filter map fst snd]. rewrite Ht. split.
           ++ rewrite Hm. reflexivity.
           ++ constructor; [cbn [fst]; congruence|exact Hf].
        -- exact IH.
      * exact Hb.
    + cbn [map_outcome]. rewrite (score_card_absent results n Hr Ht). cbn [bind].
      destruct (map_outcome (dimension_card_body results) _) as [cards|e].
      * destruct IH as (summary & -> & Hm & Hf). cbn [bind].
        exists (not_applicable_card :: summary). split; [reflexivity|].
        cbn [combine filter fst]. rewrite Ht. split; [exact Hm|].
        constructor; [reflexivity|exact Hf].
      * exact IH.
Qed.

Lemma dimension_cards_summary (results : value) :
  match renderDimensionResults results with
  | Ret cards =>
      exists summary,
        renderScoreSummary results = Ret summary
        /\ List.length summary = List.length DIMENSION_ORDER
        /\ map (fun c => (fst c, dim_header (snd c))) cards
           = filter (fun p => truthy (get_opt results (fst p)))
               (combine DIMENSION_ORDER summary)
        /\ Forall (fun p => truthy (get_opt results (fst p)) = false ->
                            snd p = not_applicable_card)
             (combine DIMENSION_ORDER summary)
  | Throw e => e = TypeError
  end.
Proof.
  unfold renderDimensionResults, renderScoreSummary.
  destruct (is_null results || is_undefined results) eqn:Hr.
  - destruct results; try discriminate; reflexivity.
  - rewrite (filter_outcome_names results DIMENSION_ORDER Hr). cbn [bind].
    pose proof (dimension_cards_of results DIMENSION_ORDER Hr) as H.
    destruct (map_outcome (dimension_card_body results) _) as [cards|e]; [|exact H].
    destruct H as (summary & Hs & Hm & Hf). exists summary.
    split; [exact Hs|]. split; [|split; [exact Hm|exact Hf]].
    exact (proj1 (map_outcome_Forall _ (fun _ => True) _ _ (fun _ _ _ => I) Hs)).
Qed.

(** X19.  [renderDimensionResults] and [renderScoreSummary] on every
    [results]: whenever the detail cards are built, so is the summary; the
    detail cards are then those of the dimensions of [DIMENSION_ORDER] that
    [results] has, in that order, each headed by the score of that
    dimension's summary card, and the summary card of every other
    dimension reads N/A.  Keys of [results] outside [DIMENSION_ORDER] are
    shown nowhere.  Either function throws nothing but a [TypeError], and
    when the summary throws, so do the details.  The details can throw
    where the summary is built: a response whose view cannot be rendered
    still has a score. *)
Theorem dimension_cards_match_summary (results : value) :
  match renderDimensionResults results with
  | Ret cards =>
      exists summary,
        renderScoreSummary results = Ret summary
        /\ List.length summary = List.length DIMENSION_ORDER
        /\ map (fun c => (fst c, dim_header (snd c))) cards
           = filter (fun p => truthy (get_opt results (fst p)))
               (combine DIMENSION_ORDER summary)
        /\ Forall (fun p => truthy (get_opt results (fst p)) = false ->
                            snd p = not_applicable_card)
             (combine DIMENSION_ORDER summary)
  | Throw e => e = TypeError
  end
  /\ (forall e,
        renderScoreSummary results = Throw e ->
        e = TypeError /\ renderDimensionResults results = Throw TypeError)
  /\ (exists text,
        let results' :=
          VObject [(str "Prompt Quality", VObject [(str "response", VString text)])] in
        renderDimensionResults results' = Throw TypeError
        /\ renderScoreSummary results'
           = Ret [ScoreCard (str "score-gradient") (getScoreStyle (VNumber (of_Z 4)))
                    (VString (str "4.0"));
                  not_applicable_card; not_applicable_card; not_applicable_card]).
Proof.
  split; [exact (dimension_cards_summary results)|]. split.
  - intros e He. split.
    + exact (map_outcome_throws _ _ _ (score_card_of_throws results) He).
    + pose proof (dimension_cards_summary results) as H.
      destruct (renderDimensionResults results) as [cards|e'].
      * destruct H as (summary & Hs & _). rewrite Hs in He. discriminate.
      * rewrite H. reflexivity.
  - exists sample_null_run_text. split; vm_compute; reflexivity.
Qed.

(** The details of a response whose metric has a [null] among its
    misclassified runs cannot be rendered; the summary shows its score. *)
Example dimension_cards_throw_alone :
  let results :=
    VObject [(str "Prompt Quality",
              VObject [(str "response", VString sample_null_run_text)])] in
  renderDimensionResults results = Throw TypeError
  /\ exists summary, renderScoreSummary results = Ret summary.
Proof. split; [vm_compute; reflexivity|eexists; vm_compute; reflexivity]. Qed.


(** ** Metric labels keep markup *)

Lemma upper_cu_other (c0 c : N) :
  is_upper c0 = false -> is_lower c0 = false ->
  (c0 =? upper_cu c)%N = (c0 =? c)%N.
Proof.
  intros Hu Hl. unfold upper_cu. destruct (is_lower c) eqn:E; [|reflexivity].
  assert (H1 : (c0 =? c)%N = false).
  { apply N.eqb_neq. intros ->. congruence. }
  assert (H2 : (c0 =? c - 32)%N = false).
  { apply N.eqb_neq. intros ->.
    unfold is_lower in E. apply andb_prop in E as [E1 E2]. apply N.leb_le in E1, E2.
    assert (is_upper (c - 32) = true); [|congruence].
    unfold is_upper. apply andb_true_intro. split; apply N.leb_le; lia. }
  rewrite H1, H2. reflexivity.
Qed.

Lemma occurrences_capitalized (c0 : N) (s : list N) :
  is_upper c0 = false -> is_lower c0 = false ->
  forall b, occurrences c0 (capitalized b s) = occurrences c0 s.
Proof.
  intros Hu Hl. unfold occurrences.
  induction s as [|c s IH]; intros b; [reflexivity|].
  cbn [capitalized filter].
  assert (E : (c0 =? (if is_word c && negb b then upper_cu c else c))%N = (c0 =? c)%N).
  { destruct (is_word c && negb b); [apply upper_cu_other; assumption|reflexivity]. }
  rewrite E. destruct (c0 =? c)%N; cbn [List.length]; rewrite IH; reflexivity.
Qed.

Lemma occurrences_spaced (c0 : N) (s : list N) :
  c0 <> 95%N -> c0 <> 32%N -> occurrences c0 (spaced s) = occurrences c0 s.
Proof.
  intros H95 H32. unfold occurrences, spaced.
  induction s as [|c s IH]; [reflexivity|]. cbn [map filter].
  assert (E : (c0 =? (if (c =? 95)%N then 32%N else c))%N = (c0 =? c)%N).
  { destruct (N.eqb_spec c 95) as [->|]; [|reflexivity].
    rewrite (proj2 (N.eqb_neq c0 32) H32), (proj2 (N.eqb_neq c0 95) H95). reflexivity. }
  rewrite E. destruct (c0 =? c)%N; cbn [List.length]; rewrite IH; reflexivity.
Qed.

Lemma nth_capitalized (s : list N) :
  forall b i c,
    nth_error s i = Some c -> is_lower c = false ->
    nth_error (capitalized b s) i = Some c.
Proof.
  induction s as [|x s IH]; intros b [|i] c; cbn [nth_error capitalized];
    try discriminate.
  - intros [= ->] Hl. unfold upper_cu. rewrite Hl.
    destruct (is_word c && negb b); reflexivity.
  - apply IH.
Qed.

Lemma escapeHtml_lt_count (text : list N) :
  occurrences 60 (escapeHtml text) = occurrences 10 text.
Proof.
  rewrite escapeHtml_flat_map. unfold occurrences.
  induction text as [|c text IH]; [reflexivity|].
  cbn [flat_map]. rewrite filter_app, length_app, IH.
  destruct (escape_app_cases c) as [[-> ->]|[[-> ->]|[[-> ->]|[[-> ->]|[[-> ->]|[Hp ->]]]]]];
    try reflexivity.
  destruct (plain_unit_spec c Hp) as [_ [_ [H60 [_ H10]]]].
  cbn [filter]. rewrite (N.eqb_sym 60 c), (N.eqb_sym 10 c), H60, H10. reflexivity.
Qed.

(** X20.  [formatLabel] changes nothing but underscores and the letters
    a-z: every other code unit of the key stands at the same place in the
    label, and the label has as many of each code unit other than letters,
    underscore and space as the key -- as many [<], [>] and [&] in
    particular.  The label of a metric row is this text, with the markup
    of the key in it, whereas [escapeHtml] leaves no [<] but that of
    [<br>]. *)
Theorem metric_label_keeps_markup (key : list N) (v : value) :
  row_label (metric_row_of (key, v)) = formatLabel key
  /\ (forall i c,
        nth_error key i = Some c -> c <> 95%N -> is_lower c = false ->
        nth_error (formatLabel key) i = Some c)
  /\ (forall c,
        is_upper c = false -> is_lower c = false -> c <> 95%N -> c <> 32%N ->
        occurrences c (formatLabel key) = occurrences c key)
  /\ occurrences 60 (formatLabel key) = occurrences 60 key
  /\ occurrences 60 (escapeHtml key) = occurrences 10 key.
Proof.
  split; [reflexivity|]. rewrite formatLabel_title_case. unfold title_case.
  assert (Hocc : forall c,
            is_upper c = false -> is_lower c = false -> c <> 95%N -> c <> 32%N ->
            occurrences c (capitalized false (spaced key)) = occurrences c key).
  { intros c Hu Hl H95 H32.
    rewrite (occurrences_capitalized c _ Hu Hl), (occurrences_spaced c _ H95 H32).
    reflexivity. }
  split; [|split; [exact Hocc|split]].
  - intros i c Hn H95 Hl. apply nth_capitalized; [|exact Hl].
    unfold spaced. rewrite nth_error_map, Hn. cbn [option_map].
    rewrite (proj2 (N.eqb_neq c 95) H95). reflexivity.
  - apply Hocc; [reflexivity|reflexivity|discriminate|discriminate].
  - apply escapeHtml_lt_count.
Qed.


(** ** What a fence match looks like *)

Lemma matches_word (w : list N) :
  forall st st',
    matches false (RWord w) st st' ->
    ms_rest st = w ++ ms_rest st'
    /\ ms_pos st' = (ms_pos st + List.length w)%nat
    /\ ms_caps st' = ms_caps st.
Proof.
  induction w as [|c w IH]; intros st st'.
  - cbn. intros ->. rewrite Nat.add_0_r. auto.
  - change (RWord (c :: w)) with (RCat (RChar c) (RWord w)).
    intros H. apply matches_cat_inv in H. destruct H as (mid & Hc & Hw).
    cbn [matches canonicalize] in Hc. destruct Hc as (x & s' & E & Hx & ->).
    apply N.eqb_eq in Hx. subst x.
    destruct (IH _ _ Hw) as (E' & P & C). cbn [ms_rest ms_pos ms_caps] in E', P, C.
    rewrite E, E', P, C. cbn [app List.length]. rewrite Nat.add_succ_r. auto.
Qed.

Lemma matches_star_inv (ic g : bool) (cls : char_class) (st st' : mstate) :
  matches ic (RStar g cls) st st' ->
  exists l,
    ms_rest st = l ++ ms_rest st' /\ forallb (in_class cls) l = true
    /\ ms_pos st' = (ms_pos st + List.length l)%nat
    /\ ms_caps st' = ms_caps st.
Proof.
  cbn [matches]. intros (l & s' & prev' & E & Hl & ->). exists l. auto.
Qed.

Lemma includes_app (pre w rest : list N) : includes (pre ++ w ++ rest) w = true.
Proof.
  assert (Hs : forall w r, starts_with w (w ++ r) = true).
  { clear. induction w as [|c w IH]; intros r; [reflexivity|].
    cbn [app starts_with]. rewrite N.eqb_refl. apply IH. }
  induction pre as [|c pre IH].
  - cbn [app]. destruct (w ++ rest) eqn:E; cbn [includes]; rewrite <- E, Hs; reflexivity.
  - cbn [app includes]. rewrite IH. apply orb_true_r.
Qed.

Lemma skipn_nonempty {A} (i : nat) (s : list A) (x : A) (r : list A) :
  skipn i s = x :: r -> List.length (firstn i s) = i.
Proof.
  intros H. apply firstn_length_le.
  destruct (Nat.le_gt_cases i (List.length s)) as [Hle|Hgt]; [exact Hle|].
  rewrite skipn_all2 in H by lia. discriminate.
Qed.

(** X21.  Whenever the fence pattern matches a text, the text is: some
    prefix, [```json], white space, the captured text, white space,
    [```], and a rest; the match starts at the opening fence and spans
    up to the closing one.  So a text without [```json] has no match, and
    [parseResponseJSON] decodes it as a whole. *)
Theorem fence_match_shape (s : list N) :
  match String_match s fence_re with
  | Some m =>
      exists pre ws1 ws2 tail,
        s = pre ++ str "```json" ++ ws1 ++ group m 1 ++ ws2 ++ str "```" ++ tail
        /\ List.length pre = m_index m
        /\ forallb is_space ws1 = true /\ forallb is_space ws2 = true
        /\ m_text m = str "```json" ++ ws1 ++ group m 1 ++ ws2 ++ str "```"
  | None =>
      parseResponseJSON (VString s)
      = match s with
        | [] => VNull
        | _ => match JSON.parse s with Ret v => v | Throw _ => VNull end
        end
  end
  /\ (includes s (str "```json") = false -> String_match s fence_re = None).
Proof.
  assert (Hshape : forall m,
            String_match s fence_re = Some m ->
            exists pre ws1 ws2 tail,
              s = pre ++ str "```json" ++ ws1 ++ group m 1 ++ ws2 ++ str "```" ++ tail
              /\ List.length pre = m_index m
              /\ forallb is_space ws1 = true /\ forallb is_space ws2 = true
              /\ m_text m = str "```json" ++ ws1 ++ group m 1 ++ ws2 ++ str "```").
  { intros m. unfold String_match.
    destruct (search _ _ 0 None s) as [[i st']|] eqn:E; [|discriminate].
    intros [= <-]. destruct (search_sound _ _ _ _ _ _ _ E) as (prev_i & _ & M).
    rewrite Nat.sub_0_r in M. cbn [re_ignoreCase re_pattern fence_re] in M.
    change (RSeq [RWord (str "```json"); RStar true ClsSpace;
                  RGroup 1 (RStar false (ClsOr ClsSpace (ClsNot ClsSpace)));
                  RStar true ClsSpace; RWord (str "```")])
      with (RCat (RWord (str "```json"))
              (RCat (RStar true ClsSpace)
                 (RCat (RGroup 1 (RStar false (ClsOr ClsSpace (ClsNot ClsSpace))))
                    (RCat (RStar true ClsSpace)
                       (RCat (RWord (str "```")) REmpty))))) in M.
    apply matches_cat_inv in M. destruct M as (st1 & M1 & M).
    apply matches_cat_inv in M. destruct M as (st2 & M2 & M).
    apply matches_cat_inv in M. destruct M as (st3 & M3 & M).
    apply matches_cat_inv in M. destruct M as (st4 & M4 & M).
    apply matches_cat_inv in M. destruct M as (st5 & M5 & M).
    cbn [matches] in M. subst st'.
    destruct (matches_word _ _ _ M1) as (E1 & P1 & C1).
    destruct (matches_star_inv _ _ _ _ _ M2) as (ws1 & E2 & H2 & P2 & C2).
    apply matches_group_inv in M3. destruct M3 as (st3' & M3 & ->).
    destruct (matches_star_inv _ _ _ _ _ M3) as (body & E3 & _ & P3 & C3).
    destruct (matches_star_inv _ _ _ _ _ M4) as (ws2 & E4 & H4 & P4 & C4).
    destruct (matches_word _ _ _ M5) as (E5 & P5 & C5).
    cbn [ms_rest ms_pos ms_caps] in *.
    assert (Hrest : skipn i s
                    = str "```json" ++ ws1 ++ body ++ ws2 ++ str "```" ++ ms_rest st5).
    { rewrite E1, E2, E3, E4, E5. reflexivity. }
    assert (Hi : List.length (firstn i s) = i).
    { apply (skipn_nonempty i s 96%N
               (str "``json" ++ ws1 ++ body ++ ws2 ++ str "```" ++ ms_rest st5)).
      exact Hrest. }
    assert (Hs : s = firstn i s ++ str "```json" ++ ws1 ++ body ++ ws2
                       ++ str "```" ++ ms_rest st5).
    { rewrite <- Hrest. symmetry. apply firstn_skipn. }
    assert (Hsk : skipn (ms_pos st2) s = body ++ ws2 ++ str "```" ++ ms_rest st5).
    { rewrite P2, P1, <- Nat.add_assoc, <- length_app.
      apply skipn_add_app. rewrite Hrest, <- app_assoc. reflexivity. }
    assert (Hg : substring s (ms_pos st2) (ms_pos st3') = body).
    { unfold substring. rewrite Hsk, P3.
      replace (ms_pos st2 + List.length body - ms_pos st2)%nat
        with (List.length body) by lia.
      apply firstn_length_app. }
    exists (firstn i s), ws1, ws2, (ms_rest st5).
    unfold group. cbn [m_groups m_index m_text]. rewrite C5, C4.
    cbn [map fst snd group_text Nat.eqb]. rewrite Hg.
    split; [exact Hs|]. split; [exact Hi|]. split; [exact H2|]. split; [exact H4|].
    unfold substring. rewrite Hrest.
    replace (ms_pos st5 - i)%nat
      with (List.length (str "```json" ++ ws1 ++ body ++ ws2 ++ str "```"))
      by (rewrite P5, P4, P3, P2, P1, !length_app; lia).
    replace (str "```json" ++ ws1 ++ body ++ ws2 ++ str "```" ++ ms_rest st5)
      with ((str "```json" ++ ws1 ++ body ++ ws2 ++ str "```") ++ ms_rest st5)
      by (rewrite <- !app_assoc; reflexivity).
    apply firstn_length_app. }
  split.
  - destruct (String_match s fence_re) as [m|] eqn:Em; [apply Hshape; reflexivity|].
    destruct s as [|c s']; [reflexivity|].
    rewrite parseResponseJSON_string by discriminate. rewrite Em. reflexivity.
  - intros Hinc. destruct (String_match s fence_re) as [m|] eqn:Em; [|reflexivity].
    destruct (Hshape m eq_refl) as (pre & ws1 & ws2 & tail & Hs & _).
    rewrite Hs, includes_app in Hinc. discriminate.
Qed.
